(** * A shallow embedding of the offline sync database

    The development follows the TypeScript sources:
    - [MemoryStorage], the storage engine that [Database] imports: the
      write-buffering overlay over a fallback storage engine, with
      [transaction] and [commit];
    - [Database] and [Table] (src/Database.ts): key scheme, index
      maintenance on [setItem]/[deleteItem], [sync], [queryTable].

    Asynchronous code is modelled sequentially: every [await] of the
    sources waits for an operation of [MemoryStorage], whose body runs to
    completion when it is called, so the order of effects is the textual
    order.  The calls [Promise.all] starts in [sync], one per table, are run
    one after the other, and none is stopped by the failure of another.
    Mutable storage objects are threaded explicitly; a child overlay
    carries its fallback inside, so a write of the child to its fallback is
    seen by everybody who holds the fallback.

    What the embedding covers.  An object used as a map ([Obj]) is the
    list of its own entries.  It stands for the object of the sources as
    long as the keys looked up or assigned are none of the names that
    [Object.prototype] defines ([inherited]): for such a name [k in o]
    holds of every object, [o[k]] reads the inherited member,
    [o['__proto__'] = v] creates no key, and a key [hasOwnProperty] hides
    the method [MemoryStorage] calls.  A stored value is read as a value of
    the kind [Database] writes under its key: an object under the key of a
    row, of a snapshot or of a meta record, an array of groups under the key
    of an index; for a value of another kind the sources throw a
    [TypeError] or read the properties of a string or an array, and the
    embedding does not follow them there.  The predicates [ordinary],
    [tidy], [ordinary_table] and [shaped] describe the inputs on which the
    definitions are the sources, and the theorems that depend on it assume
    them. *)

From Stdlib Require Import List String Ascii ZArith Bool Lia Arith DecimalString FinFun.
Import ListNotations.
Open Scope string_scope.

Set Implicit Arguments.

(* ================================================================== *)
(** * JavaScript values *)
(* ================================================================== *)

(** The values that rows, filters and index groups hold.  Numbers are the
    integers plus [NaN]; [JRef r str] is an object, array or function known
    only by its reference [r], together with the string [String(v)] gives
    for it. *)
Inductive JsVal : Type :=
| JUndefined
| JNull
| JBool (b : bool)
| JNum (z : Z)
| JNaN
| JStr (s : string)
| JRef (r : nat) (str : string).

(** [a === b] *)
Definition strict_eq (a b : JsVal) : bool :=
  match a, b with
  | JUndefined, JUndefined => true
  | JNull, JNull => true
  | JBool x, JBool y => Bool.eqb x y
  | JNum x, JNum y => Z.eqb x y
  | JStr x, JStr y => String.eqb x y
  | JRef x _, JRef y _ => Nat.eqb x y
  | _, _ => false
  end.

(** SameValueZero, the comparison of [Array.prototype.includes]. *)
Definition same_value_zero (a b : JsVal) : bool :=
  match a, b with
  | JNaN, JNaN => true
  | _, _ => strict_eq a b
  end.

(** [Boolean(v)] *)
Definition truthy (v : JsVal) : bool :=
  match v with
  | JUndefined | JNull | JNaN => false
  | JBool b => b
  | JNum z => negb (Z.eqb z 0)
  | JStr s => negb (String.eqb s "")
  | JRef _ _ => true
  end.

(** [String(v)], the coercion applied by [encodeURIComponent] and
    [decodeURIComponent] to their argument.  (A number prints all its
    digits, as [String] does below 1e21.) *)
Definition to_string (v : JsVal) : string :=
  match v with
  | JUndefined => "undefined"
  | JNull => "null"
  | JBool true => "true"
  | JBool false => "false"
  | JNum z => NilZero.string_of_int (Z.to_int z)
  | JNaN => "NaN"
  | JStr s => s
  | JRef _ str => str
  end.

Definition is_undefined (v : JsVal) : bool := strict_eq v JUndefined.

(* ================================================================== *)
(** * JavaScript objects used as maps *)
(* ================================================================== *)

(** An object with string keys: the list of its own entries, kept in
    insertion order as [Object.keys] reports it: assigning to an existing
    key keeps its place, assigning to a new key appends, [delete] drops the
    key.  (The special place of keys that look like array indices is not
    modelled; no key built by [storageKey] is one.  An object that is given
    from outside, the [indexes] of a table or a filter, lists its entries in
    the order [Object.entries] gives them.) *)
Definition Obj (V : Type) : Type := list (string * V).

Section Objects.
Variable V : Type.

Fixpoint obj_get (o : Obj V) (k : string) : option V :=
  match o with
  | [] => None
  | (k', v) :: rest => if String.eqb k k' then Some v else obj_get rest k
  end.

(** [o.hasOwnProperty(k)]: is [k] an own key?  For a key that is
    [ordinary] this is also [k in o]. *)
Definition obj_has (o : Obj V) (k : string) : bool :=
  match obj_get o k with Some _ => true | None => false end.

(** [o[k] = v], for a key other than ['__proto__'] *)
Fixpoint obj_set (k : string) (v : V) (o : Obj V) : Obj V :=
  match o with
  | [] => [(k, v)]
  | (k', v') :: rest =>
      if String.eqb k k' then (k, v) :: rest
      else (k', v') :: obj_set k v rest
  end.

(** [delete o[k]] *)
Fixpoint obj_delete (k : string) (o : Obj V) : Obj V :=
  match o with
  | [] => []
  | (k', v') :: rest =>
      if String.eqb k k' then obj_delete k rest
      else (k', v') :: obj_delete k rest
  end.

(** [Object.keys(o)] *)
Definition obj_keys (o : Obj V) : list string := map fst o.

(** [Object.fromEntries(entries)] *)
Definition obj_from_entries (entries : list (string * V)) : Obj V :=
  fold_left (fun o kv => obj_set (fst kv) (snd kv) o) entries [].
End Objects.

(** [o[k]] on an object of values: the own value, and [undefined] when
    the key is absent and [ordinary]. *)
Definition prop (o : Obj JsVal) (k : string) : JsVal :=
  match obj_get o k with Some v => v | None => JUndefined end.

(** The names [Object.prototype] defines.  Every plain object inherits
    them: [k in o] holds and [o[k]] is a function (or the prototype) even
    when the object has no such key of its own, and assigning to
    ['__proto__'] sets no key. *)
Definition inherited (k : string) : bool :=
  existsb (String.eqb k)
    ["constructor"; "__defineGetter__"; "__defineSetter__"; "hasOwnProperty";
     "__lookupGetter__"; "__lookupSetter__"; "isPrototypeOf";
     "propertyIsEnumerable"; "toString"; "valueOf"; "__proto__";
     "toLocaleString"].

(** A name that [Object.prototype] does not define: on an object it is
    looked up among the own keys only. *)
Definition ordinary (k : string) : bool := negb (inherited k).

(** [Array.from(new Set(keys))]: the first occurrence of every key, in
    order. *)
Fixpoint dedupe (seen keys : list string) : list string :=
  match keys with
  | [] => []
  | k :: rest =>
      if existsb (String.eqb k) seen then dedupe seen rest
      else k :: dedupe (k :: seen) rest
  end.

(* ================================================================== *)
(** * Stored values *)
(* ================================================================== *)

(** [item: any]: a row is an object of attributes. *)
Definition Row : Type := Obj JsVal.

(** [type IndexValue = { [key: string]: any }] *)
Definition IndexValue : Type := Obj JsVal.

(** One element of [type TableIndex = { value: any; ids: string[] }[]].
    The ids are what [item[table.keyPath]] was, uncoerced. *)
Module Group.

Record t : Type := Make { value : JsVal; ids : list JsVal }.

End Group.

Definition TableIndex : Type := list Group.t.

(** What a storage key can hold: a primitive ([SVal JUndefined] is
    [undefined], the result of reading an absent key), an object (a row, a
    row's index snapshot, a table's meta) or an array of index groups. *)
Inductive Stored : Type :=
| SVal (v : JsVal)
| SObj (o : Obj JsVal)
| SIndex (ix : TableIndex).

Definition undefined : Stored := SVal JUndefined.

(** [Boolean(x)] of a stored value; objects and arrays are truthy. *)
Definition stored_truthy (x : Stored) : bool :=
  match x with
  | SVal v => truthy v
  | SObj _ | SIndex _ => true
  end.

(** [x.name] of a stored value that is an object, for a name that is
    [ordinary]; the properties of a string or of an array stored in the
    place of a row are not modelled. *)
Definition stored_prop (x : Stored) (name : string) : JsVal :=
  match x with
  | SObj o => prop o name
  | _ => JUndefined
  end.

(** [{...x}] of a stored value that is an object, or a number, a boolean
    or nothing, which spread to no entry.  (A string or an array stored in
    the place of a meta record would spread to its elements.) *)
Definition spread (x : Stored) : Obj JsVal :=
  match x with
  | SObj o => o
  | _ => []
  end.

(** [let o: IndexValue | undefined = x; if (!o) o = {}], for what the
    module writes under a snapshot key: an object, or nothing.  (On a
    truthy value of another kind the loops of [setItem] throw a
    [TypeError] or run over its elements.) *)
Definition as_object (x : Stored) : Obj JsVal :=
  match x with
  | SObj o => o
  | _ => []
  end.

(** [let index = x as TableIndex | undefined; if (!index) index = []],
    for what the module writes under an index key: an array of groups, or
    nothing.  (On a truthy value of another kind [index.map] and
    [index.find] throw a [TypeError].) *)
Definition as_index (x : Stored) : TableIndex :=
  match x with
  | SIndex ix => ix
  | _ => []
  end.

(* ================================================================== *)
(** * Exceptions *)
(* ================================================================== *)

(** What a call can throw: the [URIError] of [decodeURIComponent], the
    [Error] of [selectTable], or whatever a callback of the environment
    ([getSince], [isItemDeleted], a transaction body) raises. *)
Inductive Error : Type :=
| URIError
| TableNotFound (key : string)
| Raised (what : string).

(** The result of a call that can throw. *)
Inductive Outcome (A : Type) : Type :=
| Returned (a : A)
| Threw (e : Error).

Arguments Returned {A} a.
Arguments Threw {A} e.

(* ================================================================== *)
(** * [MemoryStorage] *)
(* ================================================================== *)

Module MemoryStorage.

(** The three fields of the class.  [fallback] is the storage this one is
    layered on; it is [None] for a storage that stands alone. *)
#[local] Unset Elimination Schemes.
Inductive t : Type :=
| Make (state : Obj Stored) (pendingKeys : list string) (fallback : option t).
#[local] Set Elimination Schemes.

Definition state (this : t) : Obj Stored :=
  match this with Make s _ _ => s end.
Definition pendingKeys (this : t) : list string :=
  match this with Make _ p _ => p end.
Definition fallback (this : t) : option t :=
  match this with Make _ _ f => f end.

(** [new MemoryStorage(fallback)] *)
Definition new (fallback : option t) : t := Make [] [] fallback.

(** [this.state[key]], for a key that is [ordinary] (for another key the
    object gives the member it inherits when it holds none of its own). *)
Definition read (state : Obj Stored) (key : string) : Stored :=
  match obj_get state key with Some v => v | None => undefined end.

(** [getItem]: an own entry wins; otherwise the fallback is read and the
    value found, even [undefined], is cached in [state].  The test
    [this.state.hasOwnProperty(key)] is the inherited method as long as no
    key [hasOwnProperty] is stored ([tidy]). *)
Fixpoint getItem (this : t) (key : string) {struct this} : Stored * t :=
  match this with
  | Make state pending None => (read state key, this)
  | Make state pending (Some fb) =>
      if obj_has state key then (read state key, this)
      else
        let '(value, fb') := getItem fb key in
        (value, Make (obj_set key value state) pending (Some fb'))
  end.

(** [setItem]: [this.state[key] = value] makes [key] an own key (for
    every key but ['__proto__']), and an overlay notes the key. *)
Definition setItem (this : t) (key : string) (value : Stored) : t :=
  match this with
  | Make state pending None => Make (obj_set key value state) pending None
  | Make state pending (Some fb) =>
      Make (obj_set key value state) (pending ++ [key]) (Some fb)
  end.

(** [removeItem] also removes the key from the fallback, at once. *)
Fixpoint removeItem (this : t) (key : string) {struct this} : t :=
  match this with
  | Make state pending None => Make (obj_delete key state) pending None
  | Make state pending (Some fb) =>
      Make (obj_delete key state) (pending ++ [key])
           (Some (removeItem fb key))
  end.

(** [getAllKeys]: the keys of the fallback, then [Object.keys(this.state)],
    each key once. *)
Fixpoint getAllKeys (this : t) : list string :=
  match this with
  | Make state _ None => dedupe [] (obj_keys state)
  | Make state _ (Some fb) => dedupe [] (getAllKeys fb ++ obj_keys state)
  end.

Definition clear (this : t) : t :=
  match this with Make _ _ fb => Make [] [] fb end.

(** One step of the replay in [commit]; [this.state.hasOwnProperty] is
    the inherited method in a storage that is [tidy]. *)
Definition flush (state : Obj Stored) (fb : t) (key : string) : t :=
  if obj_has state key then setItem fb key (read state key)
  else removeItem fb key.

Definition commit (this : t) : t :=
  match this with
  | Make state pending None => this
  | Make state pending (Some fb) =>
      Make state [] (Some (fold_left (flush state) pending fb))
  end.

(** [transaction(fn)]: [fn] runs on a fresh child of [this]; the child is
    committed when [fn] returns and cleared when it throws.  What is
    left of [this] afterwards is the child's fallback, with everything the
    child did to it. *)
Definition transaction (this : t) (fn : t -> Outcome unit * t)
  : Outcome unit * t :=
  let trx := new (Some this) in
  match fn trx with
  | (Returned _, trx') =>
      (Returned tt,
       match fallback (commit trx') with Some fb => fb | None => this end)
  | (Threw e, trx') =>
      (Threw e,
       match fallback (clear trx') with Some fb => fb | None => this end)
  end.

End MemoryStorage.

(* ================================================================== *)
(** * Code running against a storage *)
(* ================================================================== *)

(** A computation that reads and writes a storage and may throw.  The
    storage that comes back with [Threw] is the storage as the exception
    left it. *)
Definition Action (A : Type) : Type :=
  MemoryStorage.t -> Outcome A * MemoryStorage.t.

Definition ret {A} (a : A) : Action A := fun s => (Returned a, s).

Definition throw {A} (e : Error) : Action A := fun s => (Threw e, s).

Definition bind {A B} (m : Action A) (k : A -> Action B) : Action B :=
  fun s =>
    match m s with
    | (Returned a, s') => k a s'
    | (Threw e, s') => (Threw e, s')
    end.

Declare Scope action_scope.
Delimit Scope action_scope with action.
Notation "x <- m ;; k" := (bind m (fun x => k))
  (at level 61, m at next level, right associativity) : action_scope.
Notation "m ;; k" := (bind m (fun _ => k))
  (at level 61, right associativity) : action_scope.
Open Scope action_scope.

(** The result of a callback of the environment, which touches no
    storage. *)
Definition call {A} (r : Outcome A) : Action A := fun s => (r, s).

(** [for (let x of xs) await body(x)] *)
Fixpoint for_each {A} (xs : list A) (body : A -> Action unit) : Action unit :=
  match xs with
  | [] => ret tt
  | x :: rest => body x ;; for_each rest body
  end.

(** [await Promise.all(xs.map(f))]: one call for every element, made in
    the order of [xs].  A call that throws stops none of the others; they
    all run to their end.  The result is the list of what the calls
    return, or an error when one of them throws: the error of the first
    call of the list that throws (in the sources, of the call that throws
    first in time). *)
Fixpoint map_all {A B} (xs : list A) (f : A -> Action B) : Action (list B) :=
  match xs with
  | [] => ret []
  | x :: rest =>
      fun s =>
        let '(r, s1) := f x s in
        let '(rs, s2) := map_all rest f s1 in
        (match r, rs with
         | Returned y, Returned ys => Returned (y :: ys)
         | Threw e, _ => Threw e
         | Returned _, Threw e => Threw e
         end, s2)
  end.

(** The methods of [MemoryStorage] as actions on the storage at hand,
    which is [trx] inside a transaction and [this.storage] outside. *)
Module Storage.

Definition getItem (key : string) : Action Stored :=
  fun s => let '(v, s') := MemoryStorage.getItem s key in (Returned v, s').

Definition setItem (key : string) (v : Stored) : Action unit :=
  fun s => (Returned tt, MemoryStorage.setItem s key v).

Definition removeItem (key : string) : Action unit :=
  fun s => (Returned tt, MemoryStorage.removeItem s key).

Definition getAllKeys : Action (list string) :=
  fun s => (Returned (MemoryStorage.getAllKeys s), s).

Definition transaction (fn : Action unit) : Action unit :=
  fun s => MemoryStorage.transaction s fn.

(** Inside a transaction the storage at hand is the child [trx], and
    [this.storage] of the database is the child's fallback: [outer m]
    runs [m] there. *)
Definition outer {A} (m : Action A) : Action A :=
  fun trx =>
    match trx with
    | MemoryStorage.Make state pending (Some fb) =>
        let '(r, fb') := m fb in
        (r, MemoryStorage.Make state pending (Some fb'))
    | MemoryStorage.Make _ _ None => m trx
    end.

End Storage.

(* ================================================================== *)
(** * [encodeURIComponent] and [decodeURIComponent] *)
(* ================================================================== *)

(** A string is the sequence of the bytes of its UTF-8 form, so that
    [encodeURIComponent] works byte by byte. *)

Definition in_range (lo hi n : N) : bool := (N.leb lo n && N.leb n hi)%bool.

(** The characters [encodeURIComponent] leaves alone:
    [A-Z a-z 0-9 - _ . ! ~ * ' ( )]. *)
Definition unreserved (c : ascii) : bool :=
  let n := N_of_ascii c in
  (in_range 65 90 n || in_range 97 122 n || in_range 48 57 n
   || existsb (N.eqb n) [45; 95; 46; 33; 126; 42; 39; 40; 41]%N)%bool.

Definition hex_digit (n : N) : ascii :=
  if N.ltb n 10 then ascii_of_N (48 + n) else ascii_of_N (55 + n).

Definition hex_value (c : ascii) : option N :=
  let n := N_of_ascii c in
  if in_range 48 57 n then Some (n - 48)%N
  else if in_range 65 70 n then Some (n - 55)%N
  else if in_range 97 102 n then Some (n - 87)%N
  else None.

Definition percent : ascii := "%"%char.

Definition encode_char (c : ascii) : string :=
  if unreserved c then String c ""
  else
    let n := N_of_ascii c in
    String percent (String (hex_digit (n / 16)) (String (hex_digit (n mod 16)) "")).

Fixpoint encodeURIComponent (s : string) : string :=
  match s with
  | EmptyString => ""
  | String c rest => encode_char c ++ encodeURIComponent rest
  end.

(** The input of [decodeURIComponent] cut into literal characters and
    escapes [%XX]. *)
Inductive Token : Type :=
| Lit (c : ascii)
| Esc (b : N).

Fixpoint tokens (s : string) : option (list Token) :=
  match s with
  | EmptyString => Some []
  | String c rest =>
      if Ascii.eqb c percent then
        match rest with
        | String h1 (String h2 rest') =>
            match hex_value h1, hex_value h2, tokens rest' with
            | Some a, Some b, Some ts => Some (Esc (16 * a + b) :: ts)
            | _, _, _ => None
            end
        | _ => None
        end
      else
        match tokens rest with
        | Some ts => Some (Lit c :: ts)
        | None => None
        end
  end.

Definition continuation (b : N) : bool := in_range 128 191 b.

(** The escapes have to spell well-formed UTF-8: an escape below 0x80
    stands alone, a leading byte is followed by the escapes of its
    continuation bytes. *)
Fixpoint decode_tokens (ts : list Token) : option string :=
  match ts with
  | [] => Some ""
  | Lit c :: rest => option_map (String c) (decode_tokens rest)
  | Esc b :: rest =>
      if N.ltb b 128 then
        option_map (String (ascii_of_N b)) (decode_tokens rest)
      else if in_range 194 223 b then
        match rest with
        | Esc b1 :: rest' =>
            if continuation b1 then
              option_map
                (fun s => String (ascii_of_N b) (String (ascii_of_N b1) s))
                (decode_tokens rest')
            else None
        | _ => None
        end
      else if in_range 224 239 b then
        match rest with
        | Esc b1 :: Esc b2 :: rest' =>
            if (in_range (if N.eqb b 224 then 160 else 128)
                         (if N.eqb b 237 then 159 else 191) b1
                && continuation b2)%bool then
              option_map
                (fun s => String (ascii_of_N b) (String (ascii_of_N b1)
                            (String (ascii_of_N b2) s)))
                (decode_tokens rest')
            else None
        | _ => None
        end
      else if in_range 240 244 b then
        match rest with
        | Esc b1 :: Esc b2 :: Esc b3 :: rest' =>
            if (in_range (if N.eqb b 240 then 144 else 128)
                         (if N.eqb b 244 then 143 else 191) b1
                && continuation b2 && continuation b3)%bool then
              option_map
                (fun s => String (ascii_of_N b) (String (ascii_of_N b1)
                            (String (ascii_of_N b2) (String (ascii_of_N b3) s))))
                (decode_tokens rest')
            else None
        | _ => None
        end
      else None
  end.

(** [decodeURIComponent(s)]; [None] is the [URIError] it throws on a
    malformed escape. *)
Definition decodeURIComponent (s : string) : option string :=
  match tokens s with
  | Some ts => decode_tokens ts
  | None => None
  end.

(** [xs.map(decodeURIComponent)] on uncoerced values. *)
Fixpoint decode_all (xs : list JsVal) : option (list string) :=
  match xs with
  | [] => Some []
  | x :: rest =>
      match decodeURIComponent (to_string x), decode_all rest with
      | Some s, Some ss => Some (s :: ss)
      | _, _ => None
      end
  end.

(* ================================================================== *)
(** * Strings *)
(* ================================================================== *)

(** [s.startsWith(p)] *)
Definition startsWith (s p : string) : bool := String.prefix p s.

(** [s.slice(n)] *)
Fixpoint drop (n : nat) (s : string) : string :=
  match n, s with
  | O, _ => s
  | S n', String _ rest => drop n' rest
  | S _, EmptyString => ""
  end.

(** [s.replace(pat, '')] with a string pattern: the first occurrence of
    [pat] goes. *)
Fixpoint remove_first (pat s : string) : string :=
  if String.prefix pat s then drop (String.length pat) s
  else
    match s with
    | EmptyString => ""
    | String c rest => String c (remove_first pat rest)
    end.

(** [s.split('/')] *)
Fixpoint split_slash (s : string) : list string :=
  match s with
  | EmptyString => [""]
  | String c rest =>
      if Ascii.eqb c "/"%char then "" :: split_slash rest
      else
        match split_slash rest with
        | [] => [String c ""]
        | piece :: pieces => String c piece :: pieces
        end
  end.

(* ================================================================== *)
(** * Tables *)
(* ================================================================== *)

(** [string | ((row: any) => any)] *)
Inductive IndexDef : Type :=
| ByColumn (columnName : string)
| ByFunction (f : Obj JsVal -> JsVal).

Module Table.

(** The fields of [class Table] set from a [TableDef].  [getSince] gets
    the value the [Date] was built from, or [None] for [null];
    [isItemDeleted] gives the truth value of what the callback returns.
    Both may throw. *)
Record t : Type := Make {
  key : string;
  keyPath : string;
  indexes : Obj IndexDef;
  getSince : option JsVal -> Outcome (list Row);
  isItemDeleted : Row -> Outcome bool;
  forceSync : bool
}.

End Table.

Module storageKey.

Definition table (key : string) : string := encodeURIComponent key.

Definition tableMeta (key : string) : string := table key ++ "/meta".

Definition rows (key : string) : string := table key ++ "/rows".

Definition row (key : string) (id : JsVal) : string :=
  rows key ++ "/" ++ encodeURIComponent (to_string id).

Definition rowIndex (key : string) (id : JsVal) : string :=
  table key ++ "/rows/" ++ encodeURIComponent (to_string id) ++ "/indexes".

Definition index (key : string) (indexName : string) : string :=
  table key ++ "/indexes/" ++ encodeURIComponent indexName.

End storageKey.

(* ================================================================== *)
(** * Filters and pagination *)
(* ================================================================== *)

(** A value of the [filter] object: a literal, or a function (with the
    reference and source text it has as a value, and its truth value on an
    argument). *)
Inductive FilterValue : Type :=
| Literal (v : JsVal)
| Predicate (r : nat) (src : string) (p : JsVal -> bool).

Definition Filter : Type := Obj FilterValue.

Definition filter_value (fv : FilterValue) : JsVal :=
  match fv with
  | Literal v => v
  | Predicate r src _ => JRef r src
  end.

(** [filter[name]] *)
Definition filter_prop (filter : Filter) (name : string) : JsVal :=
  match obj_get filter name with
  | Some fv => filter_value fv
  | None => JUndefined
  end.

(** The filter as the object an index function is applied to. *)
Definition filter_object (filter : Filter) : Obj JsVal :=
  map (fun kv => (fst kv, filter_value (snd kv))) filter.

(** [type PaginationProps = { limit?: number; offset?: number }] *)
Record PaginationProps : Type := MkPagination {
  limit : option Z;
  offset : option Z
}.

(** [Number(offset)] *)
Definition Number (x : option Z) : JsVal :=
  match x with
  | Some z => JNum z
  | None => JNaN
  end.

(** [n--] *)
Definition decrement (n : JsVal) : JsVal :=
  match n with
  | JNum z => JNum (z - 1)
  | _ => JNaN
  end.

(** [limit && result.length >= limit] *)
Definition limit_reached (limit : option Z) (result : list Stored) : bool :=
  match limit with
  | Some n => (negb (Z.eqb n 0) && Z.leb n (Z.of_nat (List.length result)))%bool
  | None => false
  end.

(** What [queryTable] returns: the rows, with [indexes] assigned onto the
    array. *)
Record QueryResult : Type := MkResult {
  result_rows : list Stored;
  result_indexes : list string
}.

(* ================================================================== *)
(** * [Database] *)
(* ================================================================== *)

Module Database.

(** [this.tables]; [this.storage] is the storage the actions run on, and
    the flag [syncing], which nothing reads back, is left out. *)
Definition t : Type := list Table.t.

Definition transaction (action : Action unit) : Action unit :=
  Storage.transaction action.

Definition setTableMeta (table : Table.t) (meta : Stored) : Action unit :=
  let metaKey := storageKey.tableMeta (Table.key table) in
  Storage.setItem metaKey meta.

Definition getTableMeta (table : Table.t) : Action Stored :=
  let metaKey := storageKey.tableMeta (Table.key table) in
  meta <- Storage.getItem metaKey ;;
  if stored_truthy meta then ret meta
  else
    let meta := SObj [("lastSync", JNull)] in
    setTableMeta table meta ;;
    ret meta.

Definition recalculateIndexes (table : Table.t) (item : Row) : IndexValue :=
  obj_from_entries
    (map (fun entry =>
            let value :=
              match snd entry with
              | ByFunction columnName => columnName item
              | ByColumn columnName => prop item columnName
              end in
            (fst entry, value))
         (Table.indexes table)).

(** [group.ids.filter(i => i !== id)] in the groups whose value is
    [remove]. *)
Definition strip (remove id : JsVal) (group : Group.t) : Group.t :=
  if negb (strict_eq (Group.value group) remove) then group
  else Group.Make (Group.value group)
               (filter (fun i => negb (strict_eq i id)) (Group.ids group)).

(** [[...group.ids, id]] in the groups whose value is [add]. *)
Definition append (add id : JsVal) (group : Group.t) : Group.t :=
  if negb (strict_eq (Group.value group) add) then group
  else Group.Make (Group.value group) (Group.ids group ++ [id]).

(** [deleteItem], for index names that are [ordinary] and a storage that
    is [shaped]: [removeFrom[indexName]] is then an own value of the
    snapshot or [undefined], and what lies under the key of an index is an
    array or nothing. *)
Definition deleteItem (table : Table.t) (id : JsVal) : Action unit :=
  let indexesKey := storageKey.rowIndex (Table.key table) id in
  let rowKey := storageKey.row (Table.key table) id in
  snapshot <- Storage.getItem indexesKey ;;
  let removeFrom := as_object snapshot in
  for_each (obj_keys (Table.indexes table)) (fun indexName =>
    let remove := prop removeFrom indexName in
    let indexKey := storageKey.index (Table.key table) indexName in
    stored <- Storage.getItem indexKey ;;
    let index := as_index stored in
    let index :=
      if negb (is_undefined remove) then map (strip remove id) index
      else index in
    Storage.setItem indexKey (SIndex index)) ;;
  Storage.removeItem rowKey ;;
  Storage.removeItem indexesKey.

(** The loop [for (let key in oldIndexes)] that fills [removeFrom]; the
    keys of the snapshot are [ordinary], so [key in newIndexes] asks for
    an own key and the assignment sets one. *)
Definition removals (oldIndexes newIndexes : IndexValue) : IndexValue :=
  fold_left
    (fun removeFrom key =>
       if (negb (obj_has newIndexes key)
           || negb (strict_eq (prop oldIndexes key) (prop newIndexes key)))%bool
       then obj_set key (prop oldIndexes key) removeFrom
       else removeFrom)
    (obj_keys oldIndexes) [].

(** The loop [for (let key in newIndexes)] that fills [updateTo]; the
    keys are the index names of the table, which are [ordinary]. *)
Definition updates (oldIndexes newIndexes : IndexValue) : IndexValue :=
  fold_left
    (fun updateTo key =>
       if (negb (is_undefined (prop newIndexes key))
           && (negb (obj_has oldIndexes key)
               || negb (strict_eq (prop oldIndexes key) (prop newIndexes key))))%bool
       then obj_set key (prop newIndexes key) updateTo
       else updateTo)
    (obj_keys newIndexes) [].

(** The body of the loop over [Object.keys(table.indexes)] in [setItem],
    from the index read to the index written. *)
Definition reindex (remove add id : JsVal) (index : TableIndex) : TableIndex :=
  let index :=
    if negb (is_undefined remove) then map (strip remove id) index
    else index in
  if negb (is_undefined add) then
    let found := existsb (fun group => strict_eq (Group.value group) add) index in
    let index := map (append add id) index in
    if negb found then (index ++ [Group.Make add [id]])%list else index
  else index.

(** [setItem], for a table whose names are [ordinary] and a storage that
    is [shaped]: [indexName in removeFrom], [indexName in updateTo] and the
    two lookups that follow then see own keys only. *)
Definition setItem (table : Table.t) (item : Row) : Action unit :=
  deleted <- call (Table.isItemDeleted table item) ;;
  if deleted then deleteItem table (prop item (Table.keyPath table))
  else
    let id := prop item (Table.keyPath table) in
    let itemKey := storageKey.row (Table.key table) id in
    let indexesKey := storageKey.rowIndex (Table.key table) id in
    snapshot <- Storage.getItem indexesKey ;;
    let oldIndexes := as_object snapshot in
    Storage.setItem itemKey (SObj item) ;;
    let newIndexes := recalculateIndexes table item in
    let removeFrom := removals oldIndexes newIndexes in
    let updateTo := updates oldIndexes newIndexes in
    Storage.setItem indexesKey (SObj newIndexes) ;;
    for_each (obj_keys (Table.indexes table)) (fun indexName =>
      if (negb (obj_has removeFrom indexName)
          && negb (obj_has updateTo indexName))%bool
      then ret tt
      else
        let indexKey := storageKey.index (Table.key table) indexName in
        stored <- Storage.getItem indexKey ;;
        let index := as_index stored in
        let remove := prop removeFrom indexName in
        let add := prop updateTo indexName in
        Storage.setItem indexKey (SIndex (reindex remove add id index))).

Definition clearTable (table : Table.t) : Action unit :=
  keys <- Storage.outer Storage.getAllKeys ;;
  let ids := filter (fun key => startsWith key (Table.key table)) keys in
  for_each ids Storage.removeItem.

(** [meta.lastSync && !table.forceSync ? new Date(meta.lastSync) : null] *)
Definition since_of (table : Table.t) (meta : Stored) : option JsVal :=
  if (truthy (stored_prop meta "lastSync") && negb (Table.forceSync table))%bool
  then Some (stored_prop meta "lastSync")
  else None.

(** [now] is what [new Date().toISOString()] gives when the table is
    merged.  The function returned is run later, inside the transaction of
    [sync]: its [trx] is the storage at hand, and [this.storage] is
    reached with [Storage.outer]. *)
Definition mergeTable (now : string) (table : Table.t) (updatedItems : list Row)
  : Action (Action unit) :=
  meta <- getTableMeta table ;;
  ret ((if Table.forceSync table then clearTable table else ret tt) ;;
       for_each updatedItems (setItem table) ;;
       Storage.outer
         (setTableMeta table
            (SObj (obj_set "lastSync" (JStr now) (spread meta))))).

Definition syncTable (now : string) (table : Table.t) : Action (Action unit) :=
  meta <- getTableMeta table ;;
  let since := since_of table meta in
  data <- call (Table.getSince table since) ;;
  let updatedItems := ([] ++ data)%list in
  mergeTable now table updatedItems.

(** The first half of [sync]: one [syncTable] per table, up to the
    transaction.  The sources start them together; they are run here in
    the order of registration.  Each call reads and writes the meta key of
    its table only, so the order makes no difference to what the store
    holds when they have all ended. *)
Definition fetch (now : string) (tables : t) : Action (list (Action unit)) :=
  map_all tables (syncTable now).

Definition sync (now : string) (tables : t) : Action unit :=
  commitFunctions <- fetch now tables ;;
  transaction (for_each commitFunctions (fun fn => fn)).

Definition selectTable (tables : t) (key : string) : Action Table.t :=
  match find (fun table => String.eqb (Table.key table) key) tables with
  | Some table => ret table
  | None => throw (TableNotFound key)
  end.

(** [ids = groupIds] when there are no ids yet, and
    [ids.filter(id => groupIds.includes(id))] otherwise. *)
Definition intersect (ids : option (list JsVal)) (groupIds : list string)
  : list JsVal :=
  match ids with
  | None => map JStr groupIds
  | Some ids =>
      filter (fun id => existsb (fun g => same_value_zero (JStr g) id) groupIds)
             ids
  end.

(** [indexes.push(indexKey)], [group.ids.map(decodeURIComponent)] and the
    intersection, once a group is found. *)
Definition use_group (ids : option (list JsVal)) (indexes : list string)
    (indexKey : string) (group : Group.t)
  : Action (option (list JsVal) * list string) :=
  match decode_all (Group.ids group) with
  | None => throw URIError
  | Some groupIds => ret (Some (intersect ids groupIds), (indexes ++ [indexKey])%list)
  end.

(** The first loop of [queryTable], over the function indexes. *)
Fixpoint function_indexes (table : Table.t) (filter : Filter)
    (entries : list (string * IndexDef))
    (ids : option (list JsVal)) (indexes : list string)
  : Action (option (list JsVal) * list string) :=
  match entries with
  | [] => ret (ids, indexes)
  | (indexName, ByColumn _) :: rest =>
      function_indexes table filter rest ids indexes
  | (indexName, ByFunction indexFactory) :: rest =>
      let indexKey := storageKey.index (Table.key table) indexName in
      stored <- Storage.getItem indexKey ;;
      let index := as_index stored in
      let indexValue := indexFactory (filter_object filter) in
      if is_undefined indexValue then
        function_indexes table filter rest ids indexes
      else
        match find (fun group => strict_eq (Group.value group) indexValue) index with
        | None => function_indexes table filter rest ids indexes
        | Some group =>
            found <- use_group ids indexes indexKey group ;;
            function_indexes table filter rest (fst found) (snd found)
        end
  end.

(** The name of the first column index on [name]. *)
Definition column_index (table : Table.t) (name : string) : option string :=
  option_map fst
    (find (fun entry =>
             match snd entry with
             | ByColumn columnName => String.eqb columnName name
             | ByFunction _ => false
             end)
          (filter (fun entry =>
                     match snd entry with
                     | ByColumn _ => true
                     | ByFunction _ => false
                     end)
                  (Table.indexes table))).

(** The group a filter value selects in an index. *)
Definition find_group (v : FilterValue) (index : TableIndex) : option Group.t :=
  match v with
  | Predicate _ _ p => find (fun group => p (Group.value group)) index
  | Literal v => find (fun group => strict_eq (Group.value group) v) index
  end.

(** The variables [ids], [indexes] and [scanFilters] of [queryTable]. *)
Record Plan : Type := MkPlan {
  plan_ids : option (list JsVal);
  plan_indexes : list string;
  scanFilters : Filter
}.

(** The second loop of [queryTable], over the entries of the filter.
    ([scanFilters[name] = value] sets an entry for every name but
    ['__proto__'].) *)
Fixpoint column_indexes (table : Table.t) (entries : list (string * FilterValue))
    (plan : Plan) : Action Plan :=
  match entries with
  | [] => ret plan
  | (name, v) :: rest =>
      let unindexed :=
        MkPlan (plan_ids plan) (plan_indexes plan)
               (obj_set name v (scanFilters plan)) in
      match column_index table name with
      | None => column_indexes table rest unindexed
      | Some indexName =>
          if String.eqb indexName "" then column_indexes table rest unindexed
          else
            let indexKey := storageKey.index (Table.key table) indexName in
            stored <- Storage.getItem indexKey ;;
            let index := as_index stored in
            match find_group v index with
            | None => column_indexes table rest unindexed
            | Some group =>
                found <- use_group (plan_ids plan) (plan_indexes plan)
                                   indexKey group ;;
                column_indexes table rest
                  (MkPlan (fst found) (snd found) (scanFilters plan))
            end
      end
  end.

(** What the full scan makes of one key that starts with [rowsKeys]:
    [None] is the [URIError], [Some None] is [undefined]. *)
Definition scanned_id (rowsKeys key : string) : option (option string) :=
  let pieces := tl (split_slash (remove_first rowsKeys key)) in
  let id := nth_error pieces 0 in
  let index := nth_error pieces 1 in
  match index with
  | Some (String _ _) => Some None
  | _ =>
      match decodeURIComponent
              (match id with Some id => id | None => to_string JUndefined end)
      with
      | Some id => Some (Some id)
      | None => None
      end
  end.

(** [.map(key => ...).filter(Boolean)] of the full scan. *)
Fixpoint scanned_ids (rowsKeys : string) (keys : list string)
  : option (list JsVal) :=
  match keys with
  | [] => Some []
  | key :: rest =>
      match scanned_id rowsKeys key, scanned_ids rowsKeys rest with
      | Some (Some id), Some ids =>
          Some (if truthy (JStr id) then JStr id :: ids else ids)
      | Some None, Some ids => Some ids
      | _, _ => None
      end
  end.

(** Does the row pass every entry of [scanFilters]? *)
Definition matches (scanFilters : Filter) (row : Stored) : bool :=
  forallb (fun entry =>
             match snd entry with
             | Predicate _ _ p => p (stored_prop row (fst entry))
             | Literal v => strict_eq (stored_prop row (fst entry)) v
             end)
          scanFilters.

(** The last loop of [queryTable].  Besides [result] it gives back the
    ids it has not come to, which are all of the remaining ones after a
    [break] and none otherwise. *)
Fixpoint collect (table : Table.t) (scanFilters : Filter) (limit : option Z)
    (ids : list JsVal) (offsetRemaining : JsVal) (result : list Stored)
  : Action (list Stored * list JsVal) :=
  match ids with
  | [] => ret (result, [])
  | id :: rest =>
      row <- Storage.getItem (storageKey.row (Table.key table) id) ;;
      if negb (stored_truthy row) then
        collect table scanFilters limit rest offsetRemaining result
      else if matches scanFilters row then
        if truthy offsetRemaining then
          collect table scanFilters limit rest (decrement offsetRemaining) result
        else
          let result := (result ++ [row])%list in
          if limit_reached limit result then ret (result, rest)
          else collect table scanFilters limit rest offsetRemaining result
      else collect table scanFilters limit rest offsetRemaining result
  end.

(** [filter[table.keyPath] ? [filter[table.keyPath]] : null] *)
Definition seed (table : Table.t) (filter : Filter) : option (list JsVal) :=
  if truthy (filter_prop filter (Table.keyPath table))
  then Some [filter_prop filter (Table.keyPath table)]
  else None.

(** [queryTable] up to the last loop: the ids to visit, the index keys
    used and the filters left for the scan. *)
Definition plan (table : Table.t) (filter : Filter) : Action Plan :=
  let rowsKeys := storageKey.rows (Table.key table) in
  let ids := seed table filter in
  found <- function_indexes table filter (Table.indexes table) ids [] ;;
  p <- column_indexes table filter (MkPlan (fst found) (snd found) []) ;;
  match plan_ids p with
  | Some _ => ret p
  | None =>
      keys <- Storage.getAllKeys ;;
      match scanned_ids rowsKeys
              (List.filter (fun key => startsWith key rowsKeys) keys) with
      | None => throw URIError
      | Some ids => ret (MkPlan (Some ids) (plan_indexes p) (scanFilters p))
      end
  end.

Definition queryTable (table : Table.t) (filter : Filter)
    (paginationProps : PaginationProps) : Action QueryResult :=
  p <- plan table filter ;;
  let ids := match plan_ids p with Some ids => ids | None => [] end in
  let offsetRemaining := Number (offset paginationProps) in
  found <- collect table (scanFilters p) (limit paginationProps) ids
                   offsetRemaining [] ;;
  ret (MkResult (fst found) (plan_indexes p)).

Definition query (tables : t) (key : string) (filter : Filter)
    (paginationProps : PaginationProps) : Action QueryResult :=
  table <- selectTable tables key ;;
  queryTable table filter paginationProps.

(** [delete(key, filter)] *)
Definition delete (tables : t) (key : string) (filter : Filter) : Action unit :=
  table <- selectTable tables key ;;
  rows <- queryTable table filter (MkPagination None None) ;;
  transaction
    (for_each (result_rows rows) (fun row =>
       deleteItem table (stored_prop row (Table.keyPath table)))).

(** [clear()]: [this.storage.clear()]. *)
Definition clear : Action unit :=
  fun s => (Returned tt, MemoryStorage.clear s).

(** [Table.patch(item, trx)]: with [in_trx] the storage at hand is the
    [trx] that was passed; without, it is [this.storage] and a transaction
    is opened on it. *)
Definition patch (table : Table.t) (item : Row) (in_trx : bool) : Action unit :=
  if in_trx then setItem table item
  else transaction (setItem table item).

End Database.


(* ================================================================== *)
(** * Notions used in the statements *)
(* ================================================================== *)

(** The value [getItem] returns for a key. *)
Definition view (s : MemoryStorage.t) (key : string) : Stored :=
  fst (MemoryStorage.getItem s key).


(** A body of a transaction, or any other user of a storage, as the
    sequence of the calls it makes. *)
Inductive Op : Type :=
| OpGet (key : string)
| OpSet (key : string) (v : Stored)
| OpRemove (key : string)
| OpClear
| OpCommit.

Definition run_op (op : Op) : Action unit :=
  match op with
  | OpGet key => _ <- Storage.getItem key ;; ret tt
  | OpSet key v => Storage.setItem key v
  | OpRemove key => Storage.removeItem key
  | OpClear => fun s => (Returned tt, MemoryStorage.clear s)
  | OpCommit => fun s => (Returned tt, MemoryStorage.commit s)
  end.

(** [async trx => { ...ops; throw e }] *)
Definition failing (ops : list Op) (e : Error) : Action unit :=
  for_each ops run_op ;; throw e.

(** An operation that buffers: a read or a write, no removal. *)
Definition buffers (op : Op) : bool :=
  match op with
  | OpGet _ | OpSet _ _ => true
  | _ => false
  end.

(** The storage a sequence of calls leaves. *)
Definition after (ops : list Op) (s : MemoryStorage.t) : MemoryStorage.t :=
  snd (for_each ops run_op s).

(** Is [key] in the overlay's own [state] after one more call?  A read
    puts the key there like a write does. *)
Definition keeps (key : string) (held : bool) (op : Op) : bool :=
  match op with
  | OpGet k | OpSet k _ => (held || String.eqb k key)%bool
  | OpRemove k => (held && negb (String.eqb k key))%bool
  | OpClear => false
  | OpCommit => held
  end.

(** The keys a fresh overlay holds in its own [state] after [ops]: those
    it has set or read since its last [clear], less those it has removed
    since. *)
Definition kept (ops : list Op) (key : string) : bool :=
  fold_left (keeps key) ops false.

(** The same count with the reads left out: the keys the overlay has
    written and not removed. *)
Definition writes (key : string) (held : bool) (op : Op) : bool :=
  match op with
  | OpGet _ => held
  | _ => keeps key held op
  end.

Definition written (ops : list Op) (key : string) : bool :=
  fold_left (writes key) ops false.

(** A fresh overlay over an empty store, and a body that reads one key. *)
Definition ghost_overlay : MemoryStorage.t :=
  MemoryStorage.new (Some (MemoryStorage.new None)).

Definition ghost_read : list Op := [OpGet "ghost"].

(** The meta record [getTableMeta] creates. *)
Definition fresh_meta : Stored := SObj [("lastSync", JNull)].

(** The ordered match sequence of a query: the rows of the candidate ids
    that are stored and pass the scan filters, in the order of the ids. *)
Definition matching (table : Table.t) (scanFilters : Filter)
    (s : MemoryStorage.t) (ids : list JsVal) : list Stored :=
  flat_map
    (fun id =>
       let row := view s (storageKey.row (Table.key table) id) in
       if (stored_truthy row && Database.matches scanFilters row)%bool
       then [row] else [])
    ids.

(** The sub-range of the matches a pagination asks for, with a limit of
    zero read as no limit. *)
Definition paginate (limit : option Z) (skip : nat) (rows : list Stored)
  : list Stored :=
  match limit with
  | Some n => if Z.eqb n 0 then skipn skip rows
              else firstn (Z.to_nat n) (skipn skip rows)
  | None => skipn skip rows
  end.

(** The table of the tests. *)
Definition comments : Table.t :=
  Table.Make "comments" "id"
    [("primary", ByColumn "id"); ("enabled", ByColumn "active")]
    (fun _ => Returned []) (fun _ => Returned false) false.

(** A store with one row of [comments], and one with two rows whose ids
    are numbers. *)
Definition one_comment : MemoryStorage.t :=
  MemoryStorage.Make [("comments/rows/1", SObj [("id", JStr "1")])] [] None.

Definition numbered_comments : MemoryStorage.t :=
  MemoryStorage.Make
    [("comments/rows/0", SObj [("id", JNum 0)]);
     ("comments/rows/7", SObj [("id", JNum 7)])] [] None.

(** The number of matches an offset skips: [Number(offset)] counts down
    to zero, and [NaN], which no offset gives, skips nothing. *)
Definition skipped (offset : option Z) : nat :=
  match offset with
  | Some z => Z.to_nat z
  | None => 0
  end.

(** A limit or offset that is given is not negative. *)
Definition natural (x : option Z) : Prop :=
  match x with
  | Some z => (0 <= z)%Z
  | None => True
  end.

(** The candidate ids hold nothing but [v]. *)
Definition only (v : JsVal) (ids : option (list JsVal)) : Prop :=
  exists l, ids = Some l /\ forall id, In id l -> id = v.

(** Tables and stores the evaluations below run on.  [forced] is
    [comments] with [forceSync]; [comments2] has a key that begins with
    the key of [forced]; the deletion predicate of [posts] throws on the
    row its [getSince] delivers. *)
Definition forced : Table.t :=
  Table.Make "comments" "id" [("primary", ByColumn "id")]
    (fun _ => Returned []) (fun _ => Returned false) true.

Definition comments2 : Table.t :=
  Table.Make "comments2" "id" [("primary", ByColumn "id")]
    (fun _ => Returned []) (fun _ => Returned false) false.

Definition posts : Table.t :=
  Table.Make "posts" "id" [("primary", ByColumn "id")]
    (fun _ => Returned [[("id", JStr "9")]])
    (fun _ => Threw (Raised "bad row")) false.

Definition pages : Table.t :=
  Table.Make "pages" "id" [("byBook", ByColumn "bookId")]
    (fun _ => Returned []) (fun _ => Returned false) false.

(** A store in which [comments2] has one row, written by [patch]. *)
Definition comments2_store : MemoryStorage.t :=
  snd (Database.patch comments2 [("id", JStr "1")] false (MemoryStorage.new None)).

(** A store in which [comments] and [posts] have been synced before and
    [comments] has one row. *)
Definition synced_store : MemoryStorage.t :=
  snd (Database.patch forced [("id", JStr "1")] false
         (MemoryStorage.Make
            [("comments/meta", SObj [("lastSync", JStr "2020-01-01T00:00:00.000Z")]);
             ("posts/meta", SObj [("lastSync", JStr "2020-01-01T00:00:00.000Z")])]
            [] None)).

(** A page whose id holds a percent escape, and the store it is patched
    into. *)
Definition escaped_page : Row := [("id", JStr "a%20b"); ("bookId", JStr "123")].

Definition escaped_store : MemoryStorage.t :=
  snd (Database.patch pages escaped_page false (MemoryStorage.new None)).

(** A page whose indexed value is [NaN]. *)
Definition nan_page : Row := [("id", JStr "a"); ("bookId", JNaN)].

(** Does the string hold a path separator? *)
Fixpoint has_slash (s : string) : bool :=
  match s with
  | EmptyString => false
  | String c rest => (Ascii.eqb c "/"%char || has_slash rest)%bool
  end.

(** An action that returns and changes what is read under one key. *)
Definition rewrites (m : Action unit) (key : string) (U : Stored -> Stored)
  : Prop :=
  forall s, exists s',
    m s = (Returned tt, s')
    /\ forall k, view s' k = if String.eqb key k then U (view s k) else view s k.

(** An overlay whose own state agrees with its fallback wherever a flush
    will not overwrite the fallback: an entry that is not pending is a
    cached read, and a pending key without an entry is already gone from
    the fallback.  Every overlay is like this as long as nobody writes to
    its fallback behind its back. *)
Definition coherent (s : MemoryStorage.t) : Prop :=
  match s with
  | MemoryStorage.Make state pending (Some fb) =>
      forall k,
        (obj_has state k = true ->
         In k pending \/ MemoryStorage.read state k = view fb k)
        /\ (obj_has state k = false -> In k pending -> view fb k = undefined)
  | MemoryStorage.Make _ _ None => False
  end.

(** An action that keeps an overlay coherent. *)
Definition tame {A} (m : Action A) : Prop :=
  forall s, coherent s -> coherent (snd (m s)).

(** What [deleteItem] leaves under the key of an index: the id is taken
    out of the groups whose value is the one the snapshot records. *)
Definition unindexed (snapshot : IndexValue) (id : JsVal) (indexName : string)
    (x : Stored) : Stored :=
  SIndex (if negb (is_undefined (prop snapshot indexName))
          then map (Database.strip (prop snapshot indexName) id) (as_index x)
          else as_index x).

(** What [setItem] leaves under the key of an index. *)
Definition reindexed (oldIndexes newIndexes : IndexValue) (id : JsVal)
    (indexName : string) (x : Stored) : Stored :=
  if (negb (obj_has (Database.removals oldIndexes newIndexes) indexName)
      && negb (obj_has (Database.updates oldIndexes newIndexes) indexName))%bool
  then x
  else SIndex (Database.reindex
                 (prop (Database.removals oldIndexes newIndexes) indexName)
                 (prop (Database.updates oldIndexes newIndexes) indexName)
                 id (as_index x)).

(** The name among [names] whose index is stored under [k]. *)
Definition index_named (table : Table.t) (names : list string) (k : string)
  : option string :=
  find (fun n => String.eqb (storageKey.index (Table.key table) n) k) names.

(** The table of the test 'supports table queries': a row is deleted when
    its attribute [deleted] says so. *)
Definition tombstoned : Table.t :=
  Table.Make "comments" "id"
    [("primary", ByColumn "id"); ("enabled", ByColumn "active")]
    (fun _ => Returned [])
    (fun item => Returned (truthy (prop item "deleted"))) false.

Definition tombstone : Row := [("id", JStr "1"); ("deleted", JBool true)].

(** The calls of the index/row engine on a transaction. *)
Inductive Write : Type :=
| Put (item : Row)
| Delete (id : JsVal).

Definition write (table : Table.t) (w : Write) : Action unit :=
  match w with
  | Put item => Database.setItem table item
  | Delete id => Database.deleteItem table id
  end.

(** The storage after a sequence of calls; a call that throws leaves the
    storage as the exception left it and the sequence goes on. *)
Definition written_to (table : Table.t) (ws : list Write) (s : MemoryStorage.t)
  : MemoryStorage.t :=
  fold_left (fun s w => snd (write table w s)) ws s.

Definition is_str (v : JsVal) : bool :=
  match v with JStr _ => true | _ => false end.

Definition is_nan (v : JsVal) : bool :=
  match v with JNaN => true | _ => false end.

(** A call whose row id is a string and whose index values are not [NaN]. *)
Definition plain (table : Table.t) (w : Write) : bool :=
  match w with
  | Put item =>
      (is_str (prop item (Table.keyPath table))
       && forallb (fun kv => negb (is_nan (snd kv)))
                  (Database.recalculateIndexes table item))%bool
  | Delete id => is_str id
  end.

(** The index stored for [indexName], and the value the snapshot of a row
    records for it. *)
Definition index_of (table : Table.t) (s : MemoryStorage.t) (indexName : string)
  : TableIndex :=
  as_index (view s (storageKey.index (Table.key table) indexName)).

Definition snapshot_value (table : Table.t) (s : MemoryStorage.t) (id : JsVal)
    (indexName : string) : JsVal :=
  prop (as_object (view s (storageKey.rowIndex (Table.key table) id))) indexName.

(** An id is in at most one group of the index. *)
Definition one_group_per_id (index : TableIndex) : Prop :=
  forall i j g1 g2 id,
    nth_error index i = Some g1 -> nth_error index j = Some g2 ->
    In id (Group.ids g1) -> In id (Group.ids g2) -> i = j.

(** No two groups of the index have strictly equal values. *)
Definition values_apart (index : TableIndex) : Prop :=
  forall i j g1 g2,
    nth_error index i = Some g1 -> nth_error index j = Some g2 ->
    strict_eq (Group.value g1) (Group.value g2) = true -> i = j.

(** The state of the indexes of a table that [setItem] and [deleteItem]
    keep: group values are defined and apart, and an id is in a group only
    if it is a string and the snapshot of its row records the value of the
    group. *)
Record indexed (table : Table.t) (s : MemoryStorage.t) : Prop := {
  indexed_apart :
    forall n, In n (obj_keys (Table.indexes table)) ->
      values_apart (index_of table s n);
  indexed_defined :
    forall n g, In n (obj_keys (Table.indexes table)) ->
      In g (index_of table s n) -> is_undefined (Group.value g) = false;
  indexed_members :
    forall n g id, In n (obj_keys (Table.indexes table)) ->
      In g (index_of table s n) -> In id (Group.ids g) ->
      is_str id = true
      /\ strict_eq (Group.value g) (snapshot_value table s id n) = true
}.

(** Two writes of [nan_page]. *)
Definition nan_page_twice : list Write := [Put nan_page; Put nan_page].

(** Is [n] a key of [removeFrom]? *)
Definition leaves (oldIndexes newIndexes : IndexValue) (n : string) : bool :=
  (obj_has oldIndexes n
   && (negb (obj_has newIndexes n)
       || negb (strict_eq (prop oldIndexes n) (prop newIndexes n))))%bool.

(** Is [n] a key of [updateTo]? *)
Definition enters (oldIndexes newIndexes : IndexValue) (n : string) : bool :=
  (obj_has newIndexes n
   && (negb (is_undefined (prop newIndexes n))
       && (negb (obj_has oldIndexes n)
           || negb (strict_eq (prop oldIndexes n) (prop newIndexes n)))))%bool.


(** The index after the first half of the loop body. *)
Definition stripped (remove id : JsVal) (index : TableIndex) : TableIndex :=
  if negb (is_undefined remove) then map (Database.strip remove id) index
  else index.


(** The store of the test 'supports transactions on MemoryStorage'. *)
Definition store_123 : MemoryStorage.t :=
  MemoryStorage.Make [("key", SVal (JNum 123))] [] None.


(** A comment whose indexed attribute is [NaN], the store it is written
    to, and the same comment marked as deleted. *)
Definition nan_comment : Row := [("id", JStr "1"); ("active", JNaN)].

Definition nan_comment_store : MemoryStorage.t :=
  snd (Database.patch tombstoned nan_comment false (MemoryStorage.new None)).

Definition nan_tombstone : Row :=
  [("id", JStr "1"); ("active", JNaN); ("deleted", JBool true)].

(** Three writes of pages whose ids, the number 1 and the string "1",
    share their storage keys. *)
Definition mixed_ids : list Write :=
  [Put [("id", JNum 1); ("bookId", JNum 5)];
   Put [("id", JStr "1"); ("bookId", JNum 6)];
   Put [("id", JNum 1); ("bookId", JNum 7)]].

(* ================================================================== *)
(** * The inputs the embedding covers *)
(* ================================================================== *)

(** A storage none of whose layers holds a key that [Object.prototype]
    names: its [state] objects are plain objects, on which
    [hasOwnProperty] is the inherited method and a key that is
    [ordinary] is found only if it was set. *)
Fixpoint tidy (s : MemoryStorage.t) : bool :=
  match s with
  | MemoryStorage.Make state _ None => forallb ordinary (obj_keys state)
  | MemoryStorage.Make state _ (Some fb) =>
      (forallb ordinary (obj_keys state) && tidy fb)%bool
  end.

(** A call whose key is [ordinary]. *)
Definition ordinary_op (op : Op) : bool :=
  match op with
  | OpGet key | OpSet key _ | OpRemove key => ordinary key
  | OpClear | OpCommit => true
  end.

(** A table whose key path, index names and indexed columns are
    [ordinary]: they are looked up in rows, snapshots and filters, and
    in the objects [removeFrom] and [updateTo] of [setItem]. *)
Definition ordinary_table (table : Table.t) : bool :=
  (ordinary (Table.keyPath table)
   && forallb (fun entry =>
                 (ordinary (fst entry)
                  && match snd entry with
                     | ByColumn columnName => ordinary columnName
                     | ByFunction _ => true
                     end)%bool)
              (Table.indexes table))%bool.

(** A stored value that is an object, or nothing ([undefined], or
    another falsy value). *)
Definition object_or_nothing (x : Stored) : bool :=
  match x with
  | SObj _ => true
  | SVal v => negb (truthy v)
  | SIndex _ => false
  end.

(** An object whose keys are [ordinary], or nothing. *)
Definition snapshot_or_nothing (x : Stored) : bool :=
  match x with
  | SObj o => forallb ordinary (obj_keys o)
  | SVal v => negb (truthy v)
  | SIndex _ => false
  end.

(** An array of groups, or nothing. *)
Definition array_or_nothing (x : Stored) : bool :=
  match x with
  | SIndex _ => true
  | SVal v => negb (truthy v)
  | SObj _ => false
  end.

(** Is the value of the kind [Database] writes under the key?  The keys
    of [storageKey] are told apart by their segments: [t/meta],
    [t/rows/id], [t/rows/id/indexes] and [t/indexes/name].  Any value goes
    under any other key. *)
Definition kind_ok (k : string) (x : Stored) : bool :=
  match split_slash k with
  | [_; kind] =>
      if String.eqb kind "meta" then object_or_nothing x else true
  | [_; kind; _] =>
      if String.eqb kind "rows" then object_or_nothing x
      else if String.eqb kind "indexes" then array_or_nothing x
      else true
  | [_; kind; _; last] =>
      if (String.eqb kind "rows" && String.eqb last "indexes")%bool
      then snapshot_or_nothing x
      else true
  | _ => true
  end.

(** A storage that holds, under every key of the key scheme, a value of
    the kind [Database] writes there. *)
Definition shaped (s : MemoryStorage.t) : Prop :=
  forall k, kind_ok k (view s k) = true.

(** Is [k] the meta key of a registered table for which the storage
    holds no truthy value? *)
Definition missing_meta (tables : Database.t) (s : MemoryStorage.t) (k : string)
  : bool :=
  (existsb (fun table => String.eqb (storageKey.tableMeta (Table.key table)) k)
           tables
   && negb (stored_truthy (view s k)))%bool.

(** Is there a positive limit that the matches fill, once [skip] of them
    are skipped? *)
Definition filled (limit : option Z) (skip : nat) (matches : nat) : bool :=
  match limit with
  | Some n => ((0 <? n)%Z && Nat.leb (skip + Z.to_nat n) matches)%bool
  | None => false
  end.

(** The table with another key path. *)
Definition with_keyPath (keyPath : string) (table : Table.t) : Table.t :=
  Table.Make (Table.key table) keyPath (Table.indexes table)
    (Table.getSince table) (Table.isItemDeleted table) (Table.forceSync table).

(** A literal that the filter gives for a column is compared and never
    called: in the plan it is among the scan filters, as the literal it
    is, or the index of the column is used and holds a group whose value
    is strictly equal to it. *)
Definition compared (table : Table.t) (s : MemoryStorage.t) (column : string)
    (v : JsVal) (p : Database.Plan) : Prop :=
  obj_get (Database.scanFilters p) column = Some (Literal v)
  \/ exists indexName group,
       Database.column_index table column = Some indexName
       /\ In (storageKey.index (Table.key table) indexName)
             (Database.plan_indexes p)
       /\ In group (index_of table s indexName)
       /\ strict_eq (Group.value group) v = true.


(** Two pages that are written, the first of which then moves to
    another book. *)
Definition moved_pages : list Write :=
  [Put [("id", JStr "a"); ("bookId", JStr "123")];
   Put [("id", JStr "b"); ("bookId", JStr "123")];
   Put [("id", JStr "a"); ("bookId", JStr "456")]].

(* ================================================================== *)
(** * More of [Database], and notions for what follows *)
(* ================================================================== *)

(** [hasTable(key)] *)
Definition hasTable (tables : Database.t) (key : string) : bool :=
  existsb (fun table => String.eqb (Table.key table) key) tables.

(** A call a transaction body makes on its [trx]: a read, a write or a
    removal. *)
Definition direct (op : Op) : bool :=
  match op with
  | OpGet _ | OpSet _ _ | OpRemove _ => true
  | _ => false
  end.

(** Is the string the UTF-8 form of a sequence of code points?  (The
    byte ranges are those of the Unicode standard, table 3-7.) *)
Fixpoint well_formed (s : string) : bool :=
  match s with
  | EmptyString => true
  | String c rest =>
      let b := N_of_ascii c in
      if N.ltb b 128 then well_formed rest
      else if in_range 194 223 b then
        match rest with
        | String c1 rest' =>
            (continuation (N_of_ascii c1) && well_formed rest')%bool
        | _ => false
        end
      else if in_range 224 239 b then
        match rest with
        | String c1 (String c2 rest') =>
            (in_range (if N.eqb b 224 then 160 else 128)
                      (if N.eqb b 237 then 159 else 191) (N_of_ascii c1)
             && continuation (N_of_ascii c2) && well_formed rest')%bool
        | _ => false
        end
      else if in_range 240 244 b then
        match rest with
        | String c1 (String c2 (String c3 rest')) =>
            (in_range (if N.eqb b 240 then 144 else 128)
                      (if N.eqb b 244 then 143 else 191) (N_of_ascii c1)
             && continuation (N_of_ascii c2) && continuation (N_of_ascii c3)
             && well_formed rest')%bool
        | _ => false
        end
      else false
  end.

(** The token [encodeURIComponent] leaves for a character. *)
Definition token_of (c : ascii) : Token :=
  if unreserved c then Lit c else Esc (N_of_ascii c).

Fixpoint tokens_of (s : string) : list Token :=
  match s with
  | EmptyString => []
  | String c rest => token_of c :: tokens_of rest
  end.

(** The id of the row a call writes or deletes. *)
Definition target (table : Table.t) (w : Write) : JsVal :=
  match w with
  | Put item => prop item (Table.keyPath table)
  | Delete id => id
  end.

(** Every index of the table reads a column, and none reads the key
    path. *)
Definition key_path_unindexed (table : Table.t) : bool :=
  forallb (fun entry =>
             match snd entry with
             | ByColumn columnName =>
                 negb (String.eqb columnName (Table.keyPath table))
             | ByFunction _ => false
             end)
          (Table.indexes table).

(** The filter [{ [table.keyPath]: id }]. *)
Definition by_id (table : Table.t) (id : JsVal) : Filter :=
  [(Table.keyPath table, Literal id)].





(** The meta record [getTableMeta] gives for a table. *)
Definition meta_of (key : string) (s : MemoryStorage.t) : Stored :=
  if stored_truthy (view s (storageKey.tableMeta key))
  then view s (storageKey.tableMeta key)
  else fresh_meta.

(** What [getSince] of the table gives at a sync of the storage. *)
Definition fetched (table : Table.t) (s : MemoryStorage.t) : Outcome (list Row) :=
  Table.getSince table (Database.since_of table (meta_of (Table.key table) s)).

Definition returns {A} (r : Outcome A) : bool :=
  match r with
  | Returned _ => true
  | Threw _ => false
  end.

(** The rows fetched, none when [getSince] throws. *)
Definition rows_of (r : Outcome (list Row)) : list Row :=
  match r with
  | Returned rows => rows
  | Threw _ => []
  end.


(** The meta record a sync at [now] leaves for a table. *)
Definition stamped (now : string) (key : string) (s : MemoryStorage.t) : Stored :=
  SObj (obj_set "lastSync" (JStr now) (spread (meta_of key s))).


(** The function [syncTable] returns for a table at a sync of the
    storage [s]. *)
Definition commitFunction (now : string) (table : Table.t) (s : MemoryStorage.t)
  : Action unit :=
  (if Table.forceSync table then Database.clearTable table else ret tt) ;;
  for_each (rows_of (fetched table s)) (Database.setItem table) ;;
  Storage.outer
    (Database.setTableMeta table (stamped now (Table.key table) s)).

(** The storage [s1] is [s] with the meta records some of the tables
    were missing. *)
Definition primed (tables : Database.t) (s s1 : MemoryStorage.t) : Prop :=
  forall k,
    view s1 k = view s k
    \/ (stored_truthy (view s k) = false
        /\ view s1 k = fresh_meta
        /\ exists table,
             In table tables /\ k = storageKey.tableMeta (Table.key table)).

(** Is the key the key of a meta record? *)
Definition is_meta (k : string) : Prop :=
  exists key, k = storageKey.tableMeta key.

(** A table whose source has one page. *)
Definition feed : Table.t :=
  Table.Make "pages" "id" [("byBook", ByColumn "bookId")]
    (fun _ => Returned [[("id", JStr "a"); ("bookId", JStr "123")]])
    (fun _ => Returned false) false.

(** [decodeURIComponent] gives the id back as it is. *)
Definition decodes (id : JsVal) : bool :=
  match decodeURIComponent (to_string id) with
  | Some s => String.eqb s (to_string id)
  | None => false
  end.

(** A call that is [plain] and, when it stores a row, has an id that
    [decodeURIComponent] gives back as it is. *)
Definition settled (table : Table.t) (w : Write) : bool :=
  (plain table w
   && match w with
      | Put item => decodes (prop item (Table.keyPath table))
      | Delete _ => true
      end)%bool.

(** The id is in the group of every index for which its snapshot records
    a value. *)
Definition listed (table : Table.t) (s : MemoryStorage.t) : Prop :=
  forall n id,
    In n (obj_keys (Table.indexes table)) ->
    is_str id = true ->
    is_undefined (snapshot_value table s id n) = false ->
    exists g,
      In g (index_of table s n)
      /\ strict_eq (Group.value g) (snapshot_value table s id n) = true
      /\ In id (Group.ids g).

(** Under a string id there is a row with that id together with the
    snapshot computed from it, or neither. *)
Definition mirrored (table : Table.t) (s : MemoryStorage.t) : Prop :=
  forall id,
    is_str id = true ->
    (exists item,
        view s (storageKey.row (Table.key table) id) = SObj item
        /\ view s (storageKey.rowIndex (Table.key table) id)
           = SObj (Database.recalculateIndexes table item)
        /\ prop item (Table.keyPath table) = id
        /\ decodes id = true)
    \/ (view s (storageKey.row (Table.key table) id) = undefined
        /\ view s (storageKey.rowIndex (Table.key table) id) = undefined).

(** No group of an index holds an id twice. *)
Definition distinct (table : Table.t) (s : MemoryStorage.t) : Prop :=
  forall n g,
    In n (obj_keys (Table.indexes table)) ->
    In g (index_of table s n) ->
    NoDup (Group.ids g).

(** The state of a table in which the indexes, the snapshots and the
    rows agree. *)
Record faithful (table : Table.t) (s : MemoryStorage.t) : Prop := {
  faithful_indexed : indexed table s;
  faithful_listed : listed table s;
  faithful_mirrored : mirrored table s;
  faithful_distinct : distinct table s
}.

(** A storage that holds no index, row or snapshot of the table. *)
Definition blank (table : Table.t) (s : MemoryStorage.t) : Prop :=
  (forall n, In n (obj_keys (Table.indexes table)) -> index_of table s n = [])
  /\ forall id,
       view s (storageKey.row (Table.key table) id) = undefined
       /\ view s (storageKey.rowIndex (Table.key table) id) = undefined.

(** Every index of the table reads a column. *)
Definition columns_only (table : Table.t) : bool :=
  forallb (fun entry =>
             match snd entry with
             | ByColumn _ => true
             | ByFunction _ => false
             end)
          (Table.indexes table).

(** The filter [{ [column]: v }]. *)
Definition by_column (column : string) (v : JsVal) : Filter :=
  [(column, Literal v)].

(** A page of book 123. *)
Definition first_page : Row := [("id", JStr "a"); ("bookId", JStr "123")].

(** The storage [s'] reads as [s] does under every key, and is [s]
    itself when [s] stands alone. *)
Definition unchanged (s s' : MemoryStorage.t) : Prop :=
  (forall k, view s' k = view s k)
  /\ (MemoryStorage.fallback s = None -> s' = s).

(** An action that only reads. *)
Definition reads {A} (m : Action A) : Prop :=
  forall s, unchanged s (snd (m s)).

(** A table whose source cannot be reached. *)
Definition offline : Table.t :=
  Table.Make "posts" "id" [("primary", ByColumn "id")]
    (fun _ => Threw (Raised "offline")) (fun _ => Returned false) false.

(** Every key of the storage that the full scan of the table picks is
    the key of a row, or of the snapshot of a row, whose id is well-formed
    text. *)
Definition scannable (table : Table.t) (s : MemoryStorage.t) : Prop :=
  forall k,
    In k (MemoryStorage.getAllKeys s) ->
    startsWith k (storageKey.rows (Table.key table)) = true ->
    exists id,
      is_str id = true
      /\ well_formed (to_string id) = true
      /\ (k = storageKey.row (Table.key table) id
          \/ k = storageKey.rowIndex (Table.key table) id).

(** A storage none of whose keys the full scan of the table picks. *)
Definition bare (table : Table.t) (s : MemoryStorage.t) : Prop :=
  forall k,
    In k (MemoryStorage.getAllKeys s) ->
    startsWith k (storageKey.rows (Table.key table)) = false.

(** A call whose id is well-formed text. *)
Definition legible (table : Table.t) (w : Write) : bool :=
  well_formed (to_string (target table w)).

(** An action after which the storage lists no keys but those it listed
    and those in [K]. *)
Definition adds {A} (K : string -> Prop) (m : Action A) : Prop :=
  forall s k,
    In k (MemoryStorage.getAllKeys (snd (m s))) ->
    In k (MemoryStorage.getAllKeys s) \/ K k.

(** A filter that no index of the table serves: it has no truthy entry
    for the key path and no entry for a column that has an index. *)
Definition unserved (table : Table.t) (filter : Filter) : bool :=
  (negb (truthy (filter_prop filter (Table.keyPath table)))
   && forallb (fun entry =>
                 match Database.column_index table (fst entry) with
                 | Some _ => false
                 | None => true
                 end)
              filter)%bool.





(** Two comments, one enabled and one not. *)
Definition two_comments : list Write :=
  [Put [("id", JStr "1"); ("active", JBool true)];
   Put [("id", JStr "2"); ("active", JBool false)]].

(** Every entry of the filter gives a value, none a function. *)
Definition literal (filter : Filter) : bool :=
  forallb (fun entry =>
             match snd entry with
             | Literal _ => true
             | Predicate _ _ _ => false
             end)
          filter.

(** A call whose id is not the empty string. *)
Definition named (table : Table.t) (w : Write) : bool :=
  negb (String.eqb (to_string (target table w)) "").

(** A call that is [settled], [legible] and [named]. *)
Definition regular (table : Table.t) (w : Write) : bool :=
  (settled table w && legible table w && named table w)%bool.

(** Is the value among the candidate ids?  With no candidates yet every
    value is. *)
Definition candidate (ids : option (list JsVal)) (x : JsVal) : Prop :=
  match ids with
  | Some l => In x l
  | None => True
  end.

(** The candidates that pass the scan filters hold rows that pass the
    entries seen so far. *)
Definition sound_plan (table : Table.t) (s : MemoryStorage.t) (seen : Filter)
    (ids : option (list JsVal)) (scanFilters : Filter) : Prop :=
  forall x item,
    candidate ids x ->
    view s (storageKey.row (Table.key table) x) = SObj item ->
    Database.matches scanFilters (SObj item) = true ->
    Database.matches seen (SObj item) = true.

(** A row that passes the whole filter is among the candidates and passes
    the scan filters. *)
Definition complete_plan (table : Table.t) (s : MemoryStorage.t) (filter : Filter)
    (ids : option (list JsVal)) (scanFilters : Filter) : Prop :=
  forall id item,
    is_str id = true ->
    view s (storageKey.row (Table.key table) id) = SObj item ->
    Database.matches filter (SObj item) = true ->
    candidate ids id /\ Database.matches scanFilters (SObj item) = true.

(** An action that, run on an overlay, leaves the fallback reading as
    before under every key that is not the key of a meta record. *)
Definition shields {A} (m : Action A) : Prop :=
  forall state pending fb,
    exists state' pending' fb',
      snd (m (MemoryStorage.Make state pending (Some fb)))
      = MemoryStorage.Make state' pending' (Some fb')
      /\ forall k, ~ is_meta k -> view fb' k = view fb k.

(** A table that is not forced, whose [getSince] returns, and none of
    whose fetched rows [isItemDeleted] reports deleted. *)
Definition undeleting (s : MemoryStorage.t) (table : Table.t) : bool :=
  (negb (Table.forceSync table)
   && returns (fetched table s)
   && forallb (fun item =>
                 match Table.isItemDeleted table item with
                 | Returned true => false
                 | _ => true
                 end)
              (rows_of (fetched table s)))%bool.

(** A store with two keys. *)
Definition two_keys : MemoryStorage.t :=
  MemoryStorage.Make [("key", SVal (JNum 123)); ("other", SVal (JNum 7))] [] None.
Unset Implicit Arguments.

(* ================================================================== *)
(** * Objects: lookup after update *)
(* ================================================================== *)

Section ObjectFacts.
Variable V : Type.
Implicit Types (o : Obj V) (k : string) (v : V).

Lemma obj_get_set_same o k v : obj_get (obj_set k v o) k = Some v.
Proof.
  induction o as [|[k' v'] rest IH]; simpl.
  - now rewrite String.eqb_refl.
  - destruct (String.eqb k k') eqn:E; simpl.
    + now rewrite String.eqb_refl.
    + now rewrite E.
Qed.

Lemma obj_get_set_other o k k' v :
  k <> k' -> obj_get (obj_set k v o) k' = obj_get o k'.
Proof.
  intros Hne. induction o as [|[k0 v0] rest IH]; simpl.
  - destruct (String.eqb_spec k' k); congruence.
  - destruct (String.eqb_spec k k0) as [->|Hk]; simpl.
    + destruct (String.eqb_spec k' k0); congruence.
    + now rewrite IH.
Qed.

Lemma obj_get_delete_same o k : obj_get (obj_delete k o) k = None.
Proof.
  induction o as [|[k0 v0] rest IH]; simpl; auto.
  destruct (String.eqb k k0) eqn:E; simpl; auto. now rewrite E.
Qed.

Lemma obj_get_delete_other o k k' :
  k <> k' -> obj_get (obj_delete k o) k' = obj_get o k'.
Proof.
  intros Hne. induction o as [|[k0 v0] rest IH]; simpl; auto.
  destruct (String.eqb_spec k k0) as [->|Hk]; simpl.
  - destruct (String.eqb_spec k' k0); congruence.
  - now rewrite IH.
Qed.

Lemma obj_has_set o k k' v :
  obj_has (obj_set k v o) k' = (String.eqb k k' || obj_has o k')%bool.
Proof.
  unfold obj_has. destruct (String.eqb_spec k k') as [->|Hne]; simpl.
  - now rewrite obj_get_set_same.
  - now rewrite obj_get_set_other.
Qed.

Lemma obj_has_delete o k k' :
  obj_has (obj_delete k o) k' = (negb (String.eqb k k') && obj_has o k')%bool.
Proof.
  unfold obj_has. destruct (String.eqb_spec k k') as [->|Hne]; simpl.
  - now rewrite obj_get_delete_same.
  - now rewrite obj_get_delete_other.
Qed.

Lemma obj_has_keys o k : obj_has o k = true <-> In k (obj_keys o).
Proof.
  unfold obj_has, obj_keys. induction o as [|[k0 v0] rest IH]; simpl.
  - split; [discriminate | tauto].
  - destruct (String.eqb_spec k k0) as [->|Hne].
    + split; auto.
    + rewrite IH. split; [tauto | intros [H|H]; congruence].
Qed.

Lemma obj_has_false_keys o k : obj_has o k = false <-> ~ In k (obj_keys o).
Proof.
  rewrite <- obj_has_keys. destruct (obj_has o k); split; congruence.
Qed.

Lemma obj_keys_set o k v k' :
  In k' (obj_keys (obj_set k v o)) <-> k' = k \/ In k' (obj_keys o).
Proof.
  rewrite <- !obj_has_keys, obj_has_set.
  destruct (String.eqb_spec k k') as [->|Hne]; simpl.
  - tauto.
  - split; [tauto | intros [H|H]; congruence].
Qed.

Lemma obj_keys_delete o k k' :
  In k' (obj_keys (obj_delete k o)) <-> k' <> k /\ In k' (obj_keys o).
Proof.
  rewrite <- !obj_has_keys, obj_has_delete.
  destruct (String.eqb_spec k k') as [->|Hne]; simpl.
  - split; [discriminate | tauto].
  - split; [intros H; split; congruence | tauto].
Qed.

End ObjectFacts.

Lemma obj_get_In {V} (o : Obj V) k v : obj_get o k = Some v -> In (k, v) o.
Proof.
  induction o as [|[k' v'] rest IH]; simpl; [discriminate|].
  destruct (String.eqb_spec k k') as [->|_].
  - intros [= ->]. now left.
  - intros H. right. auto.
Qed.

Lemma existsb_eqb_In (k : string) (l : list string) :
  existsb (String.eqb k) l = true <-> In k l.
Proof.
  rewrite existsb_exists. split.
  - intros [x [Hin Heq]]. apply String.eqb_eq in Heq. now subst.
  - intros Hin. exists k. split; auto. apply String.eqb_refl.
Qed.

Lemma dedupe_In (keys seen : list string) (k : string) :
  In k (dedupe seen keys) <-> In k keys /\ ~ In k seen.
Proof.
  revert seen. induction keys as [|k0 rest IH]; intros seen; simpl.
  - tauto.
  - destruct (existsb (String.eqb k0) seen) eqn:E.
    + apply existsb_eqb_In in E. rewrite IH.
      split; [tauto|]. intros [[->|H] Hn]; tauto.
    + assert (Hk0 : ~ In k0 seen).
      { intros H. apply existsb_eqb_In in H. congruence. }
      simpl. rewrite IH. simpl.
      destruct (string_dec k0 k) as [->|Hne]; [tauto|]. tauto.
Qed.

Lemma dedupe_NoDup (keys seen : list string) : NoDup (dedupe seen keys).
Proof.
  revert seen. induction keys as [|k0 rest IH]; intros seen; simpl.
  - constructor.
  - destruct (existsb (String.eqb k0) seen); auto.
    constructor; auto. rewrite dedupe_In. simpl. tauto.
Qed.

(* ================================================================== *)
(** * [MemoryStorage]: what a reader sees *)
(* ================================================================== *)

(** Induction along the chain of fallbacks. *)
Lemma storage_ind (P : MemoryStorage.t -> Prop)
    (alone : forall state pending, P (MemoryStorage.Make state pending None))
    (layered : forall state pending fb,
        P fb -> P (MemoryStorage.Make state pending (Some fb)))
    (s : MemoryStorage.t) : P s.
Proof.
  revert s. fix IH 1. intros [state pending [fb|]].
  - apply layered, IH.
  - apply alone.
Qed.

Lemma read_set (state : Obj Stored) k v k' :
  MemoryStorage.read (obj_set k v state) k'
  = if String.eqb k k' then v else MemoryStorage.read state k'.
Proof.
  unfold MemoryStorage.read. destruct (String.eqb_spec k k') as [->|Hne].
  - now rewrite obj_get_set_same.
  - now rewrite obj_get_set_other.
Qed.

Lemma read_delete (state : Obj Stored) k k' :
  MemoryStorage.read (obj_delete k state) k'
  = if String.eqb k k' then undefined else MemoryStorage.read state k'.
Proof.
  unfold MemoryStorage.read. destruct (String.eqb_spec k k') as [->|Hne].
  - now rewrite obj_get_delete_same.
  - now rewrite obj_get_delete_other.
Qed.

Lemma view_layered state pending fb k :
  view (MemoryStorage.Make state pending (Some fb)) k
  = if obj_has state k then MemoryStorage.read state k else view fb k.
Proof.
  unfold view. simpl. destruct (obj_has state k); auto.
  now destruct (MemoryStorage.getItem fb k).
Qed.

Lemma view_alone state pending k :
  view (MemoryStorage.Make state pending None) k = MemoryStorage.read state k.
Proof. reflexivity. Qed.

(** Reading changes no value that can be read. *)
Lemma view_getItem s k k' :
  view (snd (MemoryStorage.getItem s k)) k' = view s k'.
Proof.
  induction s as [state pending|state pending fb IH] using storage_ind.
  - reflexivity.
  - simpl. destruct (obj_has state k) eqn:Hk; auto.
    destruct (MemoryStorage.getItem fb k) as [v fb'] eqn:Hg. simpl in *.
    rewrite !view_layered, obj_has_set, read_set, IH.
    destruct (String.eqb_spec k k') as [<-|Hne]; simpl; auto.
    rewrite Hk. unfold view. now rewrite Hg.
Qed.

Lemma view_setItem s k v k' :
  view (MemoryStorage.setItem s k v) k'
  = if String.eqb k k' then v else view s k'.
Proof.
  destruct s as [state pending [fb|]]; simpl.
  - rewrite !view_layered, obj_has_set, read_set.
    destruct (String.eqb k k'); auto.
  - rewrite !view_alone. apply read_set.
Qed.

Lemma view_removeItem s k k' :
  view (MemoryStorage.removeItem s k) k'
  = if String.eqb k k' then undefined else view s k'.
Proof.
  induction s as [state pending|state pending fb IH] using storage_ind; simpl.
  - rewrite !view_alone. apply read_delete.
  - rewrite !view_layered, obj_has_delete, read_delete, IH.
    destruct (String.eqb k k'); simpl; auto.
Qed.

Lemma view_new s k : view (MemoryStorage.new (Some s)) k = view s k.
Proof. unfold MemoryStorage.new. now rewrite view_layered. Qed.

(* ================================================================== *)
(** * Storages whose keys are ordinary *)
(* ================================================================== *)

Lemma tidy_layers state pending fb :
  tidy (MemoryStorage.Make state pending fb)
  = (forallb ordinary (obj_keys state)
     && match fb with Some fb => tidy fb | None => true end)%bool.
Proof. destruct fb; simpl; auto. now rewrite andb_true_r. Qed.

Lemma ordinary_keys_set (state : Obj Stored) key v :
  ordinary key = true ->
  forallb ordinary (obj_keys state) = true ->
  forallb ordinary (obj_keys (obj_set key v state)) = true.
Proof.
  rewrite !forallb_forall. intros Hkey Hstate k Hk.
  apply obj_keys_set in Hk as [->|Hk]; auto.
Qed.

Lemma ordinary_keys_delete (state : Obj Stored) key :
  forallb ordinary (obj_keys state) = true ->
  forallb ordinary (obj_keys (obj_delete key state)) = true.
Proof.
  rewrite !forallb_forall. intros Hstate k Hk.
  apply obj_keys_delete in Hk as [_ Hk]. auto.
Qed.

(** The calls keep a storage tidy when their keys are ordinary. *)
Lemma tidy_setItem s key v :
  ordinary key = true -> tidy s = true ->
  tidy (MemoryStorage.setItem s key v) = true.
Proof.
  intros Hkey. destruct s as [state pending fb]. rewrite tidy_layers.
  intros H. apply andb_true_iff in H as [Hstate Hfb].
  destruct fb as [fb|]; cbn [MemoryStorage.setItem]; rewrite tidy_layers;
    apply andb_true_iff; split; auto using ordinary_keys_set.
Qed.

Lemma tidy_removeItem s key :
  tidy s = true -> tidy (MemoryStorage.removeItem s key) = true.
Proof.
  induction s as [state pending|state pending fb IH] using storage_ind;
    rewrite tidy_layers; intros H; apply andb_true_iff in H as [Hstate Hfb];
    cbn [MemoryStorage.removeItem]; rewrite tidy_layers;
    apply andb_true_iff; split; auto using ordinary_keys_delete.
Qed.

Lemma tidy_getItem s key :
  ordinary key = true -> tidy s = true ->
  tidy (snd (MemoryStorage.getItem s key)) = true.
Proof.
  intros Hkey.
  induction s as [state pending|state pending fb IH] using storage_ind;
    [auto|].
  rewrite tidy_layers. intros H. apply andb_true_iff in H as [Hstate Hfb].
  cbn [MemoryStorage.getItem].
  destruct (obj_has state key).
  - cbn [snd]. rewrite tidy_layers. now rewrite Hstate, Hfb.
  - specialize (IH Hfb).
    destruct (MemoryStorage.getItem fb key) as [value fb']. cbn [snd] in *.
    rewrite tidy_layers. apply andb_true_iff. split; auto using ordinary_keys_set.
Qed.



(* ================================================================== *)
(** * Transactions that fail *)
(* ================================================================== *)

(** Reads and writes of a child leave a fallback that stands alone as
    it is. *)
Lemma buffered_ops_keep_fallback ops state pending st0 pk0 :
  forallb buffers ops = true ->
  exists state' pending',
    for_each ops run_op
      (MemoryStorage.Make state pending
         (Some (MemoryStorage.Make st0 pk0 None)))
    = (Returned tt,
       MemoryStorage.Make state' pending'
         (Some (MemoryStorage.Make st0 pk0 None))).
Proof.
  revert state pending.
  induction ops as [|op rest IH]; intros state pending Hops; simpl in *.
  - now exists state, pending.
  - apply andb_true_iff in Hops as [Hop Hrest].
    destruct op; try discriminate; cbn [run_op];
      unfold bind, Storage.getItem, Storage.setItem, ret; simpl.
    + destruct (obj_has state key); simpl; now apply IH.
    + now apply IH.
Qed.

(** The buffered half of atomicity: a body that only reads and sets, and
    then throws, leaves a storage that stands alone exactly as it was. *)
Lemma transaction_rolls_back_writes ops e st0 pk0 :
  forallb buffers ops = true ->
  MemoryStorage.transaction (MemoryStorage.Make st0 pk0 None) (failing ops e)
  = (Threw e, MemoryStorage.Make st0 pk0 None).
Proof.
  intros Hops. unfold MemoryStorage.transaction, failing, bind, MemoryStorage.new.
  destruct (buffered_ops_keep_fallback ops [] [] st0 pk0 Hops)
    as [state' [pending' ->]].
  reflexivity.
Qed.

(** C1: a transaction body that removes a key and then throws.  The
    error is re-raised, and the key is gone from the backing store: the
    removal went to the fallback when it was made, and clearing the child
    does not bring it back. *)
Theorem transaction_removal_survives_rollback :
  view store_123 "key" = SVal (JNum 123) /\
  MemoryStorage.transaction store_123 (failing [OpRemove "key"] (Raised "boom"))
  = (Threw (Raised "boom"), MemoryStorage.Make [] [] None) /\
  view (snd (MemoryStorage.transaction store_123
               (failing [OpRemove "key"] (Raised "boom")))) "key"
  = undefined.
Proof. repeat split. Qed.

(* ================================================================== *)
(** * The keys of an overlay *)
(* ================================================================== *)

Lemma getAllKeys_layered state pending fb k :
  In k (MemoryStorage.getAllKeys (MemoryStorage.Make state pending (Some fb)))
  <-> In k (MemoryStorage.getAllKeys fb) \/ In k (obj_keys state).
Proof.
  simpl. rewrite dedupe_In, in_app_iff. simpl. tauto.
Qed.

Lemma getAllKeys_alone state pending k :
  In k (MemoryStorage.getAllKeys (MemoryStorage.Make state pending None))
  <-> In k (obj_keys state).
Proof.
  simpl. rewrite dedupe_In. simpl. tauto.
Qed.

Lemma getAllKeys_NoDup s : NoDup (MemoryStorage.getAllKeys s).
Proof. destruct s as [state pending [fb|]]; apply dedupe_NoDup. Qed.

(** One call on an overlay: it stays an overlay, and its own keys change
    as [keeps] says. *)
Lemma run_op_layered op state pending fb :
  exists state' pending' fb',
    run_op op (MemoryStorage.Make state pending (Some fb))
    = (Returned tt, MemoryStorage.Make state' pending' (Some fb'))
    /\ forall k, obj_has state' k = keeps k (obj_has state k) op.
Proof.
  destruct op as [key|key v|key| |]; cbn [run_op keeps];
    unfold bind, ret, Storage.getItem, Storage.setItem, Storage.removeItem;
    simpl.
  - destruct (obj_has state key) eqn:Hk.
    + exists state, pending, fb. split; auto. intros k.
      destruct (String.eqb_spec key k) as [<-|Hne]; rewrite ?Hk;
        now rewrite ?orb_false_r.
    + destruct (MemoryStorage.getItem fb key) as [v fb'].
      exists (obj_set key v state), pending, fb'. split; auto.
      intros k. rewrite obj_has_set. apply orb_comm.
  - exists (obj_set key v state), (pending ++ [key])%list, fb. split; auto.
    intros k. rewrite obj_has_set. apply orb_comm.
  - exists (obj_delete key state), (pending ++ [key])%list,
      (MemoryStorage.removeItem fb key). split; auto.
    intros k. rewrite obj_has_delete. apply andb_comm.
  - exists [], [], fb. split; auto.
  - exists state, [], (fold_left (MemoryStorage.flush state) pending fb).
    split; auto.
Qed.

Lemma after_layered ops state pending fb :
  exists state' pending' fb',
    after ops (MemoryStorage.Make state pending (Some fb))
    = MemoryStorage.Make state' pending' (Some fb')
    /\ forall k, obj_has state' k = fold_left (keeps k) ops (obj_has state k).
Proof.
  unfold after. revert state pending fb.
  induction ops as [|op rest IH]; intros state pending fb; simpl.
  - exists state, pending, fb. auto.
  - destruct (run_op_layered op state pending fb)
      as [st1 [pk1 [fb1 [Hrun Hkeys]]]].
    unfold bind. rewrite Hrun.
    destruct (IH st1 pk1 fb1) as [st2 [pk2 [fb2 [Hrest Hkeys2]]]].
    exists st2, pk2, fb2. split; auto.
    intros k. now rewrite Hkeys2, Hkeys.
Qed.

(** C9, as the code has it: after any calls on a fresh overlay, [keys()]
    lists, each once, the keys of the delegate as it is now and the keys
    the overlay holds in its own state, and these are the keys it has set
    or read (and not removed or cleared since), a key read and found
    absent among them.  The delegate is tidy and the keys of the calls are
    ordinary: the [state] of a storage is a plain object, which lists a
    key it was assigned only if the key is none of those it inherits. *)
Theorem overlay_keys_are_delegate_and_held (d : MemoryStorage.t) (ops : list Op) :
  tidy d = true ->
  forallb ordinary_op ops = true ->
  exists d',
    MemoryStorage.fallback (after ops (MemoryStorage.new (Some d))) = Some d'
    /\ NoDup (MemoryStorage.getAllKeys (after ops (MemoryStorage.new (Some d))))
    /\ forall k,
         In k (MemoryStorage.getAllKeys (after ops (MemoryStorage.new (Some d))))
         <-> In k (MemoryStorage.getAllKeys d') \/ kept ops k = true.
Proof.
  intros _ _. unfold MemoryStorage.new.
  destruct (after_layered ops [] [] d) as [st [pk [d' [Hafter Hkeys]]]].
  exists d'. rewrite Hafter. split; [reflexivity|].
  split; [apply getAllKeys_NoDup|].
  intros k. rewrite getAllKeys_layered, <- obj_has_keys, Hkeys.
  reflexivity.
Qed.

Lemma overlay_keys_are_delegate_and_held_witness :
  tidy store_123 = true
  /\ forallb ordinary_op
       [OpGet "ghost"; OpSet "other" (SVal (JNum 1)); OpRemove "key"; OpGet "key"]
     = true
  /\ MemoryStorage.getAllKeys
       (after [OpGet "ghost"; OpSet "other" (SVal (JNum 1)); OpRemove "key";
               OpGet "key"]
              (MemoryStorage.new (Some store_123)))
     = ["ghost"; "other"; "key"]
  /\ exists d',
       MemoryStorage.fallback
         (after [OpGet "ghost"; OpSet "other" (SVal (JNum 1)); OpRemove "key";
                 OpGet "key"]
                (MemoryStorage.new (Some store_123))) = Some d'
       /\ MemoryStorage.getAllKeys d' = []
       /\ forall k,
            In k (MemoryStorage.getAllKeys
                    (after [OpGet "ghost"; OpSet "other" (SVal (JNum 1));
                            OpRemove "key"; OpGet "key"]
                           (MemoryStorage.new (Some store_123))))
            <-> In k (MemoryStorage.getAllKeys d')
                \/ kept [OpGet "ghost"; OpSet "other" (SVal (JNum 1));
                         OpRemove "key"; OpGet "key"] k = true.
Proof.
  split; [reflexivity|]. split; [reflexivity|]. split; [reflexivity|].
  destruct (overlay_keys_are_delegate_and_held store_123
              [OpGet "ghost"; OpSet "other" (SVal (JNum 1)); OpRemove "key";
               OpGet "key"] eq_refl eq_refl) as [d' [Hd' [_ Hkeys]]].
  exists d'. split; [exact Hd'|]. split; [|exact Hkeys].
  cbn in Hd'. injection Hd' as <-. reflexivity.
Defined.

(** C9, as stated, fails: an overlay over an empty store reads a key that
    is nowhere, writes nothing, and reports the key. *)
Lemma overlay_keys_report_absent_read :
  view (MemoryStorage.new None) "ghost" = undefined
  /\ MemoryStorage.fallback (after ghost_read ghost_overlay)
     = Some (MemoryStorage.new None)
  /\ MemoryStorage.getAllKeys (MemoryStorage.new None) = []
  /\ written ghost_read "ghost" = false
  /\ MemoryStorage.getAllKeys (after ghost_read ghost_overlay) = ["ghost"]
  /\ ~ (forall k,
          In k (MemoryStorage.getAllKeys (after ghost_read ghost_overlay))
          <-> In k (MemoryStorage.getAllKeys (MemoryStorage.new None))
              \/ written ghost_read k = true).
Proof.
  repeat split.
  intros H. specialize (H "ghost"). vm_compute in H.
  destruct H as [H _]. destruct H as [[]|H]; [now left | discriminate].
Qed.

(* ================================================================== *)
(** * The fetch phase of [sync] *)
(* ================================================================== *)

Lemma getItem_run k s :
  Storage.getItem k s = (Returned (view s k), snd (MemoryStorage.getItem s k)).
Proof.
  unfold Storage.getItem, view. now destruct (MemoryStorage.getItem s k).
Qed.

(** [getTableMeta] returns the meta it finds, and writes [fresh_meta] where
    it finds none. *)
Lemma getTableMeta_run table s :
  exists s',
    Database.getTableMeta table s
    = (Returned (if stored_truthy (view s (storageKey.tableMeta (Table.key table)))
                 then view s (storageKey.tableMeta (Table.key table))
                 else fresh_meta), s')
    /\ forall k,
         view s' k
         = if (negb (stored_truthy (view s (storageKey.tableMeta (Table.key table))))
               && String.eqb (storageKey.tableMeta (Table.key table)) k)%bool
           then fresh_meta else view s k.
Proof.
  unfold Database.getTableMeta, Database.setTableMeta, bind.
  rewrite getItem_run.
  destruct (stored_truthy (view s (storageKey.tableMeta (Table.key table)))) eqn:Ht;
    simpl.
  - eexists. split; [reflexivity|]. intros k. apply view_getItem.
  - unfold Storage.setItem, ret. eexists. split; [reflexivity|].
    intros k. now rewrite view_setItem, view_getItem.
Qed.

Lemma syncTable_views now table s k :
  view (snd (Database.syncTable now table s)) k
  = if (negb (stored_truthy (view s (storageKey.tableMeta (Table.key table))))
        && String.eqb (storageKey.tableMeta (Table.key table)) k)%bool
    then fresh_meta else view s k.
Proof.
  unfold Database.syncTable, bind.
  destruct (getTableMeta_run table s) as [s1 [-> Hs1]].
  unfold call.
  destruct (Table.getSince table _) as [data|e]; simpl; [|apply Hs1].
  unfold Database.mergeTable, bind.
  destruct (getTableMeta_run table s1) as [s2 [-> Hs2]]. simpl.
  rewrite Hs2, !Hs1.
  destruct (stored_truthy (view s (storageKey.tableMeta (Table.key table)))) eqn:Ht;
    simpl; rewrite ?Ht; simpl.
  - reflexivity.
  - rewrite String.eqb_refl. simpl.
    destruct (String.eqb _ k); reflexivity.
Qed.

Lemma map_all_cons_storage {A B} (f : A -> Action B) x rest s :
  snd (map_all (x :: rest) f s) = snd (map_all rest f (snd (f x s))).
Proof.
  simpl. destruct (f x s) as [r s1]. simpl.
  now destruct (map_all rest f s1) as [rs s2].
Qed.

(** On a storage that stands alone, a table that has its meta is fetched
    without a change to the storage. *)
Lemma syncTable_alone now table state pending :
  stored_truthy
    (view (MemoryStorage.Make state pending None)
       (storageKey.tableMeta (Table.key table))) = true ->
  snd (Database.syncTable now table (MemoryStorage.Make state pending None))
  = MemoryStorage.Make state pending None.
Proof.
  intros Hmeta.
  assert (Hget : Database.getTableMeta table (MemoryStorage.Make state pending None)
                 = (Returned (view (MemoryStorage.Make state pending None)
                                (storageKey.tableMeta (Table.key table))),
                    MemoryStorage.Make state pending None)).
  { unfold Database.getTableMeta, bind. rewrite getItem_run, Hmeta. reflexivity. }
  unfold Database.syncTable, bind. rewrite Hget. unfold call.
  destruct (Table.getSince table _) as [data|e]; simpl; auto.
  unfold Database.mergeTable, bind. rewrite Hget. reflexivity.
Qed.

Lemma fetch_alone now (tables : Database.t) state pending :
  (forall table, In table tables ->
     stored_truthy
       (view (MemoryStorage.Make state pending None)
          (storageKey.tableMeta (Table.key table))) = true) ->
  snd (Database.fetch now tables (MemoryStorage.Make state pending None))
  = MemoryStorage.Make state pending None.
Proof.
  unfold Database.fetch. induction tables as [|table rest IH]; intros Hall.
  - reflexivity.
  - rewrite map_all_cons_storage.
    rewrite (syncTable_alone now table state pending
               (Hall table (or_introl eq_refl))).
    apply IH. intros t Ht. apply Hall. now right.
Qed.

(** The fetch as a whole, read through [view]: whether the sources return
    or throw, every meta record that was missing is created and nothing
    else changes. *)
Lemma fetch_views now (tables : Database.t) : forall s k,
  view (snd (Database.fetch now tables s)) k
  = if missing_meta tables s k then fresh_meta else view s k.
Proof.
  unfold Database.fetch, missing_meta.
  induction tables as [|table rest IH]; intros s k.
  - reflexivity.
  - rewrite map_all_cons_storage, IH, !syncTable_views. cbn [existsb].
    destruct (String.eqb_spec (storageKey.tableMeta (Table.key table)) k)
      as [->|Hne].
    + cbn [orb]. rewrite andb_true_r.
      destruct (stored_truthy (view s k)) eqn:Hmeta; cbn [negb andb].
      * rewrite Hmeta. now rewrite andb_false_r.
      * now rewrite andb_false_r.
    + rewrite andb_false_r. reflexivity.
Qed.

(** C3, as the code has it: whether the sources return or throw, after
    the fetch phase every registered table that had no meta has the meta
    [{lastSync: null}], and every other key of the store, the meta of a
    table that has one among them, reads as it did before [sync]; so with
    a meta in place for every table nothing reads differently, and a store
    that stands alone is the same store. *)
Theorem fetch_writes_only_missing_meta now (tables : Database.t) s :
  (forall k,
      view (snd (Database.fetch now tables s)) k
      = if missing_meta tables s k then fresh_meta else view s k)
  /\ ((forall table, In table tables ->
         stored_truthy (view s (storageKey.tableMeta (Table.key table))) = true)
      -> (forall k, view (snd (Database.fetch now tables s)) k = view s k)
         /\ (MemoryStorage.fallback s = None ->
             snd (Database.fetch now tables s) = s)).
Proof.
  split; [apply fetch_views|].
  intros Hall. split.
  - intros k. rewrite fetch_views. unfold missing_meta.
    destruct (existsb _ tables) eqn:Hex; [|reflexivity].
    apply existsb_exists in Hex as [table [Hin Hk]].
    apply String.eqb_eq in Hk. subst k. now rewrite (Hall table Hin).
  - destruct s as [state pending [fb|]]; [discriminate|].
    intros _. now apply fetch_alone.
Qed.

Lemma fetch_writes_only_missing_meta_witness :
  (fst (Database.fetch "2020-02-02T00:00:00.000Z" [offline; comments]
          (MemoryStorage.new None))
   = Threw (Raised "offline")
   /\ forall k,
        view (snd (Database.fetch "2020-02-02T00:00:00.000Z" [offline; comments]
                     (MemoryStorage.new None))) k
        = if missing_meta [offline; comments] (MemoryStorage.new None) k
          then fresh_meta else view (MemoryStorage.new None) k)
  /\ (forall table, In table [forced; posts] ->
        stored_truthy (view synced_store (storageKey.tableMeta (Table.key table)))
        = true)
  /\ MemoryStorage.fallback synced_store = None
  /\ snd (Database.fetch "2020-02-02T00:00:00.000Z" [forced; posts] synced_store)
     = synced_store.
Proof.
  assert (H : forall table, In table [forced; posts] ->
                stored_truthy
                  (view synced_store (storageKey.tableMeta (Table.key table)))
                = true).
  { intros table [<-|[<-|[]]]; reflexivity. }
  split.
  { split; [reflexivity|].
    exact (proj1 (fetch_writes_only_missing_meta "2020-02-02T00:00:00.000Z"
                    [offline; comments] (MemoryStorage.new None))). }
  split; [exact H|]. split; [reflexivity|].
  exact (proj2 (proj2 (fetch_writes_only_missing_meta
                         "2020-02-02T00:00:00.000Z" [forced; posts] synced_store)
                  H) eq_refl).
Defined.

(** C3, as stated, fails: on a fresh store the fetch phase for one table
    writes the table's meta. *)
Lemma fetch_writes_meta_on_fresh_store :
  view (MemoryStorage.new None) "comments/meta" = undefined
  /\ snd (Database.fetch "2020-01-01T00:00:00.000Z" [comments] (MemoryStorage.new None))
     = MemoryStorage.Make [("comments/meta", fresh_meta)] [] None
  /\ view (snd (Database.fetch "2020-01-01T00:00:00.000Z" [comments]
                  (MemoryStorage.new None))) "comments/meta"
     <> view (MemoryStorage.new None) "comments/meta".
Proof. repeat split. discriminate. Qed.

(* ================================================================== *)
(** * Pagination *)
(* ================================================================== *)

Lemma matching_cons table scanFilters s id ids :
  matching table scanFilters s (id :: ids)
  = ((if (stored_truthy (view s (storageKey.row (Table.key table) id))
          && Database.matches scanFilters
               (view s (storageKey.row (Table.key table) id)))%bool
      then [view s (storageKey.row (Table.key table) id)] else [])
     ++ matching table scanFilters s ids)%list.
Proof. reflexivity. Qed.

Lemma matching_views table scanFilters s s' ids :
  (forall k, view s' k = view s k) ->
  matching table scanFilters s' ids = matching table scanFilters s ids.
Proof.
  intros Hv. unfold matching. apply flat_map_ext. intros a. now rewrite Hv.
Qed.

(** The loop with its accumulators: [skip] matches are still to be
    skipped and [result] holds fewer rows than a positive limit allows.
    [visited] are the ids the loop came to, [rest] the ones it did not:
    either the loop stopped at the last of the visited ids, a match that
    filled the limit, or it came to every id and the limit was not
    filled. *)
Lemma collect_run table scanFilters limit ids : forall skip result s,
  match limit with
  | Some n => (n = 0 \/ Z.of_nat (List.length result) < n)%Z
  | None => True
  end ->
  exists rest s',
    Database.collect table scanFilters limit ids (JNum (Z.of_nat skip)) result s
    = (Returned
         (result ++
            match limit with
            | Some n =>
                if Z.eqb n 0 then skipn skip (matching table scanFilters s ids)
                else firstn (Z.to_nat n - List.length result)
                            (skipn skip (matching table scanFilters s ids))
            | None => skipn skip (matching table scanFilters s ids)
            end,
          rest)%list, s')
    /\ (forall k, view s' k = view s k)
    /\ exists visited,
         ids = (visited ++ rest)%list
         /\ ((exists n before id,
                limit = Some n /\ n <> 0%Z
                /\ visited = (before ++ [id])%list
                /\ skip <= List.length (matching table scanFilters s before)
                /\ List.length result
                   + (List.length (matching table scanFilters s before) - skip)
                   + 1
                   = Z.to_nat n
                /\ matching table scanFilters s [id] <> [])
             \/ (rest = []
                 /\ match limit with
                    | Some n =>
                        n = 0%Z
                        \/ List.length result
                           + List.length
                               (skipn skip (matching table scanFilters s ids))
                           < Z.to_nat n
                    | None => True
                    end)).
Proof.
  induction ids as [|id ids IH]; intros skip result s Hlimit.
  - simpl. unfold ret. exists [], s. split.
    + destruct limit as [n|]; [destruct (Z.eqb n 0)|]; simpl;
        rewrite ?skipn_nil, ?firstn_nil, app_nil_r; reflexivity.
    + split; auto. exists []. split; auto. right. split; auto.
      destruct limit as [n|]; auto. rewrite skipn_nil. simpl.
      destruct Hlimit; [auto | right; lia].
  - cbn [Database.collect]. unfold bind at 1. rewrite getItem_run.
    set (s1 := snd (MemoryStorage.getItem s (storageKey.row (Table.key table) id))).
    assert (Hviews : forall k, view s1 k = view s k)
      by (intros k; apply view_getItem).
    assert (Hmatching : forall l,
               matching table scanFilters s1 l = matching table scanFilters s l)
      by (intros l; now apply matching_views).
    assert (Hskipped : forall skip' result',
      match limit with
      | Some n => (n = 0 \/ Z.of_nat (List.length result') < n)%Z
      | None => True
      end ->
      forall tail d,
      (forall l, skipn skip (matching table scanFilters s (id :: l))
                 = (tail ++ skipn skip' (matching table scanFilters s l))%list) ->
      (forall l, List.length (matching table scanFilters s (id :: l))
                 = d + List.length (matching table scanFilters s l)) ->
      skip + List.length tail = skip' + d ->
      (result' = result ++ tail)%list ->
      (match limit with
       | Some n => (n <> 0)%Z -> List.length result' <= Z.to_nat n
       | None => True
       end) ->
      exists rest s',
        Database.collect table scanFilters limit ids (JNum (Z.of_nat skip')) result' s1
        = (Returned
             (result ++
                match limit with
                | Some n =>
                    if Z.eqb n 0
                    then skipn skip (matching table scanFilters s (id :: ids))
                    else firstn (Z.to_nat n - List.length result)
                           (skipn skip (matching table scanFilters s (id :: ids)))
                | None => skipn skip (matching table scanFilters s (id :: ids))
                end,
              rest)%list, s')
        /\ (forall k, view s' k = view s k)
        /\ exists visited,
             (id :: ids) = (visited ++ rest)%list
         /\ ((exists n before id,
                    limit = Some n /\ n <> 0%Z
                    /\ visited = (before ++ [id])%list
                    /\ skip <= List.length (matching table scanFilters s before)
                    /\ List.length result
                       + (List.length (matching table scanFilters s before) - skip)
                       + 1
                       = Z.to_nat n
                    /\ matching table scanFilters s [id] <> [])
                 \/ (rest = []
                     /\ match limit with
                        | Some n =>
                            n = 0%Z
                            \/ List.length result
                               + List.length
                                   (skipn skip (matching table scanFilters s (id :: ids)))
                               < Z.to_nat n
                        | None => True
                        end))).
    { intros skip' result' Hlimit' tail d Htail Hd Hskip Hresult Hroom.
      destruct (IH skip' result' s1 Hlimit')
        as [rest [s' [Hrun [Hv [visited [Hids Hstop]]]]]].
      exists rest, s'. rewrite Hrun, Hmatching, Htail. split.
      - f_equal. f_equal. subst result'. rewrite <- app_assoc. f_equal.
        destruct limit as [n|]; auto.
        destruct (Z.eqb_spec n 0); auto.
        rewrite length_app in *. specialize (Hroom n0).
        rewrite firstn_app.
        rewrite (@firstn_all2 _ (Z.to_nat n - List.length result) tail) by lia.
        f_equal. f_equal. f_equal. lia.
      - split; [intros k; now rewrite Hv|].
        exists (id :: visited). split; [simpl; congruence|].
        destruct Hstop as [[n [before [id0 [Hn [Hn0 [Hvis [Hle [Hlen Hmatch]]]]]]]]
                          |[Hrest Hshort]].
        + left. exists n, (id :: before), id0.
          rewrite Hmatching in Hle, Hlen, Hmatch. rewrite Hd.
          subst result'. rewrite length_app in Hlen.
          repeat split; auto; [now subst visited | lia | lia].
        + right. split; auto. destruct limit as [n|]; auto.
          destruct Hshort as [Hz|Hlt]; [now left | right].
          rewrite Hmatching in Hlt. rewrite length_app.
          subst result'. rewrite length_app in Hlt. lia. }
    destruct (stored_truthy (view s (storageKey.row (Table.key table) id)))
      eqn:Htruthy; cbn [negb andb].
    2:{ apply (Hskipped skip result Hlimit [] 0); auto.
        - intros l. rewrite matching_cons, Htruthy. reflexivity.
        - intros l. rewrite matching_cons, Htruthy. reflexivity.
        - now rewrite app_nil_r.
        - destruct limit as [n|]; auto. intros Hn. lia. }
    destruct (Database.matches scanFilters (view s (storageKey.row (Table.key table) id)))
      eqn:Hmatch; cbn [negb andb].
    2:{ apply (Hskipped skip result Hlimit [] 0); auto.
        - intros l. rewrite matching_cons, Htruthy, Hmatch. reflexivity.
        - intros l. rewrite matching_cons, Htruthy, Hmatch. reflexivity.
        - now rewrite app_nil_r.
        - destruct limit as [n|]; auto. intros Hn. lia. }
    destruct skip as [|skip].
    + (* nothing left to skip: the row is collected *)
      cbn [truthy Z.of_nat Z.eqb negb].
      destruct (limit_reached limit
                  (result ++ [view s (storageKey.row (Table.key table) id)]))
        eqn:Hreached.
      * destruct limit as [n|]; [|discriminate]. simpl in Hreached.
        apply andb_true_iff in Hreached as [Hn0 Hle].
        apply negb_true_iff in Hn0. rewrite Hn0.
        apply Z.eqb_neq in Hn0. apply Z.leb_le in Hle.
        rewrite length_app in Hle. simpl in Hle.
        destruct Hlimit as [Hz|Hlt]; [contradiction|].
        unfold ret. exists ids, s1. split.
        -- rewrite matching_cons, Htruthy, Hmatch. simpl.
           replace (Z.to_nat n - List.length result) with 1 by lia.
           reflexivity.
        -- split; auto. exists [id]. split; auto.
           left. exists n, [], id. repeat split; auto.
           ++ simpl. lia.
           ++ rewrite matching_cons, Htruthy, Hmatch. discriminate.
      * apply (Hskipped 0 (result ++ [view s (storageKey.row (Table.key table) id)])%list)
          with (tail := [view s (storageKey.row (Table.key table) id)]) (d := 1);
          auto.
        -- destruct limit as [n|]; auto. simpl in Hreached.
           destruct (Z.eqb_spec n 0); auto. simpl in Hreached.
           apply Z.leb_gt in Hreached. auto.
        -- intros l. rewrite matching_cons, Htruthy, Hmatch. reflexivity.
        -- intros l. rewrite matching_cons, Htruthy, Hmatch. reflexivity.
        -- destruct limit as [n|]; auto. intros Hn.
           simpl in Hreached. destruct (Z.eqb_spec n 0); [contradiction|].
           simpl in Hreached. apply Z.leb_gt in Hreached. lia.
    + (* a match to skip *)
      assert (Htr : truthy (JNum (Z.of_nat (S skip))) = true).
      { simpl. reflexivity. }
      rewrite Htr.
      assert (Hdec : decrement (JNum (Z.of_nat (S skip))) = JNum (Z.of_nat skip)).
      { cbn [decrement]. f_equal. lia. }
      rewrite Hdec.
      apply (Hskipped skip result Hlimit [] 1); auto.
      * intros l. rewrite matching_cons, Htruthy, Hmatch. reflexivity.
      * intros l. rewrite matching_cons, Htruthy, Hmatch. reflexivity.
      * now rewrite app_nil_r.
      * destruct limit as [n|]; auto. intros Hn. lia.
Qed.

Lemma collect_falsy_offset table scanFilters limit ids : forall o result s,
  truthy o = false ->
  Database.collect table scanFilters limit ids o result s
  = Database.collect table scanFilters limit ids (JNum 0) result s.
Proof.
  induction ids as [|id ids IH]; intros o result s Ho; simpl; auto.
  unfold bind. destruct (Storage.getItem _ s) as [[row|e] s1]; auto.
  rewrite Ho.
  destruct (stored_truthy row); simpl; auto.
  destruct (Database.matches scanFilters row); auto.
  destruct (limit_reached limit (result ++ [row])); auto.
Qed.

(** The matches of a list of ids are those of its parts. *)
Lemma matching_app table scanFilters s l1 l2 :
  matching table scanFilters s (l1 ++ l2)
  = (matching table scanFilters s l1 ++ matching table scanFilters s l2)%list.
Proof. unfold matching. apply flat_map_app. Qed.

(** The loop from the start of [queryTable]'s last phase. *)
Lemma pagination_subrange_of_collect table scanFilters limit offset ids s :
  natural limit -> natural offset ->
  exists rest s',
    Database.collect table scanFilters limit ids (Number offset) [] s
    = (Returned
         (paginate limit (skipped offset) (matching table scanFilters s ids),
          rest), s')
    /\ (forall k, view s' k = view s k)
    /\ exists visited,
         ids = (visited ++ rest)%list
         /\ if filled limit (skipped offset)
                 (List.length (matching table scanFilters s ids))
            then exists before id n,
                   visited = (before ++ [id])%list
                   /\ limit = Some n
                   /\ matching table scanFilters s [id] <> []
                   /\ List.length (matching table scanFilters s before) + 1
                      = skipped offset + Z.to_nat n
            else rest = [].
Proof.
  intros Hlimit Hoffset.
  assert (Hstart : Database.collect table scanFilters limit ids (Number offset) [] s
                   = Database.collect table scanFilters limit ids
                       (JNum (Z.of_nat (skipped offset))) [] s).
  { destruct offset as [z|]; simpl in *.
    - now rewrite Z2Nat.id.
    - now apply collect_falsy_offset. }
  rewrite Hstart.
  destruct (collect_run table scanFilters limit ids (skipped offset) [] s)
    as [rest [s' [Hrun [Hv [visited [Hids Hstop]]]]]].
  { destruct limit as [n|]; simpl in *; auto. lia. }
  exists rest, s'. rewrite Hrun. split.
  - unfold paginate. simpl. destruct limit as [n|]; auto.
    destruct (Z.eqb n 0); auto. now rewrite Nat.sub_0_r.
  - split; auto. exists visited. split; auto.
    destruct Hstop as [[n [before [id [Hn [Hn0 [Hvis [Hle [Hlen Hmatch]]]]]]]]
                      |[Hrest Hshort]].
    + assert (Hfilled : filled limit (skipped offset)
                          (List.length (matching table scanFilters s ids)) = true).
      { subst limit. cbn [filled]. simpl in Hlimit.
        apply andb_true_iff. split; [apply Z.ltb_lt; lia|].
        apply Nat.leb_le. rewrite Hids, Hvis, !matching_app, !length_app.
        destruct (matching table scanFilters s [id]); [contradiction|].
        simpl in *. lia. }
      rewrite Hfilled. exists before, id, n. simpl in Hlen.
      repeat split; auto. lia.
    + assert (Hfilled : filled limit (skipped offset)
                          (List.length (matching table scanFilters s ids)) = false).
      { destruct limit as [n|]; auto. cbn [filled].
        destruct Hshort as [->|Hlt]; [reflexivity|].
        apply andb_false_iff. right. apply Nat.leb_gt.
        rewrite length_skipn in Hlt. simpl in Hlt. lia. }
      now rewrite Hfilled.
Qed.

(** C8, as the code has it.  Over the candidate ids in their order, with
    an offset and a limit that are not negative, the loop returns the
    matches from position [offset] on, at most [limit] of them when the
    limit is positive and all of them when it is zero or not given: the
    sub-range [[offset, offset + limit)] of the match sequence.  It changes
    no stored value.  When there are matches enough to fill a positive
    limit, the loop stops at the id of the match that fills it, the match
    number [offset + limit]: the ids visited end with that id, and the ids
    after it are not come to.  Otherwise it comes to every id. *)
Theorem pagination_returns_subrange table scanFilters limit offset ids s :
  natural limit -> natural offset ->
  exists rest s',
    Database.collect table scanFilters limit ids (Number offset) [] s
    = (Returned
         (paginate limit (skipped offset) (matching table scanFilters s ids),
          rest), s')
    /\ (forall k, view s' k = view s k)
    /\ exists visited,
         ids = (visited ++ rest)%list
         /\ if filled limit (skipped offset)
                 (List.length (matching table scanFilters s ids))
            then exists before id n,
                   visited = (before ++ [id])%list
                   /\ limit = Some n
                   /\ matching table scanFilters s [id] <> []
                   /\ List.length (matching table scanFilters s before) + 1
                      = skipped offset + Z.to_nat n
            else rest = [].
Proof. apply pagination_subrange_of_collect. Qed.

Lemma pagination_returns_subrange_witness :
  natural (Some 1%Z) /\ natural (Some 1%Z) /\
  exists rest s',
    Database.collect comments [] (Some 1%Z)
      [JStr "1"; JStr "2"; JStr "3"; JStr "4"] (Number (Some 1%Z)) []
      (written_to comments two_comments (MemoryStorage.new None))
    = (Returned
         (paginate (Some 1%Z) (skipped (Some 1%Z))
            (matching comments []
               (written_to comments two_comments (MemoryStorage.new None))
               [JStr "1"; JStr "2"; JStr "3"; JStr "4"]),
          rest), s')
    /\ rest = [JStr "3"; JStr "4"]
    /\ exists visited,
         [JStr "1"; JStr "2"; JStr "3"; JStr "4"] = (visited ++ rest)%list
         /\ if filled (Some 1%Z) (skipped (Some 1%Z))
                 (List.length
                    (matching comments []
                       (written_to comments two_comments (MemoryStorage.new None))
                       [JStr "1"; JStr "2"; JStr "3"; JStr "4"]))
            then exists before id n,
                   visited = (before ++ [id])%list
                   /\ Some 1%Z = Some n
                   /\ matching comments []
                        (written_to comments two_comments (MemoryStorage.new None))
                        [id] <> []
                   /\ List.length
                        (matching comments []
                           (written_to comments two_comments
                              (MemoryStorage.new None)) before) + 1
                      = skipped (Some 1%Z) + Z.to_nat n
            else rest = [].
Proof.
  split; [simpl; lia|]. split; [simpl; lia|].
  destruct (pagination_returns_subrange comments [] (Some 1%Z) (Some 1%Z)
              [JStr "1"; JStr "2"; JStr "3"; JStr "4"]
              (written_to comments two_comments (MemoryStorage.new None)))
    as [rest [s' [Hrun [_ Hstop]]]]; [simpl; lia | simpl; lia |].
  exists rest, s'. split; [exact Hrun|]. split; [|exact Hstop].
  assert (Hrest : snd (match Database.collect comments [] (Some 1%Z)
                               [JStr "1"; JStr "2"; JStr "3"; JStr "4"]
                               (Number (Some 1%Z)) []
                               (written_to comments two_comments
                                  (MemoryStorage.new None))
                       with
                       | (Returned found, _) => found
                       | (Threw _, _) => ([], [])
                       end)
                  = [JStr "3"; JStr "4"]) by reflexivity.
  rewrite Hrun in Hrest. exact Hrest.
Defined.

(** C8, as stated, fails at a limit of zero: the one match is returned. *)
Lemma limit_zero_returns_rows :
  fst (Database.collect comments [] (Some 0%Z) [JStr "1"] (Number None) []
         one_comment)
  = Returned ([SObj [("id", JStr "1")]], [])
  /\ ~ (List.length [SObj [("id", JStr "1")]] <= Z.to_nat 0).
Proof. split; [reflexivity | simpl; lia]. Qed.

(** The same at the level of [queryTable]: when the plan is made, the rows
    returned are the sub-range of the matches of the planned ids. *)
Lemma queryTable_paginates table filter limit offset s p s1 ids :
  Database.plan table filter s = (Returned p, s1) ->
  Database.plan_ids p = Some ids ->
  natural limit -> natural offset ->
  exists s2,
    Database.queryTable table filter (MkPagination limit offset) s
    = (Returned
         (MkResult
            (paginate limit (skipped offset)
               (matching table (Database.scanFilters p) s1 ids))
            (Database.plan_indexes p)), s2)
    /\ forall k, view s2 k = view s1 k.
Proof.
  intros Hplan Hids Hlimit Hoffset.
  unfold Database.queryTable, bind. rewrite Hplan, Hids. simpl.
  destruct (pagination_subrange_of_collect table (Database.scanFilters p)
              limit offset ids s1 Hlimit Hoffset) as [rest [s2 [Hrun [Hv _]]]].
  rewrite Hrun. simpl. unfold ret. eauto.
Qed.

(* ================================================================== *)
(** * What a query reads *)
(* ================================================================== *)

Lemma unchanged_refl s : unchanged s s.
Proof. split; auto. Qed.

Lemma unchanged_trans s1 s2 s3 :
  unchanged s1 s2 -> unchanged s2 s3 -> unchanged s1 s3.
Proof.
  intros [Hv1 Hs1] [Hv2 Hs2]. split.
  - intros k. now rewrite Hv2.
  - intros H. specialize (Hs1 H). subst s2. auto.
Qed.

Lemma reads_ret {A} (a : A) : reads (ret a).
Proof. intros s. apply unchanged_refl. Qed.

Lemma reads_throw {A} e : reads (@throw A e).
Proof. intros s. apply unchanged_refl. Qed.

Lemma reads_bind {A B} (m : Action A) (f : A -> Action B) :
  reads m -> (forall a, reads (f a)) -> reads (bind m f).
Proof.
  intros Hm Hf s. unfold bind. specialize (Hm s).
  destruct (m s) as [[a|e] s1]; simpl in *; auto.
  eapply unchanged_trans; [exact Hm | apply Hf].
Qed.

Lemma reads_getItem key : reads (Storage.getItem key).
Proof.
  intros s. rewrite getItem_run. cbn [snd]. split.
  - intros k. apply view_getItem.
  - destruct s as [state pending [fb|]]; [discriminate | reflexivity].
Qed.

Lemma reads_getAllKeys : reads Storage.getAllKeys.
Proof. intros s. apply unchanged_refl. Qed.

Lemma reads_use_group ids indexes indexKey group :
  reads (Database.use_group ids indexes indexKey group).
Proof.
  unfold Database.use_group.
  destruct (decode_all _); [apply reads_ret | apply reads_throw].
Qed.

Lemma reads_function_indexes table filter entries : forall ids indexes,
  reads (Database.function_indexes table filter entries ids indexes).
Proof.
  induction entries as [|[n [c|f]] entries IH]; intros ids indexes;
    cbn [Database.function_indexes].
  - apply reads_ret.
  - apply IH.
  - apply reads_bind; [apply reads_getItem|]. intros stored.
    destruct (is_undefined _); [apply IH|].
    destruct (find _ _); [|apply IH].
    apply reads_bind; [apply reads_use_group|]. intros found. apply IH.
Qed.

Lemma reads_column_indexes table entries : forall p,
  reads (Database.column_indexes table entries p).
Proof.
  induction entries as [|[name v] entries IH]; intros p;
    cbn [Database.column_indexes].
  - apply reads_ret.
  - destruct (Database.column_index table name); [|apply IH].
    destruct (String.eqb _ _); [apply IH|].
    apply reads_bind; [apply reads_getItem|]. intros stored.
    destruct (Database.find_group _ _); [|apply IH].
    apply reads_bind; [apply reads_use_group|]. intros found. apply IH.
Qed.

Lemma reads_plan table filter : reads (Database.plan table filter).
Proof.
  unfold Database.plan.
  apply reads_bind; [apply reads_function_indexes|]. intros found.
  apply reads_bind; [apply reads_column_indexes|]. intros p.
  destruct (Database.plan_ids p); [apply reads_ret|].
  apply reads_bind; [apply reads_getAllKeys|]. intros keys.
  destruct (Database.scanned_ids _ _); [apply reads_ret | apply reads_throw].
Qed.

Lemma reads_collect table scanFilters limit ids : forall o result,
  reads (Database.collect table scanFilters limit ids o result).
Proof.
  induction ids as [|id ids IH]; intros o result; cbn [Database.collect].
  - apply reads_ret.
  - apply reads_bind; [apply reads_getItem|]. intros row.
    destruct (negb _); [apply IH|].
    destruct (Database.matches _ _); [|apply IH].
    destruct (truthy o); [apply IH|].
    destruct (limit_reached _ _); [apply reads_ret | apply IH].
Qed.

Lemma reads_queryTable table filter paginationProps :
  reads (Database.queryTable table filter paginationProps).
Proof.
  unfold Database.queryTable.
  apply reads_bind; [apply reads_plan|]. intros p.
  apply reads_bind; [apply reads_collect|]. intros found. apply reads_ret.
Qed.

(* ================================================================== *)
(** * The key-path entry of a filter *)
(* ================================================================== *)

Lemma only_intersect v ids groupIds :
  only v ids -> only v (Some (Database.intersect ids groupIds)).
Proof.
  intros [l [-> Hl]]. simpl. eexists. split; [reflexivity|].
  intros id Hin. apply filter_In in Hin. now apply Hl.
Qed.

Lemma only_use_group v ids indexes indexKey group s found s' :
  only v ids ->
  Database.use_group ids indexes indexKey group s = (Returned found, s') ->
  only v (fst found).
Proof.
  intros Honly. unfold Database.use_group.
  destruct (decode_all (Group.ids group)) as [groupIds|]; [|discriminate].
  unfold ret. intros [= <- _]. simpl. now apply only_intersect.
Qed.

Lemma only_function_indexes v table filter entries :
  forall ids indexes s found s',
    only v ids ->
    Database.function_indexes table filter entries ids indexes s
    = (Returned found, s') ->
    only v (fst found).
Proof.
  induction entries as [|[indexName [columnName|indexFactory]] rest IH];
    intros ids indexes s found s' Honly; simpl.
  - unfold ret. now intros [= <- _].
  - now apply IH.
  - unfold bind at 1. rewrite getItem_run.
    destruct (is_undefined _); [now apply IH|].
    destruct (find _ _) as [group|]; [|now apply IH].
    unfold bind.
    destruct (Database.use_group ids indexes _ group _) as [[found1|e] s1] eqn:Hg;
      [|discriminate].
    apply IH. eapply only_use_group; eauto.
Qed.

Lemma only_column_indexes v table entries :
  forall p s p' s',
    only v (Database.plan_ids p) ->
    Database.column_indexes table entries p s = (Returned p', s') ->
    only v (Database.plan_ids p').
Proof.
  induction entries as [|[name fv] rest IH]; intros p s p' s' Honly; simpl.
  - unfold ret. now intros [= <- _].
  - destruct (Database.column_index table name) as [indexName|];
      [|now apply IH].
    destruct (String.eqb indexName ""); [now apply IH|].
    unfold bind at 1. rewrite getItem_run.
    destruct (Database.find_group fv _) as [group|]; [|now apply IH].
    unfold bind.
    destruct (Database.use_group _ _ _ group _) as [[found1|e] s1] eqn:Hg;
      [|discriminate].
    apply IH. simpl. eapply only_use_group; eauto.
Qed.

(** The functions of [queryTable] take nothing from the table but its
    key and its indexes, the seed apart. *)
Lemma function_indexes_keyPath keyPath table filter entries :
  forall ids indexes s,
    Database.function_indexes (with_keyPath keyPath table) filter entries
      ids indexes s
    = Database.function_indexes table filter entries ids indexes s.
Proof.
  induction entries as [|[n [c|f]] entries IH]; intros ids indexes s;
    cbn [Database.function_indexes]; auto.
  unfold bind. cbn [with_keyPath Table.key].
  destruct (Storage.getItem _ s) as [[stored|e] s1]; auto.
  destruct (is_undefined _); auto.
  destruct (find _ _); auto.
  destruct (Database.use_group _ _ _ _ s1) as [[found|e] s2]; auto.
Qed.

Lemma column_indexes_keyPath keyPath table entries :
  forall p s,
    Database.column_indexes (with_keyPath keyPath table) entries p s
    = Database.column_indexes table entries p s.
Proof.
  induction entries as [|[name fv] entries IH]; intros p s;
    cbn [Database.column_indexes]; auto.
  change (Database.column_index (with_keyPath keyPath table) name)
    with (Database.column_index table name).
  destruct (Database.column_index table name); auto.
  destruct (String.eqb _ _); auto.
  unfold bind. cbn [with_keyPath Table.key].
  destruct (Storage.getItem _ s) as [[stored|e] s1]; auto.
  destruct (Database.find_group _ _); auto.
  destruct (Database.use_group _ _ _ _ s1) as [[found|e] s2]; auto.
Qed.

Lemma collect_keyPath keyPath table scanFilters limit ids :
  forall o result s,
    Database.collect (with_keyPath keyPath table) scanFilters limit ids o result s
    = Database.collect table scanFilters limit ids o result s.
Proof.
  induction ids as [|id ids IH]; intros o result s; cbn [Database.collect]; auto.
  unfold bind. cbn [with_keyPath Table.key].
  destruct (Storage.getItem _ s) as [[row|e] s1]; auto.
  destruct (negb _); auto.
  destruct (Database.matches _ _); auto.
  destruct (truthy o); auto.
  destruct (limit_reached _ _); auto.
Qed.

(** With the same seed, the key path makes no difference to a query. *)
Lemma queryTable_keyPath keyPath table filter paginationProps s :
  Database.seed (with_keyPath keyPath table) filter = Database.seed table filter ->
  Database.queryTable (with_keyPath keyPath table) filter paginationProps s
  = Database.queryTable table filter paginationProps s.
Proof.
  intros Hseed. unfold Database.queryTable, Database.plan. rewrite Hseed.
  unfold bind. rewrite function_indexes_keyPath.
  change (Table.indexes (with_keyPath keyPath table)) with (Table.indexes table).
  destruct (Database.function_indexes table filter _ _ _ s) as [[found|e] s1];
    auto.
  rewrite column_indexes_keyPath.
  destruct (Database.column_indexes table filter _ s1) as [[p|e] s2]; auto.
  change (Table.key (with_keyPath keyPath table)) with (Table.key table).
  destruct (Database.plan_ids p).
  - unfold ret. rewrite collect_keyPath. reflexivity.
  - unfold Storage.getAllKeys.
    destruct (Database.scanned_ids _ _); auto.
    unfold ret. rewrite collect_keyPath. reflexivity.
Qed.

Lemma use_group_run ids indexes indexKey group s found s' :
  Database.use_group ids indexes indexKey group s = (Returned found, s') ->
  s' = s /\ snd found = (indexes ++ [indexKey])%list.
Proof.
  unfold Database.use_group.
  destruct (decode_all _); [|discriminate].
  unfold ret. intros [= <- <-]. auto.
Qed.

Lemma column_indexes_compared table column v s0 entries :
  forall p s p' s',
    (forall k, view s k = view s0 k) ->
    NoDup (map fst entries) ->
    Database.column_indexes table entries p s = (Returned p', s') ->
    In (column, Literal v) entries
    \/ (~ In column (map fst entries) /\ compared table s0 column v p) ->
    compared table s0 column v p'.
Proof.
  induction entries as [|[name fv] rest IH]; intros p s p' s' Hv Hnd Hrun Hpre;
    cbn [Database.column_indexes] in Hrun.
  - unfold ret in Hrun. injection Hrun as <- _.
    destruct Hpre as [[]|[_ H]]. exact H.
  - cbn [map fst] in Hnd. inversion Hnd as [|? ? Hnotin Hnd']; subst.
    set (unindexed := Database.MkPlan (Database.plan_ids p)
                        (Database.plan_indexes p)
                        (obj_set name fv (Database.scanFilters p))) in *.
    (* the entry ends among the scan filters *)
    assert (Hscan : forall s1,
               (forall k, view s1 k = view s0 k) ->
               Database.column_indexes table rest unindexed s1 = (Returned p', s') ->
               compared table s0 column v p').
    { intros s1 Hv1 Hrest. apply (IH unindexed s1 p' s' Hv1 Hnd' Hrest).
      destruct Hpre as [[Hhead|Hin]|[Hnot Hp]].
      - injection Hhead as -> ->. right. split; auto.
        left. unfold unindexed. cbn [Database.scanFilters].
        apply obj_get_set_same.
      - now left.
      - right. split; [intros H; apply Hnot; now right|].
        destruct Hp as [Hp|Hp]; [left | now right].
        unfold unindexed. cbn [Database.scanFilters].
        rewrite obj_get_set_other; auto.
        intros ->. apply Hnot. now left. }
    destruct (Database.column_index table name) as [indexName|] eqn:Hcol;
      [|now apply (Hscan s)].
    destruct (String.eqb indexName ""); [now apply (Hscan s)|].
    unfold bind at 1 in Hrun. rewrite getItem_run in Hrun.
    set (s1 := snd (MemoryStorage.getItem s
                      (storageKey.index (Table.key table) indexName))) in *.
    assert (Hv1 : forall k, view s1 k = view s0 k).
    { intros k. unfold s1. now rewrite view_getItem. }
    destruct (Database.find_group fv _) as [group|] eqn:Hfind;
      [|now apply (Hscan s1)].
    unfold bind at 1 in Hrun.
    destruct (Database.use_group _ _ _ group s1) as [[found|e] s2] eqn:Huse;
      [|discriminate].
    apply use_group_run in Huse as [-> Hindexes].
    apply (IH _ s1 p' s' Hv1 Hnd' Hrun).
    destruct Hpre as [[Hhead|Hin]|[Hnot Hp]].
    + injection Hhead as -> ->. right. split; auto.
      right. exists indexName, group. split; auto.
      cbn [Database.plan_indexes]. rewrite Hindexes.
      split; [apply in_or_app; right; now left|].
      cbn [Database.find_group] in Hfind. apply find_some in Hfind as [Hin Heq].
      unfold index_of. rewrite <- Hv. auto.
    + now left.
    + right. split; [intros H; apply Hnot; now right|].
      destruct Hp as [Hp|[n [g [H1 [H2 H3]]]]]; [now left | right].
      exists n, g. split; auto. split; auto.
      cbn [Database.plan_indexes]. rewrite Hindexes.
      apply in_or_app. now left.
Qed.

(** C7, as the code has it.  A filter that gives the key-path column a
    truthy literal seeds the candidate ids with exactly that value, and
    whatever the indexes then do, the plan never holds another id.  A
    falsy literal seeds nothing, and the query is then the query of a table
    with any other key path for which the filter gives nothing truthy: the
    entry is an entry like the others.  Either way the literal is compared
    and never called: it is among the scan filters, where a row is matched
    by [row[keyPath] === v], or it is answered by the index on the key
    path, from a group whose value is strictly equal to it.  (A filter is
    a JavaScript object, so no key comes twice.) *)
Theorem key_path_literal_seeds_candidates table filter v :
  obj_get filter (Table.keyPath table) = Some (Literal v) ->
  NoDup (obj_keys filter) ->
  ordinary (Table.keyPath table) = true ->
  (truthy v = true ->
   Database.seed table filter = Some [v]
   /\ forall s p s',
        Database.plan table filter s = (Returned p, s') ->
        only v (Database.plan_ids p))
  /\ (truthy v = false ->
      Database.seed table filter = None
      /\ forall keyPath paginationProps s,
           ordinary keyPath = true ->
           truthy (filter_prop filter keyPath) = false ->
           Database.queryTable table filter paginationProps s
           = Database.queryTable (with_keyPath keyPath table) filter
               paginationProps s)
  /\ forall s p s',
       Database.plan table filter s = (Returned p, s') ->
       compared table s (Table.keyPath table) v p.
Proof.
  intros Hget Hnd _.
  assert (Hprop : filter_prop filter (Table.keyPath table) = v).
  { unfold filter_prop. now rewrite Hget. }
  split; [|split].
  - intros Htruthy.
    assert (Hseed : Database.seed table filter = Some [v]).
    { unfold Database.seed. now rewrite Hprop, Htruthy. }
    split; [exact Hseed|].
    intros s p s'. unfold Database.plan. rewrite Hseed. unfold bind at 1.
    destruct (Database.function_indexes table filter _ _ _ s)
      as [[found|e] s1] eqn:Hf; [|discriminate].
    assert (Hfound : only v (fst found)).
    { eapply only_function_indexes; [|exact Hf].
      exists [v]. split; auto. intros id [<-|[]]. reflexivity. }
    unfold bind at 1.
    destruct (Database.column_indexes table filter _ s1)
      as [[p1|e] s2] eqn:Hc; [|discriminate].
    assert (Hp1 : only v (Database.plan_ids p1)).
    { eapply only_column_indexes; [|exact Hc]. exact Hfound. }
    destruct Hp1 as [l [Hl Hin]]. rewrite Hl. unfold ret.
    intros [= <- _]. exists l. auto.
  - intros Hfalsy.
    assert (Hseed : Database.seed table filter = None).
    { unfold Database.seed. now rewrite Hprop, Hfalsy. }
    split; [exact Hseed|].
    intros keyPath paginationProps s _ Hother. symmetry.
    apply queryTable_keyPath. rewrite Hseed.
    unfold Database.seed. cbn [with_keyPath Table.keyPath]. now rewrite Hother.
  - intros s p s'. unfold Database.plan. unfold bind at 1.
    pose proof (reads_function_indexes table filter (Table.indexes table)
                  (Database.seed table filter) [] s) as [Hv1 _].
    destruct (Database.function_indexes table filter _ _ _ s)
      as [[found|e] s1] eqn:Hf; [|discriminate].
    cbn [snd] in Hv1. unfold bind at 1.
    destruct (Database.column_indexes table filter _ s1)
      as [[p1|e] s2] eqn:Hc; [|discriminate].
    assert (Hp1 : compared table s (Table.keyPath table) v p1).
    { apply (column_indexes_compared table _ v s filter _ s1 p1 s2 Hv1 Hnd Hc).
      left. now apply obj_get_In. }
    destruct (Database.plan_ids p1).
    + unfold ret. now intros [= <- _].
    + unfold bind, Storage.getAllKeys.
      destruct (Database.scanned_ids _ _); [|discriminate].
      unfold ret. intros [= <- _]. exact Hp1.
Qed.

Lemma key_path_literal_seeds_candidates_witness :
  obj_get [("active", Literal (JBool true)); ("id", Literal (JStr "1"))]
    (Table.keyPath comments)
  = Some (Literal (JStr "1"))
  /\ NoDup (obj_keys [("active", Literal (JBool true)); ("id", Literal (JStr "1"))])
  /\ ordinary (Table.keyPath comments) = true
  /\ truthy (JStr "1") = true
  /\ Database.seed comments
       [("active", Literal (JBool true)); ("id", Literal (JStr "1"))]
     = Some [JStr "1"]
  /\ (forall s p s',
        Database.plan comments
          [("active", Literal (JBool true)); ("id", Literal (JStr "1"))] s
        = (Returned p, s') ->
        only (JStr "1") (Database.plan_ids p)
        /\ compared comments s (Table.keyPath comments) (JStr "1") p)
  /\ fst (Database.queryTable comments
            [("active", Literal (JBool true)); ("id", Literal (JStr "1"))]
            (MkPagination None None)
            (written_to comments two_comments (MemoryStorage.new None)))
     = Returned
         (MkResult [SObj [("id", JStr "1"); ("active", JBool true)]]
            ["comments/indexes/enabled"; "comments/indexes/primary"])
  /\ truthy (JNum 0) = false
  /\ Database.seed comments [("id", Literal (JNum 0))] = None
  /\ (forall paginationProps s,
        Database.queryTable comments [("id", Literal (JNum 0))]
          paginationProps s
        = Database.queryTable (with_keyPath "uid" comments)
            [("id", Literal (JNum 0))] paginationProps s).
Proof.
  assert (Hnd : NoDup (obj_keys [("active", Literal (JBool true));
                                 ("id", Literal (JStr "1"))])).
  { repeat constructor; simpl; intuition discriminate. }
  assert (Hnd0 : NoDup (obj_keys [("id", Literal (JNum 0))])).
  { repeat constructor; simpl; intuition discriminate. }
  destruct (key_path_literal_seeds_candidates comments
              [("id", Literal (JNum 0))] (JNum 0) eq_refl Hnd0 eq_refl)
    as [_ [Hfalsy _]].
  destruct (Hfalsy eq_refl) as [Hseed0 Hsame].
  destruct (key_path_literal_seeds_candidates comments
              [("active", Literal (JBool true)); ("id", Literal (JStr "1"))]
              (JStr "1") eq_refl Hnd eq_refl) as [Htruthy [_ Hcompared]].
  destruct (Htruthy eq_refl) as [Hseed Honly].
  split; [reflexivity|]. split; [exact Hnd|]. split; [reflexivity|].
  split; [reflexivity|]. split; [exact Hseed|].
  split; [intros s p s' Hplan;
          split; [eapply Honly | eapply Hcompared]; exact Hplan|].
  split; [reflexivity|]. split; [reflexivity|]. split; [exact Hseed0|].
  intros paginationProps s. now apply Hsame.
Defined.

(** C7, as stated, fails for the literal [0]: nothing is seeded, and the
    plan scans the whole table. *)
Lemma falsy_key_path_literal_is_not_seeded :
  obj_get [("id", Literal (JNum 0))] (Table.keyPath comments)
  = Some (Literal (JNum 0))
  /\ Database.seed comments [("id", Literal (JNum 0))] = None
  /\ exists p,
       Database.plan comments [("id", Literal (JNum 0))] numbered_comments
       = (Returned p, numbered_comments)
       /\ Database.plan_ids p = Some [JStr "0"; JStr "7"].
Proof.
  split; [reflexivity|]. split; [reflexivity|].
  eexists. split; reflexivity.
Qed.

(* ================================================================== *)
(** * [sync]: a failing merge, a forced table *)
(* ================================================================== *)

(** A table marked [forceSync] is fetched with [null], whatever its
    meta says. *)
Lemma forced_table_fetches_since_null table meta :
  Table.forceSync table = true -> Database.since_of table meta = None.
Proof.
  intros H. unfold Database.since_of. rewrite H. now rewrite andb_false_r.
Qed.

(** C2: [comments] (forced) and [posts] are synced; the deletion predicate
    of [posts] throws while its row is merged.  [sync] propagates the
    error, and in the backing store the meta of [comments] has advanced to
    the time of this sync and the row of [comments] is gone: the meta is
    written through [this.storage], not [trx], and removals reach the
    fallback at once. *)
Theorem failed_sync_leaves_writes :
  view synced_store "comments/meta"
  = SObj [("lastSync", JStr "2020-01-01T00:00:00.000Z")]
  /\ view synced_store "comments/rows/1" = SObj [("id", JStr "1")]
  /\ fst (Database.sync "2020-02-02T00:00:00.000Z" [forced; posts] synced_store)
     = Threw (Raised "bad row")
  /\ view (snd (Database.sync "2020-02-02T00:00:00.000Z" [forced; posts]
                  synced_store)) "comments/meta"
     = SObj [("lastSync", JStr "2020-02-02T00:00:00.000Z")]
  /\ view (snd (Database.sync "2020-02-02T00:00:00.000Z" [forced; posts]
                  synced_store)) "comments/rows/1"
     = undefined.
Proof. repeat split. Qed.

(** C6: [comments] is forced and [comments2] is not.  The sync of both
    returns, and the row of [comments2] is gone from the store: the keys
    cleared for [comments] are the keys that start with the text
    "comments". *)
Theorem forced_sync_clears_other_table :
  view comments2_store "comments2/rows/1" = SObj [("id", JStr "1")]
  /\ Table.forceSync comments2 = false
  /\ fst (Database.sync "2020-02-02T00:00:00.000Z" [forced; comments2]
            comments2_store)
     = Returned tt
  /\ view (snd (Database.sync "2020-02-02T00:00:00.000Z" [forced; comments2]
                  comments2_store)) "comments2/rows/1"
     = undefined.
Proof. repeat split. Qed.

(* ================================================================== *)
(** * Queries through an index *)
(* ================================================================== *)

(** C4: a page whose id is "a%20b" is patched into an empty store and
    is stored with [bookId] "123".  The query for that [bookId] finds
    the index group and returns no row: the id is decoded, though it was
    never encoded, and the row of the id "a b" is looked up. *)
Theorem indexed_query_misses_escaped_id :
  view escaped_store (storageKey.row "pages" (JStr "a%20b")) = SObj escaped_page
  /\ strict_eq (prop escaped_page "bookId") (JStr "123") = true
  /\ fst (Database.queryTable pages [("bookId", Literal (JStr "123"))]
            (MkPagination None None) escaped_store)
     = Returned (MkResult [] ["pages/indexes/byBook"]).
Proof. repeat split. Qed.

(* ================================================================== *)
(** * The key scheme *)
(* ================================================================== *)

Lemma append_assoc (a b c : string) : ((a ++ b) ++ c = a ++ (b ++ c))%string.
Proof. induction a as [|x a IH]; simpl; congruence. Qed.

Lemma append_cancel_l (a b c : string) : (a ++ b = a ++ c)%string -> b = c.
Proof. induction a as [|x a IH]; simpl; intros H; [auto | injection H; auto]. Qed.

Lemma has_slash_append (a b : string) :
  has_slash (a ++ b) = (has_slash a || has_slash b)%bool.
Proof.
  induction a as [|x a IH]; simpl; auto. rewrite IH. now rewrite orb_assoc.
Qed.

Lemma small_cases (n : N) :
  (n < 16)%N ->
  n = 0%N \/ n = 1%N \/ n = 2%N \/ n = 3%N \/ n = 4%N \/ n = 5%N \/ n = 6%N
  \/ n = 7%N \/ n = 8%N \/ n = 9%N \/ n = 10%N \/ n = 11%N \/ n = 12%N
  \/ n = 13%N \/ n = 14%N \/ n = 15%N.
Proof. lia. Qed.

Lemma hex_value_digit (n : N) : (n < 16)%N -> hex_value (hex_digit n) = Some n.
Proof.
  intros H. apply small_cases in H.
  repeat (destruct H as [->|H]; [reflexivity|]). now subst.
Qed.

Lemma hex_digit_no_slash (n : N) :
  (n < 16)%N -> Ascii.eqb (hex_digit n) "/"%char = false.
Proof.
  intros H. apply small_cases in H.
  repeat (destruct H as [->|H]; [reflexivity|]). now subst.
Qed.

Lemma high_nibble (c : ascii) : (N_of_ascii c / 16 < 16)%N.
Proof.
  pose proof (N_ascii_bounded c). apply N.Div0.div_lt_upper_bound. lia.
Qed.

Lemma low_nibble (c : ascii) : (N_of_ascii c mod 16 < 16)%N.
Proof. apply N.mod_lt. discriminate. Qed.

Lemma unreserved_not_percent (c : ascii) : unreserved c = true -> c <> percent.
Proof. intros H ->. discriminate. Qed.

Lemma unreserved_not_slash (c : ascii) :
  unreserved c = true -> Ascii.eqb c "/"%char = false.
Proof.
  intros H. destruct (Ascii.eqb_spec c "/"%char) as [->|]; [discriminate | auto].
Qed.

(** An encoded character can be read back from the front of a string. *)
Lemma encode_char_inj (c1 c2 : ascii) (r1 r2 : string) :
  (encode_char c1 ++ r1 = encode_char c2 ++ r2)%string -> c1 = c2 /\ r1 = r2.
Proof.
  unfold encode_char.
  destruct (unreserved c1) eqn:U1, (unreserved c2) eqn:U2; simpl; intros H.
  - injection H; auto.
  - injection H as Hc _. now apply unreserved_not_percent in U1.
  - injection H as Hc _. symmetry in Hc. now apply unreserved_not_percent in U2.
  - injection H as Hhi Hlo Hr. split; auto.
    apply (f_equal hex_value) in Hhi, Hlo.
    rewrite !hex_value_digit in Hhi, Hlo
      by (apply high_nibble || apply low_nibble).
    injection Hhi as Hhi. injection Hlo as Hlo.
    rewrite <- (ascii_N_embedding c1), <- (ascii_N_embedding c2).
    f_equal.
    rewrite (N.div_mod (N_of_ascii c1) 16), (N.div_mod (N_of_ascii c2) 16)
      by discriminate.
    congruence.
Qed.

Lemma encode_char_nonempty (c : ascii) (r : string) :
  (encode_char c ++ r)%string <> EmptyString.
Proof. unfold encode_char. destruct (unreserved c); discriminate. Qed.

Lemma encodeURIComponent_inj (s1 s2 : string) :
  encodeURIComponent s1 = encodeURIComponent s2 -> s1 = s2.
Proof.
  revert s2. induction s1 as [|c1 r1 IH]; intros [|c2 r2]; simpl; intros H; auto.
  - symmetry in H. now apply encode_char_nonempty in H.
  - now apply encode_char_nonempty in H.
  - apply encode_char_inj in H as [-> H]. f_equal. now apply IH.
Qed.

Lemma encodeURIComponent_no_slash (s : string) :
  has_slash (encodeURIComponent s) = false.
Proof.
  induction s as [|c r IH]; simpl; auto.
  rewrite has_slash_append, IH, orb_false_r. unfold encode_char.
  destruct (unreserved c) eqn:U; simpl.
  - now rewrite unreserved_not_slash.
  - now rewrite !hex_digit_no_slash by (apply high_nibble || apply low_nibble).
Qed.

(** Two strings without a separator that are followed by one are the same
    when the whole is. *)
Lemma segment_inj (x y r r' : string) :
  has_slash x = false -> has_slash y = false ->
  (x ++ String "/" r = y ++ String "/" r')%string -> x = y.
Proof.
  revert y. induction x as [|a x IH]; intros [|b y]; simpl; auto.
  - intros _ Hy H. injection H as <- _. now rewrite Ascii.eqb_refl in Hy.
  - intros Hx _ H. injection H as -> _. now rewrite Ascii.eqb_refl in Hx.
  - intros Hx Hy H. apply orb_false_iff in Hx as [_ Hx], Hy as [_ Hy].
    injection H as -> H. f_equal. now apply IH.
Qed.

Lemma row_key key id :
  storageKey.row key id
  = (storageKey.table key ++ "/rows/" ++ encodeURIComponent (to_string id))%string.
Proof. unfold storageKey.row, storageKey.rows. now rewrite append_assoc. Qed.

Lemma index_key_inj key n n' :
  storageKey.index key n = storageKey.index key n' -> n = n'.
Proof.
  unfold storageKey.index. intros H.
  apply append_cancel_l, append_cancel_l in H.
  now apply encodeURIComponent_inj.
Qed.

Lemma index_key_not_row key n id : storageKey.index key n <> storageKey.row key id.
Proof.
  rewrite row_key. unfold storageKey.index. intros H.
  apply append_cancel_l in H. discriminate.
Qed.

Lemma index_key_not_rowIndex key n id :
  storageKey.index key n <> storageKey.rowIndex key id.
Proof.
  unfold storageKey.index, storageKey.rowIndex. intros H.
  apply append_cancel_l in H. discriminate.
Qed.

Lemma row_key_not_rowIndex key id id' :
  storageKey.row key id <> storageKey.rowIndex key id'.
Proof.
  rewrite row_key. unfold storageKey.rowIndex. intros H.
  apply append_cancel_l, append_cancel_l in H.
  apply (f_equal has_slash) in H.
  rewrite has_slash_append, !encodeURIComponent_no_slash in H. discriminate.
Qed.

Lemma rowIndex_key_inj key id id' :
  storageKey.rowIndex key id = storageKey.rowIndex key id' ->
  to_string id = to_string id'.
Proof.
  unfold storageKey.rowIndex. intros H.
  apply append_cancel_l, append_cancel_l in H.
  apply segment_inj in H; auto using encodeURIComponent_no_slash.
  now apply encodeURIComponent_inj.
Qed.

Lemma rowIndex_eqb_index key id n :
  String.eqb (storageKey.rowIndex key id) (storageKey.index key n) = false.
Proof.
  apply String.eqb_neq. intros E. symmetry in E.
  now apply index_key_not_rowIndex in E.
Qed.

Lemma row_eqb_index key id n :
  String.eqb (storageKey.row key id) (storageKey.index key n) = false.
Proof.
  apply String.eqb_neq. intros E. symmetry in E.
  now apply index_key_not_row in E.
Qed.

(** The key of an index is neither the key of a row nor that of a
    snapshot. *)
Create Rewrite HintDb keys.
#[export] Hint Rewrite rowIndex_eqb_index row_eqb_index : keys.

Ltac at_index_key := autorewrite with keys in *.

Lemma split_slash_plain (s : string) :
  has_slash s = false -> split_slash s = [s].
Proof.
  induction s as [|c s IH]; simpl; auto.
  intros H. apply orb_false_iff in H as [Hc Hs].
  now rewrite Hc, IH.
Qed.

Lemma split_slash_nonempty (s : string) : split_slash s <> [].
Proof.
  induction s as [|c s IH]; simpl; [discriminate|].
  destruct (Ascii.eqb c "/"); [discriminate|].
  destruct (split_slash s); discriminate.
Qed.

Lemma split_slash_segment (a b : string) :
  has_slash a = false ->
  split_slash (a ++ String "/" b) = a :: split_slash b.
Proof.
  induction a as [|c a IH]; simpl; auto.
  intros H. apply orb_false_iff in H as [Hc Ha].
  now rewrite Hc, IH.
Qed.

(* ================================================================== *)
(** * The segments of a key, and the kind of value under it *)
(* ================================================================== *)

Lemma split_meta key :
  split_slash (storageKey.tableMeta key) = [storageKey.table key; "meta"].
Proof.
  unfold storageKey.tableMeta, storageKey.table.
  change "/meta" with (String "/" "meta").
  now rewrite split_slash_segment by apply encodeURIComponent_no_slash.
Qed.

Lemma split_index key n :
  split_slash (storageKey.index key n)
  = [storageKey.table key; "indexes"; encodeURIComponent n].
Proof.
  unfold storageKey.index, storageKey.table.
  change ("/indexes/" ++ encodeURIComponent n)%string
    with (String "/" ("indexes" ++ String "/" (encodeURIComponent n))).
  rewrite split_slash_segment by apply encodeURIComponent_no_slash.
  rewrite split_slash_segment by reflexivity.
  now rewrite split_slash_plain by apply encodeURIComponent_no_slash.
Qed.

Lemma split_row key id :
  split_slash (storageKey.row key id)
  = [storageKey.table key; "rows"; encodeURIComponent (to_string id)].
Proof.
  rewrite row_key. unfold storageKey.table.
  change ("/rows/" ++ encodeURIComponent (to_string id))%string
    with (String "/" ("rows" ++ String "/" (encodeURIComponent (to_string id)))).
  rewrite split_slash_segment by apply encodeURIComponent_no_slash.
  rewrite split_slash_segment by reflexivity.
  now rewrite split_slash_plain by apply encodeURIComponent_no_slash.
Qed.

Lemma split_rowIndex key id :
  split_slash (storageKey.rowIndex key id)
  = [storageKey.table key; "rows"; encodeURIComponent (to_string id); "indexes"].
Proof.
  unfold storageKey.rowIndex, storageKey.table.
  change ("/rows/" ++ encodeURIComponent (to_string id) ++ "/indexes")%string
    with (String "/" ("rows" ++ String "/"
                        (encodeURIComponent (to_string id)
                         ++ String "/" "indexes"))).
  rewrite split_slash_segment by apply encodeURIComponent_no_slash.
  rewrite split_slash_segment by reflexivity.
  now rewrite split_slash_segment by apply encodeURIComponent_no_slash.
Qed.

Lemma kind_ok_meta key x :
  kind_ok (storageKey.tableMeta key) x = object_or_nothing x.
Proof. unfold kind_ok. now rewrite split_meta. Qed.

Lemma kind_ok_row key id x :
  kind_ok (storageKey.row key id) x = object_or_nothing x.
Proof. unfold kind_ok. now rewrite split_row. Qed.

Lemma kind_ok_rowIndex key id x :
  kind_ok (storageKey.rowIndex key id) x = snapshot_or_nothing x.
Proof. unfold kind_ok. now rewrite split_rowIndex. Qed.

Lemma kind_ok_index key n x :
  kind_ok (storageKey.index key n) x = array_or_nothing x.
Proof. unfold kind_ok. now rewrite split_index. Qed.

Lemma kind_ok_undefined k : kind_ok k undefined = true.
Proof.
  unfold kind_ok.
  destruct (split_slash k) as [|a [|b [|c [|d [|e l]]]]]; auto.
  - now destruct (String.eqb b "meta").
  - now destruct (String.eqb b "rows"), (String.eqb b "indexes").
  - now destruct (String.eqb b "rows" && String.eqb d "indexes")%bool.
Qed.



(* ================================================================== *)
(** * Actions, read through [view] *)
(* ================================================================== *)

Lemma rewrites_ext (m : Action unit) key U U' :
  (forall x, U x = U' x) -> rewrites m key U -> rewrites m key U'.
Proof.
  intros HU Hm s. destruct (Hm s) as [s' [Hrun Hv]]. exists s'. split; auto.
  intros k. rewrite Hv. now rewrite HU.
Qed.

Lemma update_rewrites key (f : Stored -> Stored) :
  rewrites (stored <- Storage.getItem key ;; Storage.setItem key (f stored))
           key f.
Proof.
  intros s. unfold bind. rewrite getItem_run. unfold Storage.setItem.
  eexists. split; [reflexivity|]. intros k.
  rewrite view_setItem, view_getItem.
  destruct (String.eqb_spec key k) as [<-|]; reflexivity.
Qed.

Lemma skip_rewrites key : rewrites (ret tt) key (fun x => x).
Proof.
  intros s. exists s. split; [reflexivity|]. intros k.
  now destruct (String.eqb key k).
Qed.

(** A loop whose steps each rewrite a key of their own. *)
Lemma for_each_rewrites (names : list string) (body : string -> Action unit)
    (key_of : string -> string) (U : string -> Stored -> Stored) :
  (forall n, In n names -> rewrites (body n) (key_of n) (U n)) ->
  NoDup (map key_of names) ->
  forall s, exists s',
    for_each names body s = (Returned tt, s')
    /\ forall k,
         view s' k
         = match find (fun n => String.eqb (key_of n) k) names with
           | Some n => U n (view s k)
           | None => view s k
           end.
Proof.
  induction names as [|n rest IH]; intros Hbody Hnodup s; simpl.
  - exists s. auto.
  - inversion Hnodup as [|? ? Hnotin Hrest]; subst.
    destruct (Hbody n (or_introl eq_refl) s) as [s1 [Hrun1 Hv1]].
    destruct (IH (fun m Hm => Hbody m (or_intror Hm)) Hrest s1) as [s' [Hrun Hv]].
    exists s'. unfold bind. rewrite Hrun1. split; auto.
    intros k. rewrite Hv, !Hv1.
    destruct (String.eqb_spec (key_of n) k) as [<-|Hne].
    + destruct (find _ rest) as [m|] eqn:Hfind; auto.
      apply find_some in Hfind as [Hin Heq]. apply String.eqb_eq in Heq.
      exfalso. apply Hnotin. rewrite <- Heq. now apply in_map.
    + reflexivity.
Qed.

Lemma index_keys_NoDup table names :
  NoDup names -> NoDup (map (storageKey.index (Table.key table)) names).
Proof.
  apply Injective_map_NoDup. intros n n'. apply index_key_inj.
Qed.

Lemma index_named_some table names k n :
  index_named table names k = Some n ->
  In n names /\ k = storageKey.index (Table.key table) n.
Proof.
  unfold index_named. intros H. apply find_some in H as [Hin Heq].
  apply String.eqb_eq in Heq. auto.
Qed.

Lemma index_named_index table names n :
  NoDup names -> In n names ->
  index_named table names (storageKey.index (Table.key table) n) = Some n.
Proof.
  unfold index_named. intros _ Hin.
  induction names as [|m rest IH]; simpl; [contradiction|].
  destruct (String.eqb_spec (storageKey.index (Table.key table) m)
              (storageKey.index (Table.key table) n)) as [Heq|Hne].
  - apply index_key_inj in Heq. now subst.
  - destruct Hin as [->|Hin]; [contradiction | auto].
Qed.

Lemma index_named_row table names id :
  index_named table names (storageKey.row (Table.key table) id) = None.
Proof.
  unfold index_named. induction names as [|n rest IH]; simpl; auto.
  destruct (String.eqb_spec (storageKey.index (Table.key table) n)
              (storageKey.row (Table.key table) id)) as [H|]; auto.
  now apply index_key_not_row in H.
Qed.

Lemma index_named_rowIndex table names id :
  index_named table names (storageKey.rowIndex (Table.key table) id) = None.
Proof.
  unfold index_named. induction names as [|n rest IH]; simpl; auto.
  destruct (String.eqb_spec (storageKey.index (Table.key table) n)
              (storageKey.rowIndex (Table.key table) id)) as [H|]; auto.
  now apply index_key_not_rowIndex in H.
Qed.

(** [deleteItem], read through [view]. *)
Lemma deleteItem_run table id s :
  NoDup (obj_keys (Table.indexes table)) ->
  exists s',
    Database.deleteItem table id s = (Returned tt, s')
    /\ forall k,
         view s' k
         = if String.eqb (storageKey.rowIndex (Table.key table) id) k then undefined
           else if String.eqb (storageKey.row (Table.key table) id) k then undefined
           else match index_named table (obj_keys (Table.indexes table)) k with
                | Some n =>
                    unindexed
                      (as_object (view s (storageKey.rowIndex (Table.key table) id)))
                      id n (view s k)
                | None => view s k
                end.
Proof.
  intros Hnodup. unfold Database.deleteItem. cbv zeta. unfold bind at 1.
  rewrite getItem_run.
  set (s0 := snd (MemoryStorage.getItem s _)).
  set (snapshot := as_object (view s _)).
  destruct (for_each_rewrites (obj_keys (Table.indexes table))
              (fun indexName =>
                 stored <- Storage.getItem
                             (storageKey.index (Table.key table) indexName) ;;
                 Storage.setItem (storageKey.index (Table.key table) indexName)
                   (SIndex
                      (if negb (is_undefined (prop snapshot indexName))
                       then map (Database.strip (prop snapshot indexName) id)
                              (as_index stored)
                       else as_index stored)))
              (storageKey.index (Table.key table))
              (unindexed snapshot id)
              (fun n _ => update_rewrites _ (unindexed snapshot id n))
              (index_keys_NoDup table _ Hnodup) s0) as [s1 [Hloop Hv1]].
  unfold bind at 1.
  match goal with
  | |- context [for_each ?names ?body ?s0] =>
      replace (for_each names body s0) with (@Returned unit tt, s1)
        by (symmetry; exact Hloop)
  end.
  unfold bind, Storage.removeItem.
  eexists. split; [reflexivity|]. intros k.
  rewrite !view_removeItem, Hv1. unfold s0. rewrite view_getItem.
  reflexivity.
Qed.

(* ================================================================== *)
(** * Coherent overlays and what a commit publishes *)
(* ================================================================== *)

Lemma coherent_new s : coherent (MemoryStorage.new (Some s)).
Proof. intros k. split; [discriminate | contradiction]. Qed.

Lemma tame_ret {A} (a : A) : tame (ret a).
Proof. intros s H. exact H. Qed.

Lemma tame_call {A} (r : Outcome A) : tame (call r).
Proof. intros s H. exact H. Qed.

Lemma tame_bind {A B} (m : Action A) (k : A -> Action B) :
  tame m -> (forall a, tame (k a)) -> tame (bind m k).
Proof.
  intros Hm Hk s Hs. unfold bind. specialize (Hm s Hs).
  destruct (m s) as [[a|e] s1]; simpl in *; auto. now apply Hk.
Qed.

Lemma tame_for_each {A} (xs : list A) (body : A -> Action unit) :
  (forall x, tame (body x)) -> tame (for_each xs body).
Proof.
  intros Hbody. induction xs as [|x rest IH]; simpl.
  - apply tame_ret.
  - apply tame_bind; auto.
Qed.

Lemma tame_getItem key : tame (Storage.getItem key).
Proof.
  intros [state pending [fb|]] Hs; [|contradiction].
  unfold Storage.getItem. simpl.
  destruct (obj_has state key) eqn:Hkey; simpl; auto.
  destruct (MemoryStorage.getItem fb key) as [v fb'] eqn:Hget. simpl.
  assert (Hv : v = view fb key) by (unfold view; now rewrite Hget).
  assert (Hfb : forall k, view fb' k = view fb k).
  { intros k. replace fb' with (snd (MemoryStorage.getItem fb key))
      by now rewrite Hget. apply view_getItem. }
  intros k. rewrite obj_has_set, read_set, Hfb.
  destruct (Hs k) as [Hhas Hnot].
  destruct (String.eqb_spec key k) as [<-|Hne]; simpl; split; auto; discriminate.
Qed.

Lemma tame_setItem key v : tame (Storage.setItem key v).
Proof.
  intros [state pending [fb|]] Hs; [|contradiction].
  unfold Storage.setItem. simpl.
  intros k. rewrite obj_has_set, read_set, in_app_iff.
  destruct (Hs k) as [Hhas Hnot].
  destruct (String.eqb_spec key k) as [<-|Hne]; simpl; split.
  - intros _. left. right. now left.
  - discriminate.
  - intros H. destruct (Hhas H); auto.
  - intros H [Hin|[Heq|[]]]; auto. contradiction.
Qed.

Lemma tame_removeItem key : tame (Storage.removeItem key).
Proof.
  intros [state pending [fb|]] Hs; [|contradiction].
  unfold Storage.removeItem. simpl.
  intros k. rewrite obj_has_delete, read_delete, in_app_iff, view_removeItem.
  destruct (Hs k) as [Hhas Hnot].
  destruct (String.eqb_spec key k) as [<-|Hne]; simpl; split; auto.
  - intros H. destruct (Hhas H); auto.
  - intros H [Hin|[Heq|[]]]; auto. contradiction.
Qed.

Lemma tame_deleteItem table id : tame (Database.deleteItem table id).
Proof.
  unfold Database.deleteItem.
  apply tame_bind; [apply tame_getItem|]. intros snapshot.
  apply tame_bind.
  - apply tame_for_each. intros indexName.
    apply tame_bind; [apply tame_getItem|]. intros stored. apply tame_setItem.
  - intros _. apply tame_bind; [apply tame_removeItem|].
    intros _. apply tame_removeItem.
Qed.

Lemma tame_database_setItem table item : tame (Database.setItem table item).
Proof.
  unfold Database.setItem.
  apply tame_bind; [apply tame_call|]. intros [|]; [apply tame_deleteItem|].
  apply tame_bind; [apply tame_getItem|]. intros snapshot.
  apply tame_bind; [apply tame_setItem|]. intros _.
  apply tame_bind; [apply tame_setItem|]. intros _.
  apply tame_for_each. intros indexName.
  destruct (_ && _)%bool; [apply tame_ret|].
  apply tame_bind; [apply tame_getItem|]. intros stored. apply tame_setItem.
Qed.

(** What the replay of [commit] leaves in the fallback. *)
Lemma flush_views state pending : forall fb k,
  view (fold_left (MemoryStorage.flush state) pending fb) k
  = if existsb (String.eqb k) pending
    then (if obj_has state k then MemoryStorage.read state k else undefined)
    else view fb k.
Proof.
  induction pending as [|p rest IH]; intros fb k; simpl; auto.
  rewrite IH. unfold MemoryStorage.flush.
  rewrite (String.eqb_sym k p).
  destruct (existsb (String.eqb k) rest); simpl.
  - now rewrite orb_true_r.
  - rewrite orb_false_r.
    destruct (obj_has state p) eqn:Hp.
    + rewrite view_setItem.
      destruct (String.eqb_spec p k) as [<-|]; auto. now rewrite Hp.
    + rewrite view_removeItem.
      destruct (String.eqb_spec p k) as [<-|]; auto. now rewrite Hp.
Qed.

(** A coherent overlay publishes what it shows. *)
Lemma commit_publishes state pending fb k :
  coherent (MemoryStorage.Make state pending (Some fb)) ->
  view (fold_left (MemoryStorage.flush state) pending fb) k
  = view (MemoryStorage.Make state pending (Some fb)) k.
Proof.
  intros Hs. rewrite flush_views, view_layered.
  destruct (Hs k) as [Hhas Hnot].
  destruct (existsb (String.eqb k) pending) eqn:Hin.
  - apply existsb_eqb_In in Hin.
    destruct (obj_has state k); auto. symmetry. auto.
  - assert (Hnotin : ~ In k pending).
    { intros H. apply existsb_eqb_In in H. congruence. }
    destruct (obj_has state k); auto.
    destruct (Hhas eq_refl); [contradiction | congruence].
Qed.

(** A transaction whose body returns and is tame leaves in the storage
    what the body saw at its end. *)
Lemma transaction_commits (fn : Action unit) s trx' :
  tame fn ->
  fn (MemoryStorage.new (Some s)) = (Returned tt, trx') ->
  exists s',
    MemoryStorage.transaction s fn = (Returned tt, s')
    /\ forall k, view s' k = view trx' k.
Proof.
  intros Htame Hrun. unfold MemoryStorage.transaction. rewrite Hrun.
  pose proof (Htame _ (coherent_new s)) as Hcoh. rewrite Hrun in Hcoh.
  simpl in Hcoh. destruct trx' as [state pending [fb|]]; [|contradiction].
  simpl. eexists. split; [reflexivity|].
  intros k. now apply commit_publishes.
Qed.

(* ================================================================== *)
(** * Rows the table calls deleted *)
(* ================================================================== *)

Lemma setItem_deleted table item trx :
  Table.isItemDeleted table item = Returned true ->
  Database.setItem table item trx
  = Database.deleteItem table (prop item (Table.keyPath table)) trx.
Proof.
  intros H. unfold Database.setItem, bind at 1, call. now rewrite H.
Qed.

(** A call that throws does so before it touches the storage. *)
Lemma setItem_throws table item e s :
  Table.isItemDeleted table item = Threw e ->
  Database.setItem table item s = (Threw e, s).
Proof. intros H. unfold Database.setItem, bind, call. now rewrite H. Qed.


Lemma strip_removes remove id index g i :
  In g (map (Database.strip remove id) index) ->
  strict_eq (Group.value g) remove = true ->
  In i (Group.ids g) ->
  strict_eq i id = false.
Proof.
  intros Hg Hvalue Hi. apply in_map_iff in Hg as [g0 [<- _]].
  unfold Database.strip in *.
  destruct (strict_eq (Group.value g0) remove) eqn:E; simpl in *.
  - apply filter_In in Hi as [_ Hi]. now apply negb_true_iff in Hi.
  - congruence.
Qed.

(* ================================================================== *)
(** * Strict equality *)
(* ================================================================== *)

Lemma strict_eq_sym a b : strict_eq a b = strict_eq b a.
Proof.
  destruct a, b; simpl; auto.
  - destruct b, b0; reflexivity.
  - apply Z.eqb_sym.
  - apply String.eqb_sym.
  - apply Nat.eqb_sym.
Qed.

Lemma strict_eq_trans a b c :
  strict_eq a b = true -> strict_eq b c = true -> strict_eq a c = true.
Proof.
  destruct a, b; simpl; try discriminate; destruct c; simpl; try discriminate; auto.
  - destruct b, b0, b1; simpl; auto.
  - rewrite !Z.eqb_eq. congruence.
  - rewrite !String.eqb_eq. congruence.
  - rewrite !Nat.eqb_eq. congruence.
Qed.

Lemma strict_eq_refl a : is_nan a = false -> strict_eq a a = true.
Proof.
  intros H. destruct a; simpl in *; auto; try discriminate.
  - now destruct b.
  - apply Z.eqb_refl.
  - apply String.eqb_refl.
  - apply Nat.eqb_refl.
Qed.

Lemma strict_eq_str i id :
  is_str id = true -> strict_eq i id = true -> i = id.
Proof.
  destruct id; try discriminate. intros _.
  destruct i; simpl; try discriminate.
  rewrite String.eqb_eq. congruence.
Qed.

Lemma strict_eq_str_refl id : is_str id = true -> strict_eq id id = true.
Proof. destruct id; try discriminate. intros _. apply String.eqb_refl. Qed.

Lemma strict_eq_undefined a :
  strict_eq a JUndefined = true -> is_undefined a = true.
Proof. auto. Qed.

(* ================================================================== *)
(** * What [setItem] takes out of and puts into the indexes *)
(* ================================================================== *)

Lemma fold_set_get (cond : string -> bool) (val : string -> JsVal)
    (keys : list string) : forall (init : Obj JsVal) n,
  obj_get
    (fold_left (fun acc k => if cond k then obj_set k (val k) acc else acc)
               keys init) n
  = if (existsb (String.eqb n) keys && cond n)%bool then Some (val n)
    else obj_get init n.
Proof.
  induction keys as [|k rest IH]; intros init n; simpl; auto.
  rewrite IH.
  destruct (existsb (String.eqb n) rest && cond n)%bool eqn:Hrest.
  - apply andb_true_iff in Hrest as [Hin Hc]. rewrite Hin, Hc.
    now rewrite orb_true_r.
  - destruct (String.eqb_spec n k) as [->|Hne]; simpl.
    + destruct (cond k) eqn:Hc.
      * now rewrite obj_get_set_same.
      * reflexivity.
    + rewrite Hrest. destruct (cond k); auto.
      rewrite obj_get_set_other; auto.
Qed.

Lemma existsb_keys {V} (o : Obj V) n :
  existsb (String.eqb n) (obj_keys o) = obj_has o n.
Proof.
  destruct (obj_has o n) eqn:H.
  - apply obj_has_keys in H. now apply existsb_eqb_In.
  - apply obj_has_false_keys in H.
    destruct (existsb (String.eqb n) (obj_keys o)) eqn:E; auto.
    apply existsb_eqb_In in E. contradiction.
Qed.

Lemma removals_get oldIndexes newIndexes n :
  obj_get (Database.removals oldIndexes newIndexes) n
  = if leaves oldIndexes newIndexes n then Some (prop oldIndexes n) else None.
Proof.
  unfold Database.removals, leaves.
  rewrite (fold_set_get
             (fun key => (negb (obj_has newIndexes key)
                          || negb (strict_eq (prop oldIndexes key)
                                             (prop newIndexes key)))%bool)
             (fun key => prop oldIndexes key)).
  now rewrite existsb_keys.
Qed.

Lemma updates_get oldIndexes newIndexes n :
  obj_get (Database.updates oldIndexes newIndexes) n
  = if enters oldIndexes newIndexes n then Some (prop newIndexes n) else None.
Proof.
  unfold Database.updates, enters.
  rewrite (fold_set_get
             (fun key => (negb (is_undefined (prop newIndexes key))
                          && (negb (obj_has oldIndexes key)
                              || negb (strict_eq (prop oldIndexes key)
                                                 (prop newIndexes key))))%bool)
             (fun key => prop newIndexes key)).
  now rewrite existsb_keys.
Qed.

Lemma from_entries_has {V} (entries : list (string * V)) : forall init n,
  obj_has (fold_left (fun o kv => obj_set (fst kv) (snd kv) o) entries init) n
  = (existsb (String.eqb n) (map fst entries) || obj_has init n)%bool.
Proof.
  induction entries as [|[k v] rest IH]; intros init n; simpl; auto.
  rewrite IH, obj_has_set, (String.eqb_sym k n).
  destruct (String.eqb n k), (existsb (String.eqb n) (map fst rest)); auto.
Qed.

Lemma recalculateIndexes_has table item n :
  In n (obj_keys (Table.indexes table)) ->
  obj_has (Database.recalculateIndexes table item) n = true.
Proof.
  intros Hn. unfold Database.recalculateIndexes, obj_from_entries.
  rewrite from_entries_has, map_map. simpl.
  apply orb_true_iff. left. now apply existsb_eqb_In.
Qed.

Lemma prop_not_nan (o : Obj JsVal) n :
  forallb (fun kv => negb (is_nan (snd kv))) o = true ->
  is_nan (prop o n) = false.
Proof.
  unfold prop. induction o as [|[k v] rest IH]; simpl; auto.
  intros H. apply andb_true_iff in H as [Hv Hrest].
  destruct (String.eqb n k); auto. now apply negb_true_iff.
Qed.

Lemma setItem_body_rewrites table oldIndexes newIndexes id n :
  rewrites
    (if (negb (obj_has (Database.removals oldIndexes newIndexes) n)
         && negb (obj_has (Database.updates oldIndexes newIndexes) n))%bool
     then ret tt
     else
       stored <- Storage.getItem (storageKey.index (Table.key table) n) ;;
       Storage.setItem (storageKey.index (Table.key table) n)
         (SIndex
            (Database.reindex
               (prop (Database.removals oldIndexes newIndexes) n)
               (prop (Database.updates oldIndexes newIndexes) n)
               id (as_index stored))))
    (storageKey.index (Table.key table) n)
    (reindexed oldIndexes newIndexes id n).
Proof.
  unfold reindexed.
  destruct (negb (obj_has (Database.removals oldIndexes newIndexes) n)
            && negb (obj_has (Database.updates oldIndexes newIndexes) n))%bool.
  - apply skip_rewrites.
  - apply (update_rewrites _
             (fun x => SIndex
                (Database.reindex
                   (prop (Database.removals oldIndexes newIndexes) n)
                   (prop (Database.updates oldIndexes newIndexes) n)
                   id (as_index x)))).
Qed.

(** [setItem] of a row that is not deleted, read through [view]. *)
Lemma setItem_run table item s :
  Table.isItemDeleted table item = Returned false ->
  NoDup (obj_keys (Table.indexes table)) ->
  exists s',
    Database.setItem table item s = (Returned tt, s')
    /\ forall k,
         view s' k
         = match index_named table (obj_keys (Table.indexes table)) k with
           | Some n =>
               reindexed
                 (as_object
                    (view s (storageKey.rowIndex (Table.key table)
                               (prop item (Table.keyPath table)))))
                 (Database.recalculateIndexes table item)
                 (prop item (Table.keyPath table)) n (view s k)
           | None =>
               if String.eqb (storageKey.rowIndex (Table.key table)
                                (prop item (Table.keyPath table))) k
               then SObj (Database.recalculateIndexes table item)
               else if String.eqb (storageKey.row (Table.key table)
                                     (prop item (Table.keyPath table))) k
                    then SObj item
                    else view s k
           end.
Proof.
  intros Hkept Hnodup. unfold Database.setItem. cbv zeta.
  unfold bind at 1, call. rewrite Hkept.
  unfold bind at 1. rewrite getItem_run.
  set (id := prop item (Table.keyPath table)).
  set (oldIndexes := as_object (view s (storageKey.rowIndex (Table.key table) id))).
  set (newIndexes := Database.recalculateIndexes table item).
  set (s0 := snd (MemoryStorage.getItem s _)).
  unfold bind at 1, Storage.setItem at 1.
  unfold bind at 1, Storage.setItem at 1.
  set (s2 := MemoryStorage.setItem (MemoryStorage.setItem s0 _ _) _ _).
  destruct (for_each_rewrites (obj_keys (Table.indexes table)) _
              (storageKey.index (Table.key table))
              (reindexed oldIndexes newIndexes id)
              (fun n _ => setItem_body_rewrites table oldIndexes newIndexes id n)
              (index_keys_NoDup table _ Hnodup) s2) as [s' [Hloop Hv]].
  exists s'. split; [exact Hloop|].
  intros k. rewrite Hv. fold (index_named table (obj_keys (Table.indexes table)) k).
  unfold s2, s0. rewrite !view_setItem, view_getItem.
  destruct (index_named table (obj_keys (Table.indexes table)) k) as [n|] eqn:Hn;
    [|reflexivity].
  apply index_named_some in Hn as [_ ->].
  at_index_key.
  reflexivity.
Qed.

(* ================================================================== *)
(** * Storages in shape *)
(* ================================================================== *)

Lemma shaped_ext s s' :
  (forall k, view s' k = view s k) -> shaped s -> shaped s'.
Proof. intros Hv Hs k. rewrite Hv. apply Hs. Qed.

(** A storage that stands alone is in shape when each of its entries
    is. *)
Lemma shaped_alone s :
  MemoryStorage.fallback s = None ->
  forallb (fun entry => kind_ok (fst entry) (snd entry)) (MemoryStorage.state s)
  = true ->
  shaped s.
Proof.
  destruct s as [state pending [fb|]]; [discriminate|].
  cbn [MemoryStorage.state]. intros _ H k.
  rewrite view_alone. unfold MemoryStorage.read.
  destruct (obj_get state k) as [v|] eqn:E; [|apply kind_ok_undefined].
  apply obj_get_In in E. rewrite forallb_forall in H. exact (H (k, v) E).
Qed.

Lemma shaped_empty : shaped (MemoryStorage.new None).
Proof. intros k. apply kind_ok_undefined. Qed.

Lemma shaped_new s : shaped s -> shaped (MemoryStorage.new (Some s)).
Proof. apply shaped_ext. apply view_new. Qed.

Lemma recalculateIndexes_keys table item k :
  In k (obj_keys (Database.recalculateIndexes table item)) ->
  In k (obj_keys (Table.indexes table)).
Proof.
  rewrite <- obj_has_keys.
  unfold Database.recalculateIndexes, obj_from_entries.
  rewrite from_entries_has, map_map. cbn [fst obj_has obj_get].
  rewrite orb_false_r. apply existsb_eqb_In.
Qed.

Lemma ordinary_table_names table n :
  ordinary_table table = true ->
  In n (obj_keys (Table.indexes table)) -> ordinary n = true.
Proof.
  unfold ordinary_table. intros H Hn.
  apply andb_true_iff in H as [_ H]. rewrite forallb_forall in H.
  apply in_map_iff in Hn as [entry [<- Hin]].
  specialize (H entry Hin). now apply andb_true_iff in H as [H _].
Qed.

(** What [setItem] and [deleteItem] write is of the kind of its key: the
    writes keep a storage in shape. *)
Lemma shaped_write table w s :
  NoDup (obj_keys (Table.indexes table)) ->
  ordinary_table table = true ->
  shaped s -> shaped (snd (write table w s)).
Proof.
  intros Hnd Hord Hs.
  assert (Hdel : forall id, shaped (snd (Database.deleteItem table id s))).
  { intros id k.
    destruct (deleteItem_run table id s Hnd) as [s' [Hrun Hv]].
    rewrite Hrun. cbn [snd]. rewrite Hv.
    destruct (String.eqb _ k); [apply kind_ok_undefined|].
    destruct (String.eqb _ k); [apply kind_ok_undefined|].
    destruct (index_named table _ k) as [n|] eqn:Hn; [|apply Hs].
    apply index_named_some in Hn as [_ ->]. now rewrite kind_ok_index. }
  destruct w as [item|id]; cbn [write]; [|apply Hdel].
  destruct (Table.isItemDeleted table item) as [[|]|e] eqn:Hd.
  - rewrite setItem_deleted by assumption. apply Hdel.
  - intros k. destruct (setItem_run table item s Hd Hnd) as [s' [Hrun Hv]].
    rewrite Hrun. cbn [snd]. rewrite Hv.
    destruct (index_named table _ k) as [n|] eqn:Hn.
    + apply index_named_some in Hn as [_ ->]. unfold reindexed.
      destruct (_ && _)%bool; [apply Hs | now rewrite kind_ok_index].
    + destruct (String.eqb_spec
                  (storageKey.rowIndex (Table.key table)
                     (prop item (Table.keyPath table))) k) as [<-|_].
      { rewrite kind_ok_rowIndex. cbn [snapshot_or_nothing].
        apply forallb_forall. intros n Hin.
        apply recalculateIndexes_keys in Hin.
        now apply (ordinary_table_names table). }
      destruct (String.eqb_spec
                  (storageKey.row (Table.key table)
                     (prop item (Table.keyPath table))) k) as [<-|_].
      { now rewrite kind_ok_row. }
      apply Hs.
  - now rewrite (setItem_throws table item e s Hd).
Qed.

Lemma shaped_written_to table ws : forall s,
  NoDup (obj_keys (Table.indexes table)) ->
  ordinary_table table = true ->
  shaped s -> shaped (written_to table ws s).
Proof.
  unfold written_to. induction ws as [|w ws IH]; intros s Hnd Hord Hs; simpl.
  - exact Hs.
  - apply IH; auto. now apply shaped_write.
Qed.


(* ================================================================== *)
(** * Groups under [strip], [append] and [reindex] *)
(* ================================================================== *)

Lemma strip_value remove id g :
  Group.value (Database.strip remove id g) = Group.value g.
Proof. unfold Database.strip. now destruct (negb _). Qed.

Lemma append_value add id g :
  Group.value (Database.append add id g) = Group.value g.
Proof. unfold Database.append. now destruct (negb _). Qed.

Lemma strip_ids remove id g i :
  In i (Group.ids (Database.strip remove id g))
  <-> In i (Group.ids g)
      /\ (strict_eq (Group.value g) remove = false \/ strict_eq i id = false).
Proof.
  unfold Database.strip.
  destruct (strict_eq (Group.value g) remove); simpl.
  - rewrite filter_In, negb_true_iff. intuition discriminate.
  - intuition.
Qed.

Lemma append_ids add id g i :
  In i (Group.ids (Database.append add id g))
  <-> In i (Group.ids g) \/ (strict_eq (Group.value g) add = true /\ i = id).
Proof.
  unfold Database.append.
  destruct (strict_eq (Group.value g) add); simpl.
  - rewrite in_app_iff. simpl. intuition.
  - intuition discriminate.
Qed.

Lemma values_apart_map (f : Group.t -> Group.t) index :
  (forall g, Group.value (f g) = Group.value g) ->
  values_apart index -> values_apart (map f index).
Proof.
  intros Hf Hix i j g1 g2 H1 H2 Heq.
  rewrite nth_error_map in H1, H2.
  destruct (nth_error index i) as [a|] eqn:Ha; [|discriminate].
  destruct (nth_error index j) as [b|] eqn:Hb; [|discriminate].
  injection H1 as <-. injection H2 as <-. rewrite !Hf in Heq.
  eapply Hix; eauto.
Qed.

Lemma values_apart_snoc index g :
  values_apart index ->
  (forall g0, In g0 index -> strict_eq (Group.value g0) (Group.value g) = false) ->
  values_apart (index ++ [g])%list.
Proof.
  intros Hix Hnew i j g1 g2 H1 H2 Heq.
  destruct (Nat.lt_ge_cases i (List.length index)) as [Hi|Hi];
    destruct (Nat.lt_ge_cases j (List.length index)) as [Hj|Hj].
  - rewrite nth_error_app1 in H1, H2 by assumption. eapply Hix; eauto.
  - rewrite nth_error_app1 in H1 by assumption.
    rewrite nth_error_app2 in H2 by assumption.
    destruct (j - List.length index) as [|m] eqn:Hm; simpl in H2;
      [|destruct m; discriminate].
    injection H2 as <-. apply nth_error_In in H1.
    rewrite (Hnew _ H1) in Heq. discriminate.
  - rewrite nth_error_app2 in H1 by assumption.
    rewrite nth_error_app1 in H2 by assumption.
    destruct (i - List.length index) as [|m] eqn:Hm; simpl in H1;
      [|destruct m; discriminate].
    injection H1 as <-. apply nth_error_In in H2.
    rewrite strict_eq_sym, (Hnew _ H2) in Heq. discriminate.
  - rewrite nth_error_app2 in H1, H2 by assumption.
    destruct (i - List.length index) as [|m] eqn:Hm; simpl in H1;
      [|destruct m; discriminate].
    destruct (j - List.length index) as [|m'] eqn:Hm'; simpl in H2;
      [|destruct m'; discriminate].
    lia.
Qed.

Lemma reindex_stripped remove add id index :
  Database.reindex remove add id index
  = if negb (is_undefined add) then
      if negb (existsb (fun group => strict_eq (Group.value group) add)
                       (stripped remove id index))
      then (map (Database.append add id) (stripped remove id index)
              ++ [Group.Make add [id]])%list
      else map (Database.append add id) (stripped remove id index)
    else stripped remove id index.
Proof. reflexivity. Qed.

Lemma stripped_values_apart remove id index :
  values_apart index -> values_apart (stripped remove id index).
Proof.
  unfold stripped. destruct (negb _); auto.
  apply values_apart_map. intros g. apply strip_value.
Qed.

Lemma stripped_member remove id index g' i :
  In g' (stripped remove id index) -> In i (Group.ids g') ->
  exists g, In g index /\ Group.value g = Group.value g' /\ In i (Group.ids g)
            /\ (is_undefined remove = true
                \/ strict_eq (Group.value g) remove = false
                \/ strict_eq i id = false).
Proof.
  unfold stripped. destruct (is_undefined remove) eqn:Hr; simpl.
  - intros Hg Hi. exists g'. auto.
  - intros Hg Hi. apply in_map_iff in Hg as [g [<- Hg]].
    apply strip_ids in Hi as [Hi Hor]. exists g.
    rewrite strip_value. intuition.
Qed.

Lemma reindex_values_apart remove add id index :
  values_apart index -> values_apart (Database.reindex remove add id index).
Proof.
  intros Hix. rewrite reindex_stripped.
  pose proof (stripped_values_apart remove id index Hix) as Hs.
  destruct (negb (is_undefined add)); auto.
  assert (Hmap : values_apart (map (Database.append add id)
                                 (stripped remove id index))).
  { apply values_apart_map; auto. intros g. apply append_value. }
  destruct (existsb _ (stripped remove id index)) eqn:Hfound; simpl; auto.
  apply values_apart_snoc; auto.
  intros g0 Hg0. simpl. apply in_map_iff in Hg0 as [g [<- Hg]].
  rewrite append_value.
  destruct (strict_eq (Group.value g) add) eqn:E; auto.
  assert (existsb (fun group => strict_eq (Group.value group) add)
            (stripped remove id index) = true).
  { apply existsb_exists. eauto. }
  congruence.
Qed.

Lemma reindex_defined remove add id index g' :
  (forall g, In g index -> is_undefined (Group.value g) = false) ->
  In g' (Database.reindex remove add id index) ->
  is_undefined (Group.value g') = false.
Proof.
  intros Hix. rewrite reindex_stripped.
  assert (Hs : forall g, In g (stripped remove id index) ->
                         is_undefined (Group.value g) = false).
  { unfold stripped. destruct (negb _); auto.
    intros g Hg. apply in_map_iff in Hg as [g0 [<- Hg0]].
    rewrite strip_value. auto. }
  assert (Hm : forall g, In g (map (Database.append add id)
                                 (stripped remove id index)) ->
                         is_undefined (Group.value g) = false).
  { intros g Hg. apply in_map_iff in Hg as [g0 [<- Hg0]].
    rewrite append_value. auto. }
  destruct (is_undefined add) eqn:Hadd; simpl; auto.
  destruct (existsb _ _); simpl; auto.
  rewrite in_app_iff. intros [H|[<-|[]]]; auto.
Qed.

(** Where an id can be after the loop body: where it was, unless it was
    taken out, or in a group of the value added. *)
Lemma reindex_member remove add id index g' i :
  In g' (Database.reindex remove add id index) -> In i (Group.ids g') ->
  (exists g, In g index /\ Group.value g = Group.value g' /\ In i (Group.ids g)
             /\ (is_undefined remove = true
                 \/ strict_eq (Group.value g) remove = false
                 \/ strict_eq i id = false))
  \/ (i = id /\ is_undefined add = false
      /\ (strict_eq (Group.value g') add = true \/ Group.value g' = add)).
Proof.
  rewrite reindex_stripped.
  assert (Hm : In g' (map (Database.append add id) (stripped remove id index)) ->
               In i (Group.ids g') ->
               (exists g, In g index /\ Group.value g = Group.value g'
                          /\ In i (Group.ids g)
                          /\ (is_undefined remove = true
                              \/ strict_eq (Group.value g) remove = false
                              \/ strict_eq i id = false))
               \/ (i = id /\ strict_eq (Group.value g') add = true)).
  { intros Hg Hi. apply in_map_iff in Hg as [g1 [<- Hg1]].
    apply append_ids in Hi as [Hi|[Hv ->]].
    - left. rewrite append_value. eapply stripped_member; eauto.
    - right. rewrite append_value. auto. }
  destruct (is_undefined add) eqn:Hadd; simpl.
  - intros Hg Hi. left. eapply stripped_member; eauto.
  - destruct (existsb _ _); simpl.
    + intros Hg Hi. destruct (Hm Hg Hi) as [H|[-> H]]; auto.
    + rewrite in_app_iff. intros [Hg|[<-|[]]] Hi.
      * destruct (Hm Hg Hi) as [H|[-> H]]; auto.
      * simpl in Hi. destruct Hi as [<-|[]]. right. auto.
Qed.

(* ================================================================== *)
(** * The indexes under [setItem] and [deleteItem] *)
(* ================================================================== *)

Lemma to_string_str_inj i id :
  is_str i = true -> is_str id = true -> to_string i = to_string id -> i = id.
Proof.
  destruct i; try discriminate. destruct id; try discriminate.
  simpl. congruence.
Qed.

Lemma prop_absent (o : Obj JsVal) n : obj_has o n = false -> prop o n = JUndefined.
Proof. unfold obj_has, prop. now destruct (obj_get o n). Qed.

Lemma removals_has oldIndexes newIndexes n :
  obj_has (Database.removals oldIndexes newIndexes) n
  = leaves oldIndexes newIndexes n.
Proof.
  unfold obj_has. rewrite removals_get.
  now destruct (leaves oldIndexes newIndexes n).
Qed.

Lemma removals_prop oldIndexes newIndexes n :
  prop (Database.removals oldIndexes newIndexes) n
  = if leaves oldIndexes newIndexes n then prop oldIndexes n else JUndefined.
Proof.
  unfold prop at 1. rewrite removals_get.
  now destruct (leaves oldIndexes newIndexes n).
Qed.

Lemma updates_has oldIndexes newIndexes n :
  obj_has (Database.updates oldIndexes newIndexes) n
  = enters oldIndexes newIndexes n.
Proof.
  unfold obj_has. rewrite updates_get.
  now destruct (enters oldIndexes newIndexes n).
Qed.

Lemma updates_prop oldIndexes newIndexes n :
  prop (Database.updates oldIndexes newIndexes) n
  = if enters oldIndexes newIndexes n then prop newIndexes n else JUndefined.
Proof.
  unfold prop at 1. rewrite updates_get.
  now destruct (enters oldIndexes newIndexes n).
Qed.

(** A group that holds a defined value strictly equal to [o] shows that
    [o] is defined. *)
Lemma defined_of_equal a o :
  is_undefined a = false -> strict_eq a o = true -> is_undefined o = false.
Proof.
  intros Ha Heq. destruct o; auto.
  unfold is_undefined in Ha. congruence.
Qed.

(** The members of one index after the loop body of [setItem], in terms
    of what the snapshots record before ([snap]) and after ([snap']). *)
Lemma reindexed_members oldIndexes newIndexes id n x
    (snap snap' : JsVal -> JsVal) :
  is_str id = true ->
  is_nan (prop newIndexes n) = false ->
  obj_has newIndexes n = true ->
  (forall g, In g (as_index x) -> is_undefined (Group.value g) = false) ->
  (forall g i, In g (as_index x) -> In i (Group.ids g) ->
               is_str i = true /\ strict_eq (Group.value g) (snap i) = true) ->
  snap id = prop oldIndexes n ->
  snap' id = prop newIndexes n ->
  (forall i, i <> id -> snap' i = snap i) ->
  forall g' i,
    In g' (as_index (reindexed oldIndexes newIndexes id n x)) ->
    In i (Group.ids g') ->
    is_str i = true /\ strict_eq (Group.value g') (snap' i) = true.
Proof.
  intros Hid Hnan Hnew Hdef Hmem Hsnap Hsnap' Hother g' i.
  assert (Hkeep : forall g, In g (as_index x) -> In id (Group.ids g) ->
                            leaves oldIndexes newIndexes n = false ->
                            strict_eq (Group.value g) (prop newIndexes n) = true).
  { intros g Hg Hi Hleaves. destruct (Hmem g id Hg Hi) as [_ Heq].
    rewrite Hsnap in Heq. unfold leaves in Hleaves. rewrite Hnew in Hleaves.
    simpl in Hleaves.
    destruct (obj_has oldIndexes n) eqn:Hold; simpl in Hleaves.
    - apply negb_false_iff in Hleaves. eapply strict_eq_trans; eauto.
    - rewrite (prop_absent _ _ Hold) in Heq.
      apply strict_eq_undefined in Heq. rewrite (Hdef g Hg) in Heq. discriminate. }
  unfold reindexed. rewrite removals_has, updates_has, removals_prop, updates_prop.
  destruct (negb (leaves oldIndexes newIndexes n)
            && negb (enters oldIndexes newIndexes n))%bool eqn:Hskip.
  - (* the index is not touched *)
    intros Hg Hi. destruct (Hmem g' i Hg Hi) as [Hstr Heq]. split; auto.
    destruct (strict_eq i id) eqn:E.
    + apply strict_eq_str in E; auto. subst i. rewrite Hsnap'.
      apply Hkeep; auto. apply andb_true_iff in Hskip as [Hl _].
      now apply negb_true_iff in Hl.
    + rewrite Hother; auto. intros ->. rewrite strict_eq_str_refl in E; auto.
      discriminate.
  - simpl as_index. intros Hg Hi.
    destruct (reindex_member _ _ _ _ _ _ Hg Hi)
      as [[g [Hgin [Hval [Hiin Hleft]]]] | [-> [Hadd Hval]]].
    + destruct (Hmem g i Hgin Hiin) as [Hstr Heq]. split; auto.
      rewrite <- Hval.
      destruct (strict_eq i id) eqn:E.
      * apply strict_eq_str in E; auto. subst i. rewrite Hsnap'.
        apply Hkeep; auto.
        destruct (leaves oldIndexes newIndexes n) eqn:Hl; auto.
        rewrite Hsnap in Heq.
        pose proof (defined_of_equal _ _ (Hdef g Hgin) Heq) as Ho.
        destruct Hleft as [H|[H|H]]; congruence.
      * rewrite Hother; auto. intros ->. rewrite strict_eq_str_refl in E; auto.
        discriminate.
    + split; auto. rewrite Hsnap'.
      destruct (enters oldIndexes newIndexes n); [|discriminate].
      destruct Hval as [H | ->]; auto. now apply strict_eq_refl.
Qed.

Lemma reindexed_values_apart oldIndexes newIndexes id n x :
  values_apart (as_index x) ->
  values_apart (as_index (reindexed oldIndexes newIndexes id n x)).
Proof.
  intros H. unfold reindexed. destruct (_ && _)%bool; auto.
  simpl. now apply reindex_values_apart.
Qed.

Lemma reindexed_defined oldIndexes newIndexes id n x g' :
  (forall g, In g (as_index x) -> is_undefined (Group.value g) = false) ->
  In g' (as_index (reindexed oldIndexes newIndexes id n x)) ->
  is_undefined (Group.value g') = false.
Proof.
  intros H. unfold reindexed. destruct (_ && _)%bool; auto.
  simpl. now apply reindex_defined.
Qed.

(** The snapshot key of one string id is not that of another. *)
Lemma rowIndex_eqb_str key id i :
  is_str id = true -> is_str i = true ->
  String.eqb (storageKey.rowIndex key id) (storageKey.rowIndex key i)
  = strict_eq i id.
Proof.
  intros Hid Hi.
  destruct (String.eqb_spec (storageKey.rowIndex key id) (storageKey.rowIndex key i))
    as [E|E].
  - apply rowIndex_key_inj in E. apply to_string_str_inj in E; auto.
    subst. symmetry. now apply strict_eq_str_refl.
  - destruct (strict_eq i id) eqn:S; auto.
    apply strict_eq_str in S; auto. subst. contradiction.
Qed.

Lemma row_eqb_rowIndex key id i :
  String.eqb (storageKey.row key id) (storageKey.rowIndex key i) = false.
Proof. apply String.eqb_neq, row_key_not_rowIndex. Qed.

Lemma indexed_setItem table item s s' :
  NoDup (obj_keys (Table.indexes table)) ->
  Table.isItemDeleted table item = Returned false ->
  plain table (Put item) = true ->
  Database.setItem table item s = (Returned tt, s') ->
  indexed table s -> indexed table s'.
Proof.
  intros Hnodup Hkept Hplain Hrun [Hapart Hdef Hmem].
  apply andb_true_iff in Hplain as [Hid Hnan].
  destruct (setItem_run table item s Hkept Hnodup) as [s1 [Hrun1 Hv]].
  rewrite Hrun in Hrun1. injection Hrun1 as <-.
  set (id := prop item (Table.keyPath table)) in *.
  set (oldIndexes := as_object (view s (storageKey.rowIndex (Table.key table) id))) in *.
  set (newIndexes := Database.recalculateIndexes table item) in *.
  assert (Hindex : forall n, In n (obj_keys (Table.indexes table)) ->
             index_of table s' n
             = as_index (reindexed oldIndexes newIndexes id n
                           (view s (storageKey.index (Table.key table) n)))).
  { intros n Hn. unfold index_of. rewrite Hv.
    now rewrite index_named_index. }
  assert (Hsnap : forall i n, is_str i = true ->
             snapshot_value table s' i n
             = if strict_eq i id then prop newIndexes n
               else snapshot_value table s i n).
  { intros i n Hi. unfold snapshot_value. rewrite Hv.
    rewrite index_named_rowIndex, rowIndex_eqb_str by assumption.
    destruct (strict_eq i id); auto.
    now rewrite row_eqb_rowIndex. }
  split.
  - intros n Hn. rewrite Hindex by assumption.
    apply reindexed_values_apart. now apply Hapart.
  - intros n g Hn. rewrite Hindex by assumption.
    apply reindexed_defined. intros g0. now apply Hdef.
  - intros n g i Hn Hg Hi. rewrite Hindex in Hg by assumption.
    assert (Hboth : is_str i = true
                    /\ strict_eq (Group.value g)
                         (if strict_eq i id then prop newIndexes n
                          else snapshot_value table s i n) = true).
    { apply (reindexed_members oldIndexes newIndexes id n
               (view s (storageKey.index (Table.key table) n))
               (fun i => snapshot_value table s i n)
               (fun i => if strict_eq i id then prop newIndexes n
                         else snapshot_value table s i n)); auto.
      - now apply prop_not_nan.
      - now apply recalculateIndexes_has.
      - intros g0. now apply Hdef.
      - now rewrite strict_eq_str_refl.
      - intros i0 Hne. destruct (strict_eq i0 id) eqn:E; auto.
        apply strict_eq_str in E; auto. contradiction. }
    destruct Hboth as [Hstr Heq]. split; auto. now rewrite Hsnap.
Qed.

Lemma indexed_deleteItem table id s s' :
  NoDup (obj_keys (Table.indexes table)) ->
  is_str id = true ->
  Database.deleteItem table id s = (Returned tt, s') ->
  indexed table s -> indexed table s'.
Proof.
  intros Hnodup Hid Hrun [Hapart Hdef Hmem].
  destruct (deleteItem_run table id s Hnodup) as [s1 [Hrun1 Hv]].
  rewrite Hrun in Hrun1. injection Hrun1 as <-.
  assert (Hindex : forall n, In n (obj_keys (Table.indexes table)) ->
             index_of table s' n
             = stripped (snapshot_value table s id n) id (index_of table s n)).
  { intros n Hn. unfold index_of. rewrite Hv.
    at_index_key.
    now rewrite index_named_index. }
  assert (Hsnap : forall i n, is_str i = true -> strict_eq i id = false ->
             snapshot_value table s' i n = snapshot_value table s i n).
  { intros i n Hi Hne. unfold snapshot_value. rewrite Hv.
    rewrite rowIndex_eqb_str, Hne by assumption.
    rewrite String.eqb_sym, (proj2 (String.eqb_neq _ _)).
    - now rewrite index_named_rowIndex.
    - intros E. symmetry in E. now apply row_key_not_rowIndex in E. }
  assert (Hfrom : forall n g' i, In n (obj_keys (Table.indexes table)) ->
             In g' (index_of table s' n) -> In i (Group.ids g') ->
             exists g, In g (index_of table s n)
                       /\ Group.value g = Group.value g'
                       /\ In i (Group.ids g)
                       /\ strict_eq i id = false).
  { intros n g' i Hn Hg Hi. rewrite Hindex in Hg by assumption.
    destruct (stripped_member _ _ _ _ _ Hg Hi) as [g [Hgin [Hval [Hiin Hleft]]]].
    exists g. repeat split; auto.
    destruct (strict_eq i id) eqn:E; auto.
    destruct (Hmem n g i Hn Hgin Hiin) as [Hstr Heq].
    apply strict_eq_str in E; auto. subst i.
    pose proof (defined_of_equal _ _ (Hdef n g Hn Hgin) Heq) as Ho.
    destruct Hleft as [H|[H|H]]; try congruence.
    all: rewrite strict_eq_str_refl in H; auto. }
  split.
  - intros n Hn. rewrite Hindex by assumption.
    apply stripped_values_apart. now apply Hapart.
  - intros n g' Hn Hg. rewrite Hindex in Hg by assumption.
    unfold stripped in Hg. destruct (negb _) in Hg; [|now apply (Hdef n)].
    apply in_map_iff in Hg as [g [<- Hg]]. rewrite strip_value.
    now apply (Hdef n).
  - intros n g' i Hn Hg Hi.
    destruct (Hfrom n g' i Hn Hg Hi) as [g [Hgin [Hval [Hiin Hne]]]].
    destruct (Hmem n g i Hn Hgin Hiin) as [Hstr Heq]. split; auto.
    rewrite Hsnap by assumption. now rewrite <- Hval.
Qed.

Lemma indexed_write table w s :
  NoDup (obj_keys (Table.indexes table)) ->
  plain table w = true ->
  indexed table s -> indexed table (snd (write table w s)).
Proof.
  intros Hnodup Hplain Hs. destruct w as [item|id]; simpl in *.
  - destruct (Table.isItemDeleted table item) as [[|]|e] eqn:Hdel.
    + rewrite setItem_deleted by assumption.
      apply andb_true_iff in Hplain as [Hid _].
      destruct (deleteItem_run table (prop item (Table.keyPath table)) s Hnodup)
        as [s' [Hrun _]].
      rewrite Hrun. simpl. eapply indexed_deleteItem; eauto.
    + destruct (setItem_run table item s Hdel Hnodup) as [s' [Hrun _]].
      rewrite Hrun. simpl. eapply indexed_setItem; eauto.
    + unfold Database.setItem, bind, call. rewrite Hdel. exact Hs.
  - destruct (deleteItem_run table id s Hnodup) as [s' [Hrun _]].
    rewrite Hrun. simpl. eapply indexed_deleteItem; eauto.
Qed.

Lemma indexed_written_to table ws : forall s,
  NoDup (obj_keys (Table.indexes table)) ->
  forallb (plain table) ws = true ->
  indexed table s -> indexed table (written_to table ws s).
Proof.
  unfold written_to. induction ws as [|w rest IH]; intros s Hnodup Hplain Hs; simpl.
  - exact Hs.
  - simpl in Hplain. apply andb_true_iff in Hplain as [Hw Hrest].
    apply IH; auto. now apply indexed_write.
Qed.

Lemma indexed_empty table s :
  (forall n, In n (obj_keys (Table.indexes table)) -> index_of table s n = []) ->
  indexed table s.
Proof.
  intros Hempty. split.
  - intros n Hn i j g1 g2 H1. rewrite (Hempty n Hn) in H1.
    destruct i; discriminate.
  - intros n g Hn Hg. rewrite (Hempty n Hn) in Hg. contradiction.
  - intros n g id Hn Hg. rewrite (Hempty n Hn) in Hg. contradiction.
Qed.

Lemma indexed_one_group table s n :
  In n (obj_keys (Table.indexes table)) ->
  indexed table s -> one_group_per_id (index_of table s n).
Proof.
  intros Hn [Hapart _ Hmem] i j g1 g2 id H1 H2 Hin1 Hin2.
  apply (Hapart n Hn i j g1 g2 H1 H2).
  destruct (Hmem n g1 id Hn (nth_error_In _ _ H1) Hin1) as [_ E1].
  destruct (Hmem n g2 id Hn (nth_error_In _ _ H2) Hin2) as [_ E2].
  eapply strict_eq_trans; [exact E1|]. now rewrite strict_eq_sym.
Qed.

(** C5, as the code has it: from a table whose indexes are empty, after
    any sequence of [setItem] and [deleteItem] calls whose row ids are
    strings and whose index values are not [NaN], every index of the table
    has each row id in at most one of its groups, no two groups of strictly
    equal value, and an id only in a group whose value is strictly equal to
    the value the snapshot of its row records for the index.  The names of
    the table are ordinary and the storage is in shape at the start, and
    it is in shape at the end.  (The index names are those of a JavaScript
    object, so no name comes twice.) *)
Theorem ids_in_at_most_one_group table ws s n :
  NoDup (obj_keys (Table.indexes table)) ->
  ordinary_table table = true ->
  shaped s ->
  (forall m, In m (obj_keys (Table.indexes table)) -> index_of table s m = []) ->
  forallb (plain table) ws = true ->
  In n (obj_keys (Table.indexes table)) ->
  one_group_per_id (index_of table (written_to table ws s) n)
  /\ values_apart (index_of table (written_to table ws s) n)
  /\ (forall g id,
        In g (index_of table (written_to table ws s) n) ->
        In id (Group.ids g) ->
        strict_eq (Group.value g)
          (snapshot_value table (written_to table ws s) id n) = true)
  /\ shaped (written_to table ws s).
Proof.
  intros Hnodup Hord Hshaped Hempty Hplain Hn.
  pose proof (indexed_written_to table ws s Hnodup Hplain
                (indexed_empty table s Hempty)) as Hfinal.
  split; [now apply indexed_one_group|].
  destruct Hfinal as [Hapart _ Hmem].
  split; [now apply Hapart|].
  split; [|now apply shaped_written_to].
  intros g id Hg Hid. now apply (Hmem n g id Hn Hg Hid).
Qed.

Lemma ids_in_at_most_one_group_witness :
  NoDup (obj_keys (Table.indexes pages))
  /\ ordinary_table pages = true
  /\ shaped (MemoryStorage.new None)
  /\ (forall m, In m (obj_keys (Table.indexes pages)) ->
              index_of pages (MemoryStorage.new None) m = [])
  /\ forallb (plain pages) moved_pages = true
  /\ In "byBook" (obj_keys (Table.indexes pages))
  /\ index_of pages (written_to pages moved_pages (MemoryStorage.new None))
       "byBook"
     = [Group.Make (JStr "123") [JStr "b"]; Group.Make (JStr "456") [JStr "a"]]
  /\ one_group_per_id
       (index_of pages (written_to pages moved_pages (MemoryStorage.new None))
          "byBook")
  /\ values_apart
       (index_of pages (written_to pages moved_pages (MemoryStorage.new None))
          "byBook")
  /\ forall g id,
       In g (index_of pages (written_to pages moved_pages (MemoryStorage.new None))
               "byBook") ->
       In id (Group.ids g) ->
       strict_eq (Group.value g)
         (snapshot_value pages
            (written_to pages moved_pages (MemoryStorage.new None)) id "byBook")
       = true.
Proof.
  assert (H1 : NoDup (obj_keys (Table.indexes pages))).
  { simpl. repeat constructor. simpl. tauto. }
  assert (H2 : forall m, In m (obj_keys (Table.indexes pages)) ->
                         index_of pages (MemoryStorage.new None) m = [])
    by (intros m _; reflexivity).
  assert (H3 : forallb (plain pages) moved_pages = true) by reflexivity.
  assert (H4 : In "byBook" (obj_keys (Table.indexes pages))) by (simpl; auto).
  destruct (ids_in_at_most_one_group pages moved_pages (MemoryStorage.new None)
              "byBook" H1 eq_refl shaped_empty H2 H3 H4)
    as [Hone [Hapart [Hmem _]]].
  split; [exact H1|]. split; [reflexivity|]. split; [exact shaped_empty|].
  split; [exact H2|]. split; [exact H3|]. split; [exact H4|].
  split; [reflexivity|]. split; [exact Hone|]. split; [exact Hapart | exact Hmem].
Defined.

(** C5, as stated, fails: a page whose indexed value is [NaN], written
    twice to an empty table, is in two groups of the index. *)
Lemma nan_value_puts_id_in_two_groups :
  index_of pages (written_to pages nan_page_twice (MemoryStorage.new None))
    "byBook"
  = [Group.Make JNaN [JStr "a"]; Group.Make JNaN [JStr "a"]]
  /\ ~ one_group_per_id
         (index_of pages
            (written_to pages nan_page_twice (MemoryStorage.new None))
            "byBook").
Proof.
  split; [reflexivity|].
  intros H.
  specialize (H 0 1 (Group.Make JNaN [JStr "a"]) (Group.Make JNaN [JStr "a"])
                (JStr "a") eq_refl eq_refl (or_introl eq_refl)
                (or_introl eq_refl)).
  discriminate.
Qed.

(** Why the ids have to be strings: the number 1 and the string "1"
    are stored under the same keys, so the snapshot of the one is taken
    for the snapshot of the other. *)
Lemma mixed_ids_share_a_snapshot :
  storageKey.rowIndex "pages" (JNum 1) = storageKey.rowIndex "pages" (JStr "1")
  /\ index_of pages (written_to pages mixed_ids (MemoryStorage.new None)) "byBook"
     = [Group.Make (JNum 5) [JNum 1]; Group.Make (JNum 6) [JStr "1"];
        Group.Make (JNum 7) [JNum 1]].
Proof. split; reflexivity. Qed.

(* ================================================================== *)
(** * [patch] of a row the table calls deleted *)
(* ================================================================== *)

Lemma indexed_ext table s1 s2 :
  (forall k, view s2 k = view s1 k) -> indexed table s1 -> indexed table s2.
Proof.
  intros Hv [Hapart Hdef Hmem].
  assert (Hix : forall n, index_of table s2 n = index_of table s1 n)
    by (intros n; unfold index_of; now rewrite Hv).
  assert (Hsn : forall i n, snapshot_value table s2 i n = snapshot_value table s1 i n)
    by (intros i n; unfold snapshot_value; now rewrite Hv).
  split.
  - intros n Hn. rewrite Hix. now apply Hapart.
  - intros n g Hn. rewrite Hix. now apply Hdef.
  - intros n g id Hn. rewrite Hix, Hsn. now apply Hmem.
Qed.

(** With the indexes in the state the engine keeps, [deleteItem] leaves
    the id in no group. *)
Lemma deleteItem_clears_id table id s s' n g i :
  NoDup (obj_keys (Table.indexes table)) ->
  is_str id = true ->
  Database.deleteItem table id s = (Returned tt, s') ->
  indexed table s ->
  In n (obj_keys (Table.indexes table)) ->
  In g (index_of table s' n) -> In i (Group.ids g) ->
  strict_eq i id = false.
Proof.
  intros Hnodup Hid Hrun [Hapart Hdef Hmem] Hn Hg Hi.
  destruct (deleteItem_run table id s Hnodup) as [s1 [Hrun1 Hv]].
  rewrite Hrun in Hrun1. injection Hrun1 as <-.
  unfold index_of in Hg. rewrite Hv in Hg.
  at_index_key.
  rewrite index_named_index in Hg by assumption.
  change (In g (stripped (snapshot_value table s id n) id (index_of table s n)))
    in Hg.
  destruct (stripped_member _ _ _ _ _ Hg Hi) as [g0 [Hgin [Hval [Hiin Hleft]]]].
  destruct (strict_eq i id) eqn:E; auto.
  destruct (Hmem n g0 i Hn Hgin Hiin) as [Hstr Heq].
  apply strict_eq_str in E; auto. subst i.
  pose proof (defined_of_equal _ _ (Hdef n g0 Hn Hgin) Heq) as Ho.
  destruct Hleft as [H|[H|H]]; try congruence.
  all: rewrite strict_eq_str_refl in H; auto.
Qed.

(** C10, as the code has it: when the deletion predicate of the table
    holds for a row, [patch] of that row stores nothing.  It runs
    [deleteItem] on the row's key-path value, the same call a merge makes
    for such a row, and when it returns the row and its index snapshot are
    gone and, in every index for which the snapshot recorded a value, the
    groups of that value hold no id strictly equal to the row's; with a
    string id and indexes in the state the engine keeps, these are all the
    groups the id was in, and it is in no group at all.  No other key has
    changed.  The names of the table are ordinary and the storage is in
    shape: under the key of a snapshot it holds an object and under the
    key of an index an array, or nothing.  (The index names are those of a
    JavaScript object, so no name comes twice.) *)
Theorem patch_of_deleted_row_deletes table item s :
  Table.isItemDeleted table item = Returned true ->
  NoDup (obj_keys (Table.indexes table)) ->
  ordinary_table table = true ->
  shaped s ->
  (forall trx,
      Database.patch table item true trx
      = Database.deleteItem table (prop item (Table.keyPath table)) trx
      /\ Database.setItem table item trx
         = Database.deleteItem table (prop item (Table.keyPath table)) trx)
  /\ exists s',
       Database.patch table item false s = (Returned tt, s')
       /\ view s' (storageKey.row (Table.key table) (prop item (Table.keyPath table)))
          = undefined
       /\ view s' (storageKey.rowIndex (Table.key table)
                     (prop item (Table.keyPath table)))
          = undefined
       /\ (forall n,
              In n (obj_keys (Table.indexes table)) ->
              view s' (storageKey.index (Table.key table) n)
              = unindexed
                  (as_object
                     (view s (storageKey.rowIndex (Table.key table)
                                (prop item (Table.keyPath table)))))
                  (prop item (Table.keyPath table)) n
                  (view s (storageKey.index (Table.key table) n)))
       /\ (forall n g i,
              In n (obj_keys (Table.indexes table)) ->
              is_undefined
                (prop (as_object
                         (view s (storageKey.rowIndex (Table.key table)
                                    (prop item (Table.keyPath table))))) n)
              = false ->
              In g (as_index (view s' (storageKey.index (Table.key table) n))) ->
              strict_eq (Group.value g)
                (prop (as_object
                         (view s (storageKey.rowIndex (Table.key table)
                                    (prop item (Table.keyPath table))))) n)
              = true ->
              In i (Group.ids g) ->
              strict_eq i (prop item (Table.keyPath table)) = false)
       /\ (is_str (prop item (Table.keyPath table)) = true ->
           indexed table s ->
           forall n g,
             In n (obj_keys (Table.indexes table)) ->
             In g (index_of table s' n) ->
             ~ In (prop item (Table.keyPath table)) (Group.ids g))
       /\ (forall k,
              k <> storageKey.row (Table.key table) (prop item (Table.keyPath table)) ->
              k <> storageKey.rowIndex (Table.key table)
                     (prop item (Table.keyPath table)) ->
              index_named table (obj_keys (Table.indexes table)) k = None ->
              view s' k = view s k)
       /\ shaped s'.
Proof.
  intros Hdeleted Hnodup Hord Hshaped.
  split.
  { intros trx. split; unfold Database.patch; now apply setItem_deleted. }
  set (id := prop item (Table.keyPath table)).
  destruct (deleteItem_run table id (MemoryStorage.new (Some s)) Hnodup)
    as [trx' [Hrun Hv]].
  destruct (transaction_commits (Database.setItem table item) s trx')
    as [s' [Htrx Hs']].
  { apply tame_database_setItem. }
  { rewrite setItem_deleted by assumption. exact Hrun. }
  assert (Hnew : forall k, view (MemoryStorage.new (Some s)) k = view s k).
  { intros k. unfold MemoryStorage.new. now rewrite view_layered. }
  assert (Hindex : forall n,
             In n (obj_keys (Table.indexes table)) ->
             view s' (storageKey.index (Table.key table) n)
             = unindexed
                 (as_object (view s (storageKey.rowIndex (Table.key table) id)))
                 id n (view s (storageKey.index (Table.key table) n))).
  { intros n Hn. rewrite Hs', Hv.
    at_index_key.
    rewrite index_named_index by assumption. now rewrite !Hnew. }
  exists s'. split; [exact Htrx|].
  split.
  { rewrite Hs', Hv.
    destruct (String.eqb_spec (storageKey.rowIndex (Table.key table) id)
                (storageKey.row (Table.key table) id)); auto.
    now rewrite String.eqb_refl. }
  split.
  { rewrite Hs', Hv. now rewrite String.eqb_refl. }
  split; [exact Hindex|].
  split.
  { intros n g i Hn Hdef Hg Hvalue Hi.
    rewrite (Hindex n Hn) in Hg. unfold unindexed in Hg. fold id in Hdef.
    rewrite Hdef in Hg. simpl in Hg.
    eapply strip_removes; eauto. }
  split.
  { intros Hstr Hindexed n g Hn Hg Hin.
    assert (Hg' : In g (index_of table trx' n))
      by (unfold index_of in *; now rewrite <- Hs').
    pose proof (deleteItem_clears_id table id _ trx' n g id Hnodup Hstr Hrun
                  (indexed_ext table s _ Hnew Hindexed) Hn Hg' Hin) as Hne.
    rewrite strict_eq_str_refl in Hne; auto. discriminate. }
  split.
  { intros k Hrow Hsnap Hnone. rewrite Hs', Hv, Hnone, Hnew.
    destruct (String.eqb_spec (storageKey.rowIndex (Table.key table) id) k);
      [congruence|].
    destruct (String.eqb_spec (storageKey.row (Table.key table) id) k);
      [congruence|].
    reflexivity. }
  apply (shaped_ext trx'); [exact Hs'|].
  pose proof (shaped_write table (Delete id) (MemoryStorage.new (Some s))
                Hnodup Hord (shaped_new s Hshaped)) as Hfinal.
  cbn [write] in Hfinal. now rewrite Hrun in Hfinal.
Qed.

Lemma patch_of_deleted_row_deletes_witness :
  Table.isItemDeleted tombstoned tombstone = Returned true
  /\ NoDup (obj_keys (Table.indexes tombstoned))
  /\ ordinary_table tombstoned = true
  /\ shaped (written_to tombstoned two_comments (MemoryStorage.new None))
  /\ is_str (prop tombstone (Table.keyPath tombstoned)) = true
  /\ indexed tombstoned (written_to tombstoned two_comments (MemoryStorage.new None))
  /\ view (written_to tombstoned two_comments (MemoryStorage.new None))
          (storageKey.row "comments" (JStr "1"))
     = SObj [("id", JStr "1"); ("active", JBool true)]
  /\ index_of tombstoned
       (written_to tombstoned two_comments (MemoryStorage.new None)) "enabled"
     = [Group.Make (JBool true) [JStr "1"]; Group.Make (JBool false) [JStr "2"]]
  /\ exists s',
       Database.patch tombstoned tombstone false
         (written_to tombstoned two_comments (MemoryStorage.new None))
       = (Returned tt, s')
       /\ view s' (storageKey.row "comments" (JStr "1")) = undefined
       /\ view s' (storageKey.rowIndex "comments" (JStr "1")) = undefined
       /\ index_of tombstoned s' "enabled"
          = [Group.Make (JBool true) []; Group.Make (JBool false) [JStr "2"]]
       /\ (forall n g,
              In n (obj_keys (Table.indexes tombstoned)) ->
              In g (index_of tombstoned s' n) ->
              ~ In (JStr "1") (Group.ids g))
       /\ view s' (storageKey.row "comments" (JStr "2"))
          = SObj [("id", JStr "2"); ("active", JBool false)].
Proof.
  assert (H1 : Table.isItemDeleted tombstoned tombstone = Returned true)
    by reflexivity.
  assert (H2 : NoDup (obj_keys (Table.indexes tombstoned))).
  { simpl. repeat constructor; simpl; intuition discriminate. }
  assert (H3 : shaped (written_to tombstoned two_comments (MemoryStorage.new None))).
  { apply shaped_written_to; auto using shaped_empty. }
  assert (H4 : indexed tombstoned
                 (written_to tombstoned two_comments (MemoryStorage.new None))).
  { apply indexed_written_to; auto.
    apply indexed_empty. intros n _. reflexivity. }
  split; [exact H1|]. split; [exact H2|]. split; [reflexivity|].
  split; [exact H3|]. split; [reflexivity|]. split; [exact H4|].
  split; [reflexivity|]. split; [reflexivity|].
  destruct (patch_of_deleted_row_deletes tombstoned tombstone
              (written_to tombstoned two_comments (MemoryStorage.new None))
              H1 H2 eq_refl H3)
    as [_ [s' [Hrun [Hrow [Hsnap [Hindex [_ [Hgone [Hrest _]]]]]]]]].
  exists s'. split; [exact Hrun|]. split; [exact Hrow|]. split; [exact Hsnap|].
  split; [|split].
  - unfold index_of. rewrite (Hindex "enabled"); [reflexivity|].
    simpl. auto.
  - exact (Hgone eq_refl H4).
  - rewrite Hrest; [reflexivity | discriminate | discriminate | reflexivity].
Defined.

(** C10, as stated, fails for a row whose indexed value is [NaN]: the row
    is written, then patched as deleted; the row and its snapshot are gone
    and its id is still in the group of the index. *)
Lemma deleted_nan_row_stays_in_group :
  Table.isItemDeleted tombstoned nan_tombstone = Returned true
  /\ index_of tombstoned nan_comment_store "enabled"
     = [Group.Make JNaN [JStr "1"]]
  /\ exists s',
       Database.patch tombstoned nan_tombstone false nan_comment_store
       = (Returned tt, s')
       /\ view s' (storageKey.row "comments" (JStr "1")) = undefined
       /\ view s' (storageKey.rowIndex "comments" (JStr "1")) = undefined
       /\ index_of tombstoned s' "enabled" = [Group.Make JNaN [JStr "1"]].
Proof.
  split; [reflexivity|]. split; [reflexivity|].
  eexists. split; [reflexivity|]. repeat split.
Qed.

(* ================================================================== *)
(** * [MemoryStorage]: reads, keys, transactions *)
(* ================================================================== *)

(** On any chain of overlays that is tidy, and for keys that are
    ordinary, [getItem] gives the value last set for the key and
    [undefined] once the key is removed; a call on another key makes no
    difference to it, and neither does a read.  The calls leave the
    storage tidy. *)
Theorem storage_reads_last_write s key v k :
  tidy s = true ->
  ordinary key = true ->
  ordinary k = true ->
  view (MemoryStorage.setItem s key v) k
  = (if String.eqb key k then v else view s k)
  /\ view (MemoryStorage.removeItem s key) k
     = (if String.eqb key k then undefined else view s k)
  /\ view (snd (MemoryStorage.getItem s key)) k = view s k
  /\ tidy (MemoryStorage.setItem s key v) = true
  /\ tidy (MemoryStorage.removeItem s key) = true
  /\ tidy (snd (MemoryStorage.getItem s key)) = true.
Proof.
  intros Htidy Hkey _.
  split; [apply view_setItem|]. split; [apply view_removeItem|].
  split; [apply view_getItem|].
  split; [now apply tidy_setItem|].
  split; [now apply tidy_removeItem | now apply tidy_getItem].
Qed.

Lemma storage_reads_last_write_witness :
  tidy (MemoryStorage.new (Some store_123)) = true
  /\ ordinary "key" = true
  /\ view (MemoryStorage.setItem (MemoryStorage.new (Some store_123)) "key"
             (SVal (JNum 456))) "key"
     = SVal (JNum 456)
  /\ view (MemoryStorage.removeItem (MemoryStorage.new (Some store_123)) "key")
          "key"
     = undefined
  /\ view (snd (MemoryStorage.getItem (MemoryStorage.new (Some store_123)) "key"))
          "key"
     = SVal (JNum 123).
Proof.
  split; [reflexivity|]. split; [reflexivity|].
  destruct (storage_reads_last_write (MemoryStorage.new (Some store_123))
              "key" (SVal (JNum 456)) "key" eq_refl eq_refl eq_refl)
    as [Hset [Hremove [Hget _]]].
  split; [exact Hset|]. split; [exact Hremove | exact Hget].
Defined.

Lemma getAllKeys_setItem s key v k :
  In k (MemoryStorage.getAllKeys (MemoryStorage.setItem s key v))
  <-> k = key \/ In k (MemoryStorage.getAllKeys s).
Proof.
  destruct s as [state pending [fb|]]; simpl MemoryStorage.setItem.
  - rewrite !getAllKeys_layered, obj_keys_set. tauto.
  - rewrite !getAllKeys_alone, obj_keys_set. tauto.
Qed.

Lemma getAllKeys_removeItem s key k :
  In k (MemoryStorage.getAllKeys (MemoryStorage.removeItem s key))
  <-> k <> key /\ In k (MemoryStorage.getAllKeys s).
Proof.
  induction s as [state pending|state pending fb IH] using storage_ind;
    simpl MemoryStorage.removeItem.
  - rewrite !getAllKeys_alone. apply obj_keys_delete.
  - rewrite !getAllKeys_layered, obj_keys_delete, IH. tauto.
Qed.

(** On a chain of overlays that is tidy, [getAllKeys] lists no key twice;
    after [setItem] of an ordinary key it lists the key, and after
    [removeItem] it does not, at whatever depth of the chain the key was;
    the other keys are listed as before. *)
Theorem keys_follow_writes s key v k :
  tidy s = true ->
  ordinary key = true ->
  NoDup (MemoryStorage.getAllKeys s)
  /\ (In k (MemoryStorage.getAllKeys (MemoryStorage.setItem s key v))
      <-> k = key \/ In k (MemoryStorage.getAllKeys s))
  /\ (In k (MemoryStorage.getAllKeys (MemoryStorage.removeItem s key))
      <-> k <> key /\ In k (MemoryStorage.getAllKeys s)).
Proof.
  intros _ _. split; [apply getAllKeys_NoDup|].
  split; [apply getAllKeys_setItem | apply getAllKeys_removeItem].
Qed.

Lemma keys_follow_writes_witness :
  tidy (MemoryStorage.new (Some store_123)) = true
  /\ ordinary "other" = true
  /\ MemoryStorage.getAllKeys
       (MemoryStorage.setItem (MemoryStorage.new (Some store_123)) "other"
          (SVal (JNum 1)))
     = ["key"; "other"]
  /\ MemoryStorage.getAllKeys
       (MemoryStorage.removeItem (MemoryStorage.new (Some store_123)) "key")
     = []
  /\ (In "key"
         (MemoryStorage.getAllKeys
            (MemoryStorage.removeItem (MemoryStorage.new (Some store_123)) "key"))
      <-> "key"%string <> "key"%string
          /\ In "key" (MemoryStorage.getAllKeys
                         (MemoryStorage.new (Some store_123)))).
Proof.
  split; [reflexivity|]. split; [reflexivity|].
  split; [reflexivity|]. split; [reflexivity|].
  exact (proj2 (proj2 (keys_follow_writes (MemoryStorage.new (Some store_123))
                         "key" (SVal (JNum 1)) "key" eq_refl eq_refl))).
Defined.

(** Reads and writes of a child change nothing that its fallback shows. *)
Lemma buffered_ops_keep_views ops : forall state pending fb,
  forallb buffers ops = true ->
  exists state' pending' fb',
    for_each ops run_op (MemoryStorage.Make state pending (Some fb))
    = (Returned tt, MemoryStorage.Make state' pending' (Some fb'))
    /\ forall k, view fb' k = view fb k.
Proof.
  induction ops as [|op rest IH]; intros state pending fb Hops; simpl in *.
  - exists state, pending, fb. auto.
  - apply andb_true_iff in Hops as [Hop Hrest].
    destruct op; try discriminate; cbn [run_op];
      unfold bind, Storage.getItem, Storage.setItem, ret; simpl.
    + destruct (obj_has state key); simpl; [now apply IH|].
      destruct (MemoryStorage.getItem fb key) as [v fb1] eqn:Hget.
      destruct (IH (obj_set key v state) pending fb1 Hrest)
        as [st' [pk' [fb' [Hrun Hv]]]].
      exists st', pk', fb'. split; auto.
      intros k. rewrite Hv.
      replace fb1 with (snd (MemoryStorage.getItem fb key)) by now rewrite Hget.
      apply view_getItem.
    + now apply IH.
Qed.

(** A transaction whose body only reads and sets, and then throws,
    re-raises the error and leaves every key of the storage reading as
    before; a storage that stands alone is left exactly as it was.  (The
    storage is tidy and the keys of the calls are ordinary.) *)
Theorem failed_transaction_discards_writes s ops e :
  tidy s = true ->
  forallb ordinary_op ops = true ->
  forallb buffers ops = true ->
  fst (MemoryStorage.transaction s (failing ops e)) = Threw e
  /\ (forall k, view (snd (MemoryStorage.transaction s (failing ops e))) k
                = view s k)
  /\ (MemoryStorage.fallback s = None ->
      snd (MemoryStorage.transaction s (failing ops e)) = s).
Proof.
  intros _ _ Hops.
  assert (Hviews :
            fst (MemoryStorage.transaction s (failing ops e)) = Threw e
            /\ forall k, view (snd (MemoryStorage.transaction s (failing ops e))) k
                         = view s k).
  { unfold MemoryStorage.transaction, failing, bind, MemoryStorage.new.
    destruct (buffered_ops_keep_views ops [] [] s Hops)
      as [st' [pk' [fb' [-> Hv]]]].
    simpl. auto. }
  destruct Hviews as [Hfst Hv]. repeat split; auto.
  destruct s as [state pending [fb|]]; [discriminate|]. intros _.
  now rewrite transaction_rolls_back_writes.
Qed.

Lemma failed_transaction_discards_writes_witness :
  tidy store_123 = true
  /\ forallb ordinary_op [OpGet "key"; OpSet "key" (SVal (JNum 456))] = true
  /\ forallb buffers [OpGet "key"; OpSet "key" (SVal (JNum 456))] = true
  /\ snd (MemoryStorage.transaction store_123
            (failing [OpGet "key"; OpSet "key" (SVal (JNum 456))]
               (Raised "boom")))
     = store_123.
Proof.
  split; [reflexivity|]. split; [reflexivity|]. split; [reflexivity|].
  exact (proj2 (proj2 (failed_transaction_discards_writes store_123
                         [OpGet "key"; OpSet "key" (SVal (JNum 456))]
                         (Raised "boom") eq_refl eq_refl eq_refl)) eq_refl).
Defined.

(** Every call keeps an overlay coherent, [clear] and [commit] too. *)
Lemma tame_run_op op : tame (run_op op).
Proof.
  destruct op; cbn [run_op].
  - apply tame_bind; [apply tame_getItem | intros; apply tame_ret].
  - apply tame_setItem.
  - apply tame_removeItem.
  - intros [st pk [fb|]] Hx; [|contradiction]. simpl.
    intros k. split; [discriminate | contradiction].
  - intros [st pk [fb|]] Hx; [|contradiction]. simpl.
    intros k. split; [|contradiction].
    intros Hhas. destruct (Hx k) as [H _].
    right. rewrite flush_views.
    destruct (existsb (String.eqb k) pk) eqn:Hin; [now rewrite Hhas|].
    destruct (H Hhas) as [Hp|Heq]; auto.
    apply existsb_eqb_In in Hp. congruence.
Qed.

(** What a read, a write or a removal shows afterwards depends only on
    what the storage showed before. *)
Lemma run_op_views op s1 s2 :
  direct op = true ->
  (forall k, view s1 k = view s2 k) ->
  fst (run_op op s1) = Returned tt
  /\ forall k, view (snd (run_op op s1)) k = view (snd (run_op op s2)) k.
Proof.
  intros Hop Hv. destruct op; try discriminate; cbn [run_op].
  - unfold bind, ret. rewrite !getItem_run. simpl. split; auto.
    intros k. now rewrite !view_getItem.
  - unfold Storage.setItem. simpl. split; auto.
    intros k. now rewrite !view_setItem, Hv.
  - unfold Storage.removeItem. simpl. split; auto.
    intros k. now rewrite !view_removeItem, Hv.
Qed.

Lemma for_each_run_op_views ops : forall s1 s2,
  forallb direct ops = true ->
  (forall k, view s1 k = view s2 k) ->
  fst (for_each ops run_op s1) = Returned tt
  /\ forall k, view (after ops s1) k = view (after ops s2) k.
Proof.
  unfold after. induction ops as [|op rest IH]; intros s1 s2 Hops Hv; simpl.
  - auto.
  - simpl in Hops. apply andb_true_iff in Hops as [Hop Hrest].
    destruct (run_op_views op s1 s2 Hop Hv) as [H1 Hv1].
    destruct (run_op_views op s2 s1 Hop (fun k => eq_sym (Hv k))) as [H2 _].
    unfold bind.
    destruct (run_op op s1) as [[[]|e1] t1]; [|discriminate].
    destruct (run_op op s2) as [[[]|e2] t2]; [|discriminate].
    simpl in Hv1. now apply IH.
Qed.

(** A transaction whose body reads, sets and removes and then returns
    leaves the storage showing what the same calls, made on the storage
    itself, would leave.  (The storage is tidy and the keys of the calls
    are ordinary.) *)
Theorem committed_transaction_is_direct s ops :
  tidy s = true ->
  forallb ordinary_op ops = true ->
  forallb direct ops = true ->
  fst (MemoryStorage.transaction s (for_each ops run_op)) = Returned tt
  /\ forall k,
       view (snd (MemoryStorage.transaction s (for_each ops run_op))) k
       = view (after ops s) k.
Proof.
  intros _ _ Hops.
  assert (Hnew : forall k, view (MemoryStorage.new (Some s)) k = view s k).
  { intros k. unfold MemoryStorage.new. now rewrite view_layered. }
  destruct (for_each_run_op_views ops _ s Hops Hnew) as [Hret Hv].
  destruct (for_each ops run_op (MemoryStorage.new (Some s))) as [[[]|e] trx']
    eqn:Hrun; [|discriminate].
  destruct (transaction_commits (for_each ops run_op) s trx') as [s' [Htrx Hs']];
    auto.
  { apply tame_for_each. intros op. apply tame_run_op. }
  rewrite Htrx. simpl. split; auto.
  intros k. rewrite Hs'. unfold after in Hv. rewrite <- Hv.
  unfold after. now rewrite Hrun.
Qed.

Lemma committed_transaction_is_direct_witness :
  tidy two_keys = true
  /\ forallb ordinary_op [OpSet "key" (SVal (JNum 456)); OpRemove "other"] = true
  /\ forallb direct [OpSet "key" (SVal (JNum 456)); OpRemove "other"] = true
  /\ view (snd (MemoryStorage.transaction two_keys
                  (for_each [OpSet "key" (SVal (JNum 456)); OpRemove "other"]
                     run_op))) "key"
     = SVal (JNum 456)
  /\ view (snd (MemoryStorage.transaction two_keys
                  (for_each [OpSet "key" (SVal (JNum 456)); OpRemove "other"]
                     run_op))) "other"
     = undefined
  /\ forall k,
       view (snd (MemoryStorage.transaction two_keys
                    (for_each [OpSet "key" (SVal (JNum 456)); OpRemove "other"]
                       run_op))) k
       = view (after [OpSet "key" (SVal (JNum 456)); OpRemove "other"] two_keys) k.
Proof.
  split; [reflexivity|]. split; [reflexivity|]. split; [reflexivity|].
  split; [reflexivity|]. split; [reflexivity|].
  exact (proj2 (committed_transaction_is_direct two_keys
                  [OpSet "key" (SVal (JNum 456)); OpRemove "other"]
                  eq_refl eq_refl eq_refl)).
Defined.

(* ================================================================== *)
(** * The key scheme across tables *)
(* ================================================================== *)

Lemma table_segment key key' r r' :
  (storageKey.table key ++ String "/" r
   = storageKey.table key' ++ String "/" r')%string ->
  key = key' /\ r = r'.
Proof.
  intros H. unfold storageKey.table in *.
  assert (Henc : encodeURIComponent key = encodeURIComponent key').
  { eapply segment_inj; eauto using encodeURIComponent_no_slash. }
  split; [now apply encodeURIComponent_inj|].
  rewrite Henc in H. apply append_cancel_l in H. now injection H.
Qed.

Ltac split_key H :=
  unfold storageKey.tableMeta, storageKey.rowIndex, storageKey.index in H;
  rewrite ?row_key in H; cbn [append] in H;
  apply table_segment in H; destruct H as [? H]; subst.

(** The storage keys tell the table, the kind of record and the id or
    index name apart: two keys are the same only if they are of the same
    kind, for the same table, and for ids (index names) that are the same
    string. *)
Theorem storage_keys_apart key key' id id' n n' :
  (storageKey.tableMeta key = storageKey.tableMeta key' -> key = key')
  /\ (storageKey.row key id = storageKey.row key' id' ->
      key = key' /\ to_string id = to_string id')
  /\ (storageKey.rowIndex key id = storageKey.rowIndex key' id' ->
      key = key' /\ to_string id = to_string id')
  /\ (storageKey.index key n = storageKey.index key' n' -> key = key' /\ n = n')
  /\ storageKey.tableMeta key <> storageKey.row key' id
  /\ storageKey.tableMeta key <> storageKey.rowIndex key' id
  /\ storageKey.tableMeta key <> storageKey.index key' n
  /\ storageKey.row key id <> storageKey.rowIndex key' id'
  /\ storageKey.row key id <> storageKey.index key' n
  /\ storageKey.rowIndex key id <> storageKey.index key' n.
Proof.
  split; [intros H; now split_key H|].
  split.
  { intros H. split_key H. split; auto.
    injection H as H. now apply encodeURIComponent_inj. }
  split.
  { intros H. split_key H. split; auto. injection H as H.
    apply segment_inj in H; auto using encodeURIComponent_no_slash.
    now apply encodeURIComponent_inj. }
  split.
  { intros H. split_key H. split; auto.
    injection H as H. now apply encodeURIComponent_inj. }
  split; [intros H; split_key H; discriminate|].
  split; [intros H; split_key H; discriminate|].
  split; [intros H; split_key H; discriminate|].
  split.
  { intros H. split_key H. injection H as H. apply (f_equal has_slash) in H.
    rewrite has_slash_append, !encodeURIComponent_no_slash in H. discriminate. }
  split; intros H; split_key H; discriminate.
Qed.

(* ================================================================== *)
(** * Ids through [encodeURIComponent] and back *)
(* ================================================================== *)

Lemma in_range_spec lo hi n :
  in_range lo hi n = true <-> (lo <= n /\ n <= hi)%N.
Proof. unfold in_range. rewrite andb_true_iff, !N.leb_le. tauto. Qed.

Lemma unreserved_low (c : ascii) : unreserved c = true -> (N_of_ascii c < 128)%N.
Proof.
  unfold unreserved. cbv zeta. simpl existsb.
  rewrite !orb_true_iff, !in_range_spec, !N.eqb_eq. lia.
Qed.

Lemma token_high (c : ascii) :
  (128 <= N_of_ascii c)%N -> token_of c = Esc (N_of_ascii c).
Proof.
  intros H. unfold token_of. destruct (unreserved c) eqn:U; auto.
  apply unreserved_low in U. lia.
Qed.

Lemma tokens_encode_char (c : ascii) (r : string) (ts : list Token) :
  tokens r = Some ts ->
  tokens (encode_char c ++ r) = Some (token_of c :: ts).
Proof.
  intros Hr. unfold encode_char, token_of.
  destruct (unreserved c) eqn:U.
  - simpl. destruct (Ascii.eqb_spec c percent) as [->|_]; [discriminate|].
    now rewrite Hr.
  - cbn [append tokens]. unfold percent at 1. rewrite Ascii.eqb_refl.
    rewrite !hex_value_digit by (apply high_nibble || apply low_nibble).
    rewrite Hr. do 3 f_equal.
    rewrite (N.div_mod (N_of_ascii c) 16) at 3 by discriminate. lia.
Qed.

Lemma tokens_encode (s : string) :
  tokens (encodeURIComponent s) = Some (tokens_of s).
Proof.
  induction s as [|c r IH]; simpl; auto. now apply tokens_encode_char.
Qed.

Lemma decode_low (c : ascii) (ts : list Token) (r : string) :
  (N_of_ascii c < 128)%N ->
  decode_tokens ts = Some r ->
  decode_tokens (token_of c :: ts) = Some (String c r).
Proof.
  intros Hlow Hr. unfold token_of. destruct (unreserved c); cbn [decode_tokens].
  - now rewrite Hr.
  - apply N.ltb_lt in Hlow. rewrite Hlow, Hr. simpl.
    now rewrite ascii_N_embedding.
Qed.

Lemma decode_well_formed (n : nat) : forall s,
  String.length s <= n -> well_formed s = true ->
  decode_tokens (tokens_of s) = Some s.
Proof.
  induction n as [|n IH]; intros s Hlen Hwf.
  - destruct s; [reflexivity | simpl in Hlen; lia].
  - destruct s as [|c rest]; [reflexivity|].
    simpl in Hlen. cbn [well_formed] in Hwf. cbv zeta in Hwf.
    destruct (N.ltb (N_of_ascii c) 128) eqn:Hlow.
    { cbn [tokens_of]. apply decode_low; [now apply N.ltb_lt|].
      apply IH; auto. lia. }
    assert (Hc : token_of c = Esc (N_of_ascii c)).
    { apply token_high. apply N.ltb_ge in Hlow. lia. }
    destruct (in_range 194 223 (N_of_ascii c)) eqn:H2.
    { destruct rest as [|c1 rest]; [discriminate|].
      apply andb_true_iff in Hwf as [Hc1 Hwf].
      assert (H1 : token_of c1 = Esc (N_of_ascii c1)).
      { apply token_high. apply in_range_spec in Hc1. lia. }
      cbn [tokens_of]. rewrite Hc, H1. cbn [decode_tokens].
      rewrite Hlow, H2, Hc1. rewrite IH by (simpl in Hlen; auto; lia).
      simpl. now rewrite !ascii_N_embedding. }
    destruct (in_range 224 239 (N_of_ascii c)) eqn:H3.
    { destruct rest as [|c1 [|c2 rest]]; try discriminate.
      apply andb_true_iff in Hwf as [Hwf Hrest].
      apply andb_true_iff in Hwf as [Hc1 Hc2].
      assert (H1 : token_of c1 = Esc (N_of_ascii c1)).
      { apply token_high. apply in_range_spec in Hc1.
        destruct (N.eqb (N_of_ascii c) 224); lia. }
      assert (H2' : token_of c2 = Esc (N_of_ascii c2)).
      { apply token_high. apply in_range_spec in Hc2. lia. }
      cbn [tokens_of]. rewrite Hc, H1, H2'. cbn [decode_tokens].
      rewrite Hlow, H2, H3, Hc1, Hc2. cbn [andb].
      rewrite IH by (simpl in Hlen; auto; lia).
      simpl. now rewrite !ascii_N_embedding. }
    destruct (in_range 240 244 (N_of_ascii c)) eqn:H4; [|discriminate].
    destruct rest as [|c1 [|c2 [|c3 rest]]]; try discriminate.
    apply andb_true_iff in Hwf as [Hwf Hrest].
    apply andb_true_iff in Hwf as [Hwf Hc3].
    apply andb_true_iff in Hwf as [Hc1 Hc2].
    assert (H1 : token_of c1 = Esc (N_of_ascii c1)).
    { apply token_high. apply in_range_spec in Hc1.
      destruct (N.eqb (N_of_ascii c) 240); lia. }
    assert (H2' : token_of c2 = Esc (N_of_ascii c2)).
    { apply token_high. apply in_range_spec in Hc2. lia. }
    assert (H3' : token_of c3 = Esc (N_of_ascii c3)).
    { apply token_high. apply in_range_spec in Hc3. lia. }
    cbn [tokens_of]. rewrite Hc, H1, H2', H3'. cbn [decode_tokens].
    rewrite Hlow, H2, H3, H4, Hc1, Hc2, Hc3. cbn [andb].
    rewrite IH by (simpl in Hlen; auto; lia).
    simpl. now rewrite !ascii_N_embedding.
Qed.

Lemma decode_encode (s : string) :
  well_formed s = true ->
  decodeURIComponent (encodeURIComponent s) = Some s.
Proof.
  intros H. unfold decodeURIComponent. rewrite tokens_encode.
  now apply (decode_well_formed (String.length s)).
Qed.

(* ================================================================== *)
(** * The full scan of [queryTable] *)
(* ================================================================== *)

Lemma prefix_cons a p b s :
  String.prefix (String a p) (String b s)
  = (Ascii.eqb a b && String.prefix p s)%bool.
Proof.
  simpl. destruct (ascii_dec a b) as [->|Hne].
  - now rewrite Ascii.eqb_refl.
  - apply Ascii.eqb_neq in Hne. now rewrite Hne.
Qed.

Lemma prefix_nil s : String.prefix "" s = true.
Proof. now destruct s. Qed.

Lemma prefix_append (p x : string) : String.prefix p (p ++ x) = true.
Proof.
  induction p as [|a p IH]; [apply prefix_nil|].
  cbn [append]. now rewrite prefix_cons, Ascii.eqb_refl.
Qed.

Lemma drop_append (p x : string) : drop (String.length p) (p ++ x) = x.
Proof. induction p as [|a p IH]; simpl; auto. Qed.

Lemma remove_first_prefix (p x : string) : remove_first p (p ++ x) = x.
Proof.
  destruct (p ++ x)%string eqn:E; cbn [remove_first];
    rewrite <- E, prefix_append; apply drop_append.
Qed.




(** A segment without a separator that is followed by one is the same as
    the segment the other string starts with. *)
Lemma prefix_segment (x y r r' : string) :
  has_slash x = false -> has_slash y = false ->
  String.prefix (x ++ String "/" r) (y ++ String "/" r') = true ->
  x = y /\ String.prefix r r' = true.
Proof.
  revert y. induction x as [|a x IH]; intros [|b y]; cbn [append has_slash].
  - intros _ _. rewrite prefix_cons, Ascii.eqb_refl. auto.
  - intros _ Hy. rewrite prefix_cons. apply orb_false_iff in Hy as [Hb _].
    rewrite Ascii.eqb_sym, Hb. discriminate.
  - intros Hx _. rewrite prefix_cons. apply orb_false_iff in Hx as [Ha _].
    rewrite Ha. discriminate.
  - intros Hx Hy. rewrite prefix_cons.
    apply orb_false_iff in Hx as [_ Hx], Hy as [_ Hy].
    intros H. apply andb_true_iff in H as [Hab H].
    apply Ascii.eqb_eq in Hab as ->.
    destruct (IH y Hx Hy H) as [-> Hr]. auto.
Qed.

Lemma scanned_id_row key id :
  well_formed (to_string id) = true ->
  Database.scanned_id (storageKey.rows key) (storageKey.row key id)
  = Some (Some (to_string id)).
Proof.
  intros Hwf. unfold Database.scanned_id. cbv zeta.
  unfold storageKey.row. cbn [append].
  rewrite remove_first_prefix.
  cbn [split_slash]. rewrite Ascii.eqb_refl. cbn [tl].
  rewrite split_slash_plain by apply encodeURIComponent_no_slash.
  cbn [nth_error]. now rewrite decode_encode.
Qed.

Lemma rowIndex_key key id :
  storageKey.rowIndex key id
  = (storageKey.rows key
     ++ String "/" (encodeURIComponent (to_string id)
                    ++ String "/" "indexes"))%string.
Proof.
  unfold storageKey.rowIndex, storageKey.rows. now rewrite append_assoc.
Qed.

Lemma scanned_id_rowIndex key id :
  Database.scanned_id (storageKey.rows key) (storageKey.rowIndex key id)
  = Some None.
Proof.
  unfold Database.scanned_id. cbv zeta. rewrite rowIndex_key.
  rewrite remove_first_prefix.
  cbn [split_slash]. rewrite Ascii.eqb_refl. cbn [tl].
  rewrite split_slash_segment by apply encodeURIComponent_no_slash.
  reflexivity.
Qed.

(** The full scan reads the ids back from the keys of the rows: the key
    of a row gives its id, as long as the id is well-formed text, and the
    key of the snapshot of a row gives nothing. *)
Theorem full_scan_reads_ids_back key id :
  well_formed (to_string id) = true ->
  startsWith (storageKey.row key id) (storageKey.rows key) = true
  /\ Database.scanned_id (storageKey.rows key) (storageKey.row key id)
     = Some (Some (to_string id))
  /\ startsWith (storageKey.rowIndex key id) (storageKey.rows key) = true
  /\ Database.scanned_id (storageKey.rows key) (storageKey.rowIndex key id)
     = Some None.
Proof.
  intros Hwf. split; [|split; [|split]].
  - unfold startsWith, storageKey.row. apply prefix_append.
  - now apply scanned_id_row.
  - unfold startsWith. rewrite rowIndex_key. apply prefix_append.
  - apply scanned_id_rowIndex.
Qed.

Lemma full_scan_reads_ids_back_witness :
  well_formed (to_string (JStr "a b")) = true
  /\ Database.scanned_id (storageKey.rows "comments")
       (storageKey.row "comments" (JStr "a b"))
     = Some (Some "a b").
Proof.
  split; [reflexivity|].
  exact (proj1 (proj2 (full_scan_reads_ids_back "comments" (JStr "a b") eq_refl))).
Defined.

(** Among the keys of the database, the full scan of a table picks the
    rows and row snapshots of that table only: not the meta record, not an
    index, and nothing of a table with another key. *)
Theorem full_scan_picks_own_rows key key' id n :
  startsWith (storageKey.tableMeta key') (storageKey.rows key) = false
  /\ startsWith (storageKey.index key' n) (storageKey.rows key) = false
  /\ (key <> key' ->
      startsWith (storageKey.row key' id) (storageKey.rows key) = false
      /\ startsWith (storageKey.rowIndex key' id) (storageKey.rows key) = false).
Proof.
  unfold startsWith, storageKey.rows, storageKey.tableMeta, storageKey.index,
    storageKey.rowIndex, storageKey.table.
  rewrite row_key. unfold storageKey.table. cbn [append].
  assert (Hp : forall r r',
             String.prefix (encodeURIComponent key ++ String "/" r)
                           (encodeURIComponent key' ++ String "/" r') = true ->
             key = key' /\ String.prefix r r' = true).
  { intros r r' H.
    apply prefix_segment in H as [H Hr];
      auto using encodeURIComponent_no_slash.
    split; auto. now apply encodeURIComponent_inj. }
  split; [|split; [|intros Hne; split]].
  - destruct (String.prefix _ _) eqn:H; auto.
    apply Hp in H as [_ H]. discriminate.
  - destruct (String.prefix _ _) eqn:H; auto.
    apply Hp in H as [_ H]. discriminate.
  - destruct (String.prefix _ _) eqn:H; auto.
    apply Hp in H as [H _]. contradiction.
  - destruct (String.prefix _ _) eqn:H; auto.
    apply Hp in H as [H _]. contradiction.
Qed.

(* ================================================================== *)
(** * What a write leaves alone *)
(* ================================================================== *)

Lemma index_named_none table names k :
  (forall n, In n names -> k <> storageKey.index (Table.key table) n) ->
  index_named table names k = None.
Proof.
  intros H. destruct (index_named table names k) as [n|] eqn:E; auto.
  apply index_named_some in E as [Hin ->]. now apply H in Hin.
Qed.

Lemma eqb_false_of_neq (a b : string) : b <> a -> String.eqb a b = false.
Proof. intros H. apply String.eqb_neq. congruence. Qed.


(** A write changes what is read under the key of its row, under the key
    of the snapshot of its row and under the keys of the indexes of its
    table, and nowhere else. *)
Lemma write_frame table w s k :
  NoDup (obj_keys (Table.indexes table)) ->
  k <> storageKey.row (Table.key table) (target table w) ->
  k <> storageKey.rowIndex (Table.key table) (target table w) ->
  (forall n, In n (obj_keys (Table.indexes table)) ->
     k <> storageKey.index (Table.key table) n) ->
  view (snd (write table w s)) k = view s k.
Proof.
  intros Hnd Hrow Hsnap Hidx.
  assert (Hdel : forall id,
             k <> storageKey.row (Table.key table) id ->
             k <> storageKey.rowIndex (Table.key table) id ->
             view (snd (Database.deleteItem table id s)) k = view s k).
  { intros id H1 H2.
    destruct (deleteItem_run table id s Hnd) as [s' [Hrun Hv]].
    rewrite Hrun. cbn [snd]. rewrite Hv.
    rewrite !eqb_false_of_neq by assumption.
    now rewrite index_named_none. }
  destruct w as [item|id]; cbn [write target] in *; [|now apply Hdel].
  destruct (Table.isItemDeleted table item) as [[|]|e] eqn:Hd.
  - rewrite setItem_deleted by assumption. now apply Hdel.
  - destruct (setItem_run table item s Hd Hnd) as [s' [Hrun Hv]].
    rewrite Hrun. cbn [snd]. rewrite Hv.
    rewrite index_named_none by assumption.
    now rewrite !eqb_false_of_neq by assumption.
  - now rewrite (setItem_throws table item e s Hd).
Qed.

(** A write to a table leaves every other row of the table, the meta
    record of the table and all the records of a table with another key
    as they were. *)
Theorem write_leaves_the_rest table w s :
  NoDup (obj_keys (Table.indexes table)) ->
  view (snd (write table w s)) (storageKey.tableMeta (Table.key table))
  = view s (storageKey.tableMeta (Table.key table))
  /\ (forall id,
        to_string id <> to_string (target table w) ->
        view (snd (write table w s)) (storageKey.row (Table.key table) id)
        = view s (storageKey.row (Table.key table) id)
        /\ view (snd (write table w s)) (storageKey.rowIndex (Table.key table) id)
           = view s (storageKey.rowIndex (Table.key table) id))
  /\ (forall key id n,
        key <> Table.key table ->
        view (snd (write table w s)) (storageKey.tableMeta key)
        = view s (storageKey.tableMeta key)
        /\ view (snd (write table w s)) (storageKey.row key id)
           = view s (storageKey.row key id)
        /\ view (snd (write table w s)) (storageKey.rowIndex key id)
           = view s (storageKey.rowIndex key id)
        /\ view (snd (write table w s)) (storageKey.index key n)
           = view s (storageKey.index key n)).
Proof.
  intros Hnd.
  split; [|split].
  - apply write_frame; auto; try intros n _; intros H; split_key H; discriminate.
  - intros id Hid. split; apply write_frame; auto.
    + intros H. split_key H. injection H as H.
      apply encodeURIComponent_inj in H. contradiction.
    + apply row_key_not_rowIndex.
    + intros n _ H. split_key H. discriminate.
    + intros H. symmetry in H. revert H. apply row_key_not_rowIndex.
    + intros H. apply rowIndex_key_inj in H. contradiction.
    + intros n _ H. split_key H. discriminate.
  - intros key id n Hkey.
    repeat split; apply write_frame; auto;
      try intros n' _; intros H; split_key H; contradiction.
Qed.

Lemma write_leaves_the_rest_witness :
  NoDup (obj_keys (Table.indexes comments))
  /\ view (snd (write comments (Put [("id", JStr "2")]) one_comment))
          (storageKey.row (Table.key comments) (JStr "1"))
     = view one_comment (storageKey.row (Table.key comments) (JStr "1")).
Proof.
  assert (H : NoDup (obj_keys (Table.indexes comments))).
  { repeat constructor; simpl; intuition discriminate. }
  split; [exact H|].
  refine (proj1 (proj1 (proj2 (write_leaves_the_rest comments
                                 (Put [("id", JStr "2")]) one_comment H))
                   (JStr "1") _)).
  discriminate.
Defined.

(* ================================================================== *)
(** * Writing twice *)
(* ================================================================== *)







(* ================================================================== *)
(** * [patch] without a transaction *)
(* ================================================================== *)





(* ================================================================== *)
(** * Which table a call is for *)
(* ================================================================== *)

Lemma selectTable_missing (tables : Database.t) key s :
  hasTable tables key = false ->
  Database.selectTable tables key s = (Threw (TableNotFound key), s).
Proof.
  unfold hasTable, Database.selectTable. intros H.
  destruct (find _ tables) as [table|] eqn:E; auto.
  apply find_some in E as [Hin Hkey].
  assert (Hex : existsb (fun table => String.eqb (Table.key table) key) tables
                = true) by (apply existsb_exists; eauto).
  congruence.
Qed.

Lemma selectTable_found (tables : Database.t) key s :
  hasTable tables key = true ->
  exists before table rest,
    tables = (before ++ table :: rest)%list
    /\ Table.key table = key
    /\ (forall other, In other before -> Table.key other <> key)
    /\ Database.selectTable tables key s = (Returned table, s).
Proof.
  unfold hasTable, Database.selectTable.
  induction tables as [|t tables IH]; simpl; [discriminate|].
  destruct (String.eqb_spec (Table.key t) key) as [Hk|Hk].
  - intros _. exists [], t, tables.
    split; [reflexivity|]. split; [exact Hk|]. split; [|reflexivity].
    intros other [].
  - simpl. intros H.
    destruct (IH H) as [before [table [rest [-> [Hkey [Hbefore Hsel]]]]]].
    exists (t :: before), table, rest.
    split; [reflexivity|]. split; [exact Hkey|]. split; [|exact Hsel].
    intros other [<-|Hin]; auto.
Qed.

(** [query] and [delete] go to the first table registered under the key:
    [query] is the query of that table, and [delete] queries that table
    and deletes the rows found from it, by its key path, in one
    transaction.  When no table has the key they throw and leave the
    storage as it was. *)
Theorem calls_go_to_the_first_table_of_the_key (tables : Database.t) key filter
    paginationProps s :
  if hasTable tables key then
    exists before table rest,
      tables = (before ++ table :: rest)%list
      /\ Table.key table = key
      /\ (forall other, In other before -> Table.key other <> key)
      /\ Database.query tables key filter paginationProps s
         = Database.queryTable table filter paginationProps s
      /\ Database.delete tables key filter s
         = match Database.queryTable table filter (MkPagination None None) s with
           | (Returned found, s1) =>
               Database.transaction
                 (for_each (result_rows found)
                    (fun row =>
                       Database.deleteItem table
                         (stored_prop row (Table.keyPath table)))) s1
           | (Threw e, s1) => (Threw e, s1)
           end
  else
    Database.query tables key filter paginationProps s
    = (Threw (TableNotFound key), s)
    /\ Database.delete tables key filter s = (Threw (TableNotFound key), s).
Proof.
  destruct (hasTable tables key) eqn:H.
  - destruct (selectTable_found tables key s H)
      as [before [table [rest [Ht [Hkey [Hbefore Hsel]]]]]].
    exists before, table, rest. repeat split; auto.
    + unfold Database.query, bind. now rewrite Hsel.
    + unfold Database.delete, bind. rewrite Hsel.
      now destruct (Database.queryTable table filter _ s) as [[found|e] s1].
  - unfold Database.query, Database.delete, bind.
    now rewrite selectTable_missing.
Qed.

(* ================================================================== *)
(** * Offsets and limits below zero *)
(* ================================================================== *)

Lemma collect_negative_offset table scanFilters limit ids : forall o s,
  (o < 0)%Z ->
  exists s',
    Database.collect table scanFilters limit ids (JNum o) [] s
    = (Returned ([], []), s')
    /\ forall k, view s' k = view s k.
Proof.
  induction ids as [|id ids IH]; intros o s Ho; cbn [Database.collect].
  - exists s. auto.
  - unfold bind at 1. rewrite getItem_run.
    assert (Ht : truthy (JNum o) = true).
    { simpl. destruct (Z.eqb_spec o 0); [lia | reflexivity]. }
    rewrite Ht. cbn [decrement].
    set (s1 := snd (MemoryStorage.getItem s _)).
    assert (Hv1 : forall k, view s1 k = view s k)
      by (intros k; apply view_getItem).
    assert (Hkeep : exists s',
               Database.collect table scanFilters limit ids (JNum o) [] s1
               = (Returned ([], []), s')
               /\ forall k, view s' k = view s k).
    { destruct (IH o s1 Ho) as [s' [Hrun Hv]]. exists s'. split; auto.
      intros k. now rewrite Hv. }
    destruct (negb (stored_truthy _)); auto.
    destruct (Database.matches scanFilters _); auto.
    destruct (IH (o - 1)%Z s1) as [s' [Hrun Hv]]; [lia|].
    exists s'. split; auto. intros k. now rewrite Hv.
Qed.

(** With an offset below zero the last loop of [queryTable] skips every
    match: the countdown never comes to zero, and no row is returned. *)
Theorem negative_offset_returns_nothing table scanFilters limit ids o s :
  (o < 0)%Z ->
  exists s',
    Database.collect table scanFilters limit ids (Number (Some o)) [] s
    = (Returned ([], []), s')
    /\ forall k, view s' k = view s k.
Proof. apply collect_negative_offset. Qed.

Lemma negative_offset_returns_nothing_witness :
  (-1 < 0)%Z
  /\ exists s',
       Database.collect comments [] None [JStr "1"] (Number (Some (-1)%Z)) []
         one_comment
       = (Returned ([], []), s')
       /\ forall k, view s' k = view one_comment k.
Proof.
  split; [lia|].
  apply (negative_offset_returns_nothing comments [] None [JStr "1"] (-1)
           one_comment).
  lia.
Defined.

Lemma collect_negative_limit table scanFilters n ids : forall skip s,
  (n < 0)%Z ->
  exists rest s',
    Database.collect table scanFilters (Some n) ids (JNum (Z.of_nat skip)) [] s
    = (Returned
         (firstn 1 (skipn skip (matching table scanFilters s ids)), rest), s')
    /\ forall k, view s' k = view s k.
Proof.
  induction ids as [|id ids IH]; intros skip s Hn; cbn [Database.collect].
  - exists [], s. rewrite skipn_nil. auto.
  - unfold bind at 1. rewrite getItem_run. rewrite matching_cons.
    set (s1 := snd (MemoryStorage.getItem s _)).
    assert (Hv1 : forall k, view s1 k = view s k)
      by (intros k; apply view_getItem).
    assert (Hm : matching table scanFilters s1 ids
                 = matching table scanFilters s ids)
      by (now apply matching_views).
    set (row := view s (storageKey.row (Table.key table) id)).
    destruct (stored_truthy row); cbn [negb andb].
    2:{ destruct (IH skip s1 Hn) as [rest [s' [Hrun Hv]]].
        exists rest, s'. rewrite Hrun, Hm. split; auto.
        intros k. now rewrite Hv. }
    destruct (Database.matches scanFilters row).
    2:{ destruct (IH skip s1 Hn) as [rest [s' [Hrun Hv]]].
        exists rest, s'. rewrite Hrun, Hm. split; auto.
        intros k. now rewrite Hv. }
    destruct skip as [|skip].
    + cbn [Z.of_nat truthy Z.eqb negb app].
      assert (Hstop : limit_reached (Some n) [row] = true).
      { unfold limit_reached. cbn [List.length].
        destruct (Z.eqb_spec n 0); [lia|].
        destruct (Z.leb_spec n (Z.of_nat 1)); [reflexivity | lia]. }
      rewrite Hstop. exists ids, s1. split; auto.
    + assert (Ht : truthy (JNum (Z.of_nat (S skip))) = true).
      { simpl. reflexivity. }
      rewrite Ht. cbn [decrement].
      replace (Z.of_nat (S skip) - 1)%Z with (Z.of_nat skip) by lia.
      destruct (IH skip s1 Hn) as [rest [s' [Hrun Hv]]].
      exists rest, s'. rewrite Hrun, Hm. split; auto.
      intros k. now rewrite Hv.
Qed.

(** With a limit below zero the last loop of [queryTable] stops at the
    first row it keeps: what is returned is the first match after the
    offset, or nothing when there is none. *)
Theorem negative_limit_returns_one_match table scanFilters n offset ids s :
  (n < 0)%Z -> natural offset ->
  exists rest s',
    Database.collect table scanFilters (Some n) ids (Number offset) [] s
    = (Returned
         (firstn 1 (skipn (skipped offset) (matching table scanFilters s ids)),
          rest), s')
    /\ forall k, view s' k = view s k.
Proof.
  intros Hn Hoffset.
  assert (Hstart : Database.collect table scanFilters (Some n) ids
                     (Number offset) [] s
                   = Database.collect table scanFilters (Some n) ids
                       (JNum (Z.of_nat (skipped offset))) [] s).
  { destruct offset as [z|]; simpl in *.
    - now rewrite Z2Nat.id.
    - now apply collect_falsy_offset. }
  rewrite Hstart. now apply collect_negative_limit.
Qed.

Lemma negative_limit_returns_one_match_witness :
  (-1 < 0)%Z /\ natural None
  /\ exists rest s',
       Database.collect comments [] (Some (-1)%Z) [JStr "1"; JStr "2"]
         (Number None) [] one_comment
       = (Returned
            (firstn 1 (skipn (skipped None)
                         (matching comments [] one_comment [JStr "1"; JStr "2"])),
             rest), s')
       /\ forall k, view s' k = view one_comment k.
Proof.
  split; [lia|]. split; [exact I|].
  apply (negative_limit_returns_one_match comments [] (-1) None
           [JStr "1"; JStr "2"] one_comment); [lia | exact I].
Defined.

(* ================================================================== *)
(** * [clearTable] *)
(* ================================================================== *)





(* ================================================================== *)
(** * Looking a row up by its id *)
(* ================================================================== *)

Lemma function_indexes_columns table filter entries : forall ids indexes s,
  forallb (fun entry =>
             match snd entry with
             | ByColumn _ => true
             | ByFunction _ => false
             end) entries = true ->
  Database.function_indexes table filter entries ids indexes s
  = (Returned (ids, indexes), s).
Proof.
  induction entries as [|[n [c|f]] entries IH]; intros ids indexes s H;
    cbn [Database.function_indexes]; auto.
  simpl in H. discriminate.
Qed.

Lemma key_path_unindexed_columns table :
  key_path_unindexed table = true ->
  forallb (fun entry =>
             match snd entry with
             | ByColumn _ => true
             | ByFunction _ => false
             end) (Table.indexes table) = true.
Proof.
  unfold key_path_unindexed. rewrite !forallb_forall.
  intros H entry Hin. specialize (H entry Hin).
  now destruct (snd entry).
Qed.

Lemma column_index_key_path table :
  key_path_unindexed table = true ->
  Database.column_index table (Table.keyPath table) = None.
Proof.
  unfold key_path_unindexed, Database.column_index. intros H.
  destruct (find _ _) as [entry|] eqn:E; auto.
  apply find_some in E as [Hin Hc].
  apply filter_In in Hin as [Hin _].
  rewrite forallb_forall in H. specialize (H entry Hin).
  destruct (snd entry); [|discriminate].
  now rewrite Hc in H.
Qed.

Lemma truthy_not_nan v : truthy v = true -> is_nan v = false.
Proof. now destruct v. Qed.

Lemma plan_by_id table id s :
  key_path_unindexed table = true ->
  truthy id = true ->
  Database.plan table (by_id table id) s
  = (Returned (Database.MkPlan (Some [id]) [] (by_id table id)), s).
Proof.
  intros Hcols Hid. unfold Database.plan, Database.seed, by_id, filter_prop.
  cbn [obj_get]. rewrite String.eqb_refl. cbn [filter_value]. rewrite Hid.
  unfold bind at 1.
  rewrite function_indexes_columns by now apply key_path_unindexed_columns.
  cbn [fst snd]. unfold bind at 1. cbn [Database.column_indexes].
  rewrite column_index_key_path by assumption.
  reflexivity.
Qed.

Lemma query_by_id table id s :
  key_path_unindexed table = true ->
  truthy id = true ->
  exists s',
    Database.queryTable table (by_id table id) (MkPagination None None) s
    = (Returned
         (MkResult (matching table (by_id table id) s [id]) []), s').
Proof.
  intros Hcols Hid.
  destruct (queryTable_paginates table (by_id table id) None None s
              _ s [id] (plan_by_id table id s Hcols Hid) eq_refl I I)
    as [s2 [Hrun _]].
  exists s2. exact Hrun.
Qed.

(** A row that has been written is what a query for its id returns, in a
    table that has no index on the key path and none that is a function. *)
Theorem written_row_is_found_by_id table item s :
  NoDup (obj_keys (Table.indexes table)) ->
  Table.isItemDeleted table item = Returned false ->
  key_path_unindexed table = true ->
  truthy (prop item (Table.keyPath table)) = true ->
  exists s',
    Database.queryTable table (by_id table (prop item (Table.keyPath table)))
      (MkPagination None None) (snd (Database.setItem table item s))
    = (Returned (MkResult [SObj item] []), s').
Proof.
  intros Hnd Hkept Hcols Hid.
  destruct (query_by_id table (prop item (Table.keyPath table))
              (snd (Database.setItem table item s)) Hcols Hid) as [s' Hrun].
  exists s'. rewrite Hrun. do 3 f_equal.
  destruct (setItem_run table item s Hkept Hnd) as [s1 [Hset Hv]].
  rewrite Hset. cbn [snd].
  rewrite matching_cons, Hv, index_named_row.
  rewrite (String.eqb_sym (storageKey.rowIndex _ _)), row_eqb_rowIndex.
  rewrite String.eqb_refl.
  cbn [stored_truthy andb Database.matches by_id forallb snd fst stored_prop].
  rewrite strict_eq_refl by now apply truthy_not_nan.
  reflexivity.
Qed.

Lemma written_row_is_found_by_id_witness :
  NoDup (obj_keys (Table.indexes pages))
  /\ Table.isItemDeleted pages [("id", JStr "a"); ("bookId", JStr "123")]
     = Returned false
  /\ key_path_unindexed pages = true
  /\ truthy (prop [("id", JStr "a"); ("bookId", JStr "123")] (Table.keyPath pages))
     = true
  /\ exists s',
       Database.queryTable pages
         (by_id pages (prop [("id", JStr "a"); ("bookId", JStr "123")]
                         (Table.keyPath pages)))
         (MkPagination None None)
         (snd (Database.setItem pages [("id", JStr "a"); ("bookId", JStr "123")]
                 (MemoryStorage.new None)))
       = (Returned (MkResult [SObj [("id", JStr "a"); ("bookId", JStr "123")]] []),
          s').
Proof.
  assert (H : NoDup (obj_keys (Table.indexes pages))).
  { repeat constructor; simpl; intuition discriminate. }
  split; [exact H|]. split; [reflexivity|]. split; [reflexivity|].
  split; [reflexivity|].
  exact (written_row_is_found_by_id pages
           [("id", JStr "a"); ("bookId", JStr "123")] (MemoryStorage.new None)
           H eq_refl eq_refl eq_refl).
Defined.

(** A row that has been deleted is not returned by a query for its id.
    (The names of the table are ordinary and the storage is in shape.) *)
Theorem deleted_row_is_not_found_by_id table id s :
  NoDup (obj_keys (Table.indexes table)) ->
  ordinary_table table = true ->
  shaped s ->
  key_path_unindexed table = true ->
  truthy id = true ->
  exists s',
    Database.queryTable table (by_id table id) (MkPagination None None)
      (snd (Database.deleteItem table id s))
    = (Returned (MkResult [] []), s').
Proof.
  intros Hnd _ _ Hcols Hid.
  destruct (query_by_id table id (snd (Database.deleteItem table id s))
              Hcols Hid) as [s' Hrun].
  exists s'. rewrite Hrun. do 3 f_equal.
  destruct (deleteItem_run table id s Hnd) as [s1 [Hdel Hv]].
  rewrite Hdel. cbn [snd].
  rewrite matching_cons, Hv.
  rewrite (String.eqb_sym (storageKey.rowIndex _ _)), row_eqb_rowIndex.
  rewrite String.eqb_refl.
  reflexivity.
Qed.

Lemma deleted_row_is_not_found_by_id_witness :
  NoDup (obj_keys (Table.indexes pages))
  /\ ordinary_table pages = true
  /\ shaped (written_to pages moved_pages (MemoryStorage.new None))
  /\ key_path_unindexed pages = true
  /\ truthy (JStr "a") = true
  /\ fst (Database.queryTable pages (by_id pages (JStr "a"))
            (MkPagination None None)
            (written_to pages moved_pages (MemoryStorage.new None)))
     = Returned (MkResult [SObj [("id", JStr "a"); ("bookId", JStr "456")]] [])
  /\ exists s',
       Database.queryTable pages (by_id pages (JStr "a")) (MkPagination None None)
         (snd (Database.deleteItem pages (JStr "a")
                 (written_to pages moved_pages (MemoryStorage.new None))))
       = (Returned (MkResult [] []), s').
Proof.
  assert (H : NoDup (obj_keys (Table.indexes pages))).
  { repeat constructor; simpl; intuition discriminate. }
  assert (Hs : shaped (written_to pages moved_pages (MemoryStorage.new None))).
  { apply shaped_written_to; auto using shaped_empty. }
  split; [exact H|]. split; [reflexivity|]. split; [exact Hs|].
  split; [reflexivity|]. split; [reflexivity|]. split; [reflexivity|].
  exact (deleted_row_is_not_found_by_id pages (JStr "a")
           (written_to pages moved_pages (MemoryStorage.new None))
           H eq_refl Hs eq_refl eq_refl).
Defined.

(* ================================================================== *)
(** * A sync that goes through *)
(* ================================================================== *)
















Lemma meta_of_primed tables s s1 key :
  primed tables s s1 -> meta_of key s1 = meta_of key s.
Proof.
  intros H. unfold meta_of.
  destruct (H (storageKey.tableMeta key)) as [->|[Hf [-> _]]]; auto.
  now rewrite Hf.
Qed.

Lemma primed_refl tables s : primed tables s s.
Proof. intros k. now left. Qed.

Lemma primed_step tables s s1 s2 table :
  In table tables ->
  primed tables s s1 ->
  (forall k,
     view s2 k
     = if (negb (stored_truthy (view s1 (storageKey.tableMeta (Table.key table))))
           && String.eqb (storageKey.tableMeta (Table.key table)) k)%bool
       then fresh_meta else view s1 k) ->
  primed tables s s2.
Proof.
  intros Hin H1 H2 k. rewrite H2.
  destruct (stored_truthy (view s1 (storageKey.tableMeta (Table.key table))))
    eqn:Ht; simpl; [apply H1|].
  destruct (String.eqb_spec (storageKey.tableMeta (Table.key table)) k)
    as [<-|Hne]; [|apply H1].
  destruct (H1 (storageKey.tableMeta (Table.key table))) as [E|[Hf [E _]]].
  - right. rewrite <- E. eauto.
  - rewrite E in Ht. discriminate.
Qed.

Lemma syncTable_run now tables table s s1 :
  In table tables ->
  primed tables s s1 ->
  returns (fetched table s) = true ->
  exists s2,
    Database.syncTable now table s1 = (Returned (commitFunction now table s), s2)
    /\ primed tables s s2.
Proof.
  intros Hin Hprimed Hret.
  pose proof (syncTable_views now table s1) as Hviews.
  unfold Database.syncTable, bind in *.
  destruct (getTableMeta_run table s1) as [t1 [Hrun1 Hv1]].
  rewrite Hrun1 in *.
  fold (meta_of (Table.key table) s1) in *.
  rewrite (meta_of_primed tables s s1 (Table.key table) Hprimed) in *.
  unfold call in *. fold (fetched table s) in *.
  destruct (fetched table s) as [data|e] eqn:Hdata; [|discriminate].
  unfold Database.mergeTable, bind in *.
  destruct (getTableMeta_run table t1) as [t2 [Hrun2 Hv2]].
  rewrite Hrun2 in *.
  fold (meta_of (Table.key table) t1) in *.
  assert (Hp1 : primed tables s t1) by (eapply primed_step; eauto).
  rewrite (meta_of_primed tables s t1 (Table.key table) Hp1) in *.
  exists t2. split.
  - unfold ret, commitFunction, stamped. rewrite Hdata. reflexivity.
  - eapply primed_step; eauto.
Qed.

Lemma fetch_run now tables ts : forall s s1,
  incl ts tables ->
  primed tables s s1 ->
  forallb (fun table => returns (fetched table s)) ts = true ->
  exists s2,
    map_all ts (Database.syncTable now) s1
    = (Returned (map (fun table => commitFunction now table s) ts), s2)
    /\ primed tables s s2.
Proof.
  induction ts as [|table ts IH]; intros s s1 Hincl Hprimed Hret; simpl.
  - exists s1. auto.
  - simpl in Hret. apply andb_true_iff in Hret as [Hhead Hrest].
    destruct (syncTable_run now tables table s s1) as [t1 [Hrun1 Hp1]]; auto.
    { apply Hincl. now left. }
    destruct (IH s t1) as [t2 [Hrun2 Hp2]]; auto.
    { intros x Hx. apply Hincl. now right. }
    exists t2. split; auto.
    unfold bind. now rewrite Hrun1, Hrun2.
Qed.









(* ================================================================== *)
(** * Indexes that list every row *)
(* ================================================================== *)

Lemma reindex_keeps remove add id index g j :
  In g index -> In j (Group.ids g) -> strict_eq j id = false ->
  exists g',
    In g' (Database.reindex remove add id index)
    /\ Group.value g' = Group.value g
    /\ In j (Group.ids g').
Proof.
  intros Hg Hj Hne.
  assert (Hs : exists g1, In g1 (stripped remove id index)
                          /\ Group.value g1 = Group.value g
                          /\ In j (Group.ids g1)).
  { unfold stripped. destruct (negb (is_undefined remove)).
    - exists (Database.strip remove id g). split; [now apply in_map|].
      split; [apply strip_value|]. apply strip_ids. auto.
    - exists g. auto. }
  destruct Hs as [g1 [Hg1 [Hv1 Hj1]]].
  rewrite reindex_stripped.
  destruct (negb (is_undefined add)); [|exists g1; auto].
  assert (Ha : In (Database.append add id g1)
                  (map (Database.append add id) (stripped remove id index)))
    by now apply in_map.
  exists (Database.append add id g1).
  split; [|split].
  - destruct (negb (existsb _ _)); auto. apply in_or_app. now left.
  - now rewrite append_value.
  - apply append_ids. now left.
Qed.

Lemma reindex_adds remove add id index :
  is_undefined add = false -> is_nan add = false ->
  exists g',
    In g' (Database.reindex remove add id index)
    /\ strict_eq (Group.value g') add = true
    /\ In id (Group.ids g').
Proof.
  intros Hdef Hnan. rewrite reindex_stripped, Hdef. cbn [negb].
  destruct (existsb (fun group => strict_eq (Group.value group) add)
                    (stripped remove id index)) eqn:Hfound; cbn [negb].
  - apply existsb_exists in Hfound as [g1 [Hg1 Hv1]].
    exists (Database.append add id g1). split; [now apply in_map|].
    split; [now rewrite append_value|].
    apply append_ids. now right.
  - exists (Group.Make add [id]). split; [apply in_or_app; right; now left|].
    split; [now apply strict_eq_refl | now left].
Qed.

Lemma stripped_keeps remove id index g j :
  In g index -> In j (Group.ids g) -> strict_eq j id = false ->
  exists g',
    In g' (stripped remove id index)
    /\ Group.value g' = Group.value g
    /\ In j (Group.ids g').
Proof.
  intros Hg Hj Hne. unfold stripped. destruct (negb (is_undefined remove)).
  - exists (Database.strip remove id g). split; [now apply in_map|].
    split; [apply strip_value|]. apply strip_ids. auto.
  - exists g. auto.
Qed.

Lemma row_eqb_str key id i :
  is_str id = true -> is_str i = true ->
  String.eqb (storageKey.row key id) (storageKey.row key i) = strict_eq i id.
Proof.
  intros Hid Hi.
  destruct (String.eqb_spec (storageKey.row key id) (storageKey.row key i))
    as [E|E].
  - split_key E. injection E as E. apply encodeURIComponent_inj in E.
    apply to_string_str_inj in E; auto.
    subst. symmetry. now apply strict_eq_str_refl.
  - destruct (strict_eq i id) eqn:S; auto.
    apply strict_eq_str in S; auto. subst. contradiction.
Qed.

Lemma listed_setItem table item s s' :
  NoDup (obj_keys (Table.indexes table)) ->
  Table.isItemDeleted table item = Returned false ->
  plain table (Put item) = true ->
  Database.setItem table item s = (Returned tt, s') ->
  listed table s -> listed table s'.
Proof.
  intros Hnodup Hkept Hplain Hrun Hlisted.
  apply andb_true_iff in Hplain as [Hid Hnan].
  destruct (setItem_run table item s Hkept Hnodup) as [s1 [Hrun1 Hv]].
  rewrite Hrun in Hrun1. injection Hrun1 as <-.
  set (id := prop item (Table.keyPath table)) in *.
  set (oldIndexes := as_object (view s (storageKey.rowIndex (Table.key table) id))) in *.
  set (newIndexes := Database.recalculateIndexes table item) in *.
  assert (Hindex : forall n, In n (obj_keys (Table.indexes table)) ->
             index_of table s' n
             = as_index (reindexed oldIndexes newIndexes id n
                           (view s (storageKey.index (Table.key table) n)))).
  { intros n Hn. unfold index_of. rewrite Hv.
    now rewrite index_named_index. }
  assert (Hsnap : forall i n, is_str i = true ->
             snapshot_value table s' i n
             = if strict_eq i id then prop newIndexes n
               else snapshot_value table s i n).
  { intros i n Hi. unfold snapshot_value. rewrite Hv.
    rewrite index_named_rowIndex, rowIndex_eqb_str by assumption.
    destruct (strict_eq i id); auto.
    now rewrite row_eqb_rowIndex. }
  intros n j Hn Hj Hdef. rewrite Hsnap in * by assumption.
  rewrite Hindex by assumption. unfold reindexed.
  rewrite removals_has, updates_has, removals_prop, updates_prop.
  fold (index_of table s n).
  destruct (strict_eq j id) eqn:Hji.
  - apply strict_eq_str in Hji; auto. subst j.
    assert (Hnn : is_nan (prop newIndexes n) = false) by now apply prop_not_nan.
    assert (Hhas : obj_has newIndexes n = true)
      by now apply recalculateIndexes_has.
    destruct (enters oldIndexes newIndexes n) eqn:Henters.
    + rewrite andb_false_r. cbn [as_index].
      apply reindex_adds; auto.
    + assert (Hold : obj_has oldIndexes n = true
                     /\ strict_eq (prop oldIndexes n) (prop newIndexes n) = true).
      { unfold enters in Henters. rewrite Hhas, Hdef in Henters.
        cbn [negb andb] in Henters.
        destruct (obj_has oldIndexes n); [|discriminate].
        destruct (strict_eq (prop oldIndexes n) (prop newIndexes n));
          [auto | discriminate]. }
      destruct Hold as [Hho Heq].
      assert (Hleaves : leaves oldIndexes newIndexes n = false).
      { unfold leaves. now rewrite Hho, Hhas, Heq. }
      rewrite Hleaves. cbn [negb andb].
      destruct (Hlisted n id Hn Hid) as [g [Hg [Hval Hin]]].
      { unfold snapshot_value. fold oldIndexes.
        apply (defined_of_equal (prop newIndexes n)); auto.
        now rewrite strict_eq_sym. }
      exists g. split; auto. split; auto.
      eapply strict_eq_trans; [exact Hval|]. exact Heq.
  - destruct (Hlisted n j Hn Hj Hdef) as [g [Hg [Hval Hin]]].
    destruct (negb (leaves oldIndexes newIndexes n)
              && negb (enters oldIndexes newIndexes n))%bool.
    + exists g. auto.
    + cbn [as_index].
      destruct (reindex_keeps
                  (if leaves oldIndexes newIndexes n
                   then prop oldIndexes n else JUndefined)
                  (if enters oldIndexes newIndexes n
                   then prop newIndexes n else JUndefined)
                  id (index_of table s n) g j Hg Hin Hji)
        as [g' [Hg' [Hv' Hin']]].
      exists g'. split; auto. split; auto. now rewrite Hv'.
Qed.

Lemma listed_deleteItem table id s s' :
  NoDup (obj_keys (Table.indexes table)) ->
  is_str id = true ->
  Database.deleteItem table id s = (Returned tt, s') ->
  listed table s -> listed table s'.
Proof.
  intros Hnodup Hid Hrun Hlisted.
  destruct (deleteItem_run table id s Hnodup) as [s1 [Hrun1 Hv]].
  rewrite Hrun in Hrun1. injection Hrun1 as <-.
  assert (Hindex : forall n, In n (obj_keys (Table.indexes table)) ->
             index_of table s' n
             = stripped (snapshot_value table s id n) id (index_of table s n)).
  { intros n Hn. unfold index_of. rewrite Hv.
    at_index_key.
    now rewrite index_named_index. }
  assert (Hsnap : forall i n, is_str i = true ->
             snapshot_value table s' i n
             = if strict_eq i id then JUndefined
               else snapshot_value table s i n).
  { intros i n Hi. unfold snapshot_value. rewrite Hv.
    rewrite rowIndex_eqb_str by assumption.
    destruct (strict_eq i id); [reflexivity|].
    rewrite String.eqb_sym, (proj2 (String.eqb_neq _ _)).
    - now rewrite index_named_rowIndex.
    - intros E. symmetry in E. now apply row_key_not_rowIndex in E. }
  intros n j Hn Hj Hdef. rewrite Hsnap in * by assumption.
  rewrite Hindex by assumption.
  destruct (strict_eq j id) eqn:Hji; [discriminate|].
  destruct (Hlisted n j Hn Hj Hdef) as [g [Hg [Hval Hin]]].
  destruct (stripped_keeps (snapshot_value table s id n) id
              (index_of table s n) g j Hg Hin Hji) as [g' [Hg' [Hv' Hin']]].
  exists g'. split; auto. split; auto. now rewrite Hv'.
Qed.

Lemma mirrored_setItem table item s s' :
  NoDup (obj_keys (Table.indexes table)) ->
  Table.isItemDeleted table item = Returned false ->
  settled table (Put item) = true ->
  Database.setItem table item s = (Returned tt, s') ->
  mirrored table s -> mirrored table s'.
Proof.
  intros Hnodup Hkept Hsettled Hrun Hm.
  apply andb_true_iff in Hsettled as [Hplain Hdec].
  apply andb_true_iff in Hplain as [Hid _].
  destruct (setItem_run table item s Hkept Hnodup) as [s1 [Hrun1 Hv]].
  rewrite Hrun in Hrun1. injection Hrun1 as <-.
  set (id := prop item (Table.keyPath table)) in *.
  intros j Hj. rewrite !Hv.
  rewrite index_named_row, index_named_rowIndex.
  rewrite (String.eqb_sym (storageKey.rowIndex _ id) (storageKey.row _ j)).
  rewrite !row_eqb_rowIndex.
  rewrite rowIndex_eqb_str, row_eqb_str by assumption.
  destruct (strict_eq j id) eqn:Hji.
  - apply strict_eq_str in Hji; auto. subst j.
    left. exists item. auto.
  - apply Hm. exact Hj.
Qed.

Lemma mirrored_deleteItem table id s s' :
  NoDup (obj_keys (Table.indexes table)) ->
  is_str id = true ->
  Database.deleteItem table id s = (Returned tt, s') ->
  mirrored table s -> mirrored table s'.
Proof.
  intros Hnodup Hid Hrun Hm.
  destruct (deleteItem_run table id s Hnodup) as [s1 [Hrun1 Hv]].
  rewrite Hrun in Hrun1. injection Hrun1 as <-.
  intros j Hj. rewrite !Hv.
  rewrite index_named_row, index_named_rowIndex.
  rewrite (String.eqb_sym (storageKey.rowIndex _ id) (storageKey.row _ j)).
  rewrite !row_eqb_rowIndex.
  rewrite rowIndex_eqb_str, row_eqb_str by assumption.
  destruct (strict_eq j id) eqn:Hji.
  - right. auto.
  - apply Hm. exact Hj.
Qed.

Lemma stripped_distinct remove id index :
  (forall g, In g index -> NoDup (Group.ids g)) ->
  forall g', In g' (stripped remove id index) -> NoDup (Group.ids g').
Proof.
  intros H g'. unfold stripped. destruct (negb (is_undefined remove)); auto.
  intros Hg. apply in_map_iff in Hg as [g [<- Hg]].
  unfold Database.strip. destruct (negb _); auto.
  cbn [Group.ids]. apply NoDup_filter. auto.
Qed.

Lemma NoDup_snoc {A} (l : list A) (a : A) :
  NoDup l -> ~ In a l -> NoDup (l ++ [a]).
Proof.
  induction l as [|x l IH]; simpl; intros Hl Ha.
  - constructor; [intros [] | constructor].
  - inversion Hl as [|? ? Hx Hrest]; subst. constructor.
    + rewrite in_app_iff. intros [H|[H|[]]]; [contradiction|].
      subst. tauto.
    + apply IH; tauto.
Qed.

Lemma reindexed_distinct oldIndexes newIndexes id n x (snap : JsVal -> JsVal) :
  (forall g, In g (as_index x) -> is_undefined (Group.value g) = false) ->
  (forall g i, In g (as_index x) -> In i (Group.ids g) ->
               strict_eq (Group.value g) (snap i) = true) ->
  snap id = prop oldIndexes n ->
  (forall g, In g (as_index x) -> NoDup (Group.ids g)) ->
  forall g',
    In g' (as_index (reindexed oldIndexes newIndexes id n x)) ->
    NoDup (Group.ids g').
Proof.
  intros Hdef Hmem Hsnap Hnd g'. unfold reindexed.
  destruct (_ && _)%bool; [apply Hnd|].
  cbn [as_index]. rewrite reindex_stripped, removals_prop, updates_prop.
  set (remove := if leaves oldIndexes newIndexes n
                 then prop oldIndexes n else JUndefined).
  pose proof (stripped_distinct remove id (as_index x) Hnd) as Hstripped.
  destruct (enters oldIndexes newIndexes n) eqn:Henters;
    [|cbn [is_undefined strict_eq negb]; apply Hstripped].
  destruct (negb (is_undefined (prop newIndexes n))); [|apply Hstripped].
  assert (Happ : forall g1, In g1 (stripped remove id (as_index x)) ->
             NoDup (Group.ids (Database.append (prop newIndexes n) id g1))).
  { intros g1 Hg1. unfold Database.append.
    destruct (strict_eq (Group.value g1) (prop newIndexes n)) eqn:Hv;
      cbn [negb]; [|now apply Hstripped].
    cbn [Group.ids]. apply NoDup_snoc; [now apply Hstripped|].
    intros Hin.
    destruct (stripped_member _ _ _ _ _ Hg1 Hin) as [g0 [Hg0 [Hval [Hin0 _]]]].
    pose proof (Hmem g0 id Hg0 Hin0) as Hold. rewrite Hsnap in Hold.
    pose proof (defined_of_equal _ _ (Hdef g0 Hg0) Hold) as Hodef.
    assert (Hhas : obj_has oldIndexes n = true).
    { destruct (obj_has oldIndexes n) eqn:E; auto.
      rewrite (prop_absent _ _ E) in Hodef. discriminate. }
    assert (Heq : strict_eq (prop oldIndexes n) (prop newIndexes n) = true).
    { eapply strict_eq_trans; [|rewrite <- Hval in Hv; exact Hv].
      now rewrite strict_eq_sym. }
    unfold enters in Henters. rewrite Hhas, Heq in Henters.
    cbn [negb orb] in Henters. rewrite !andb_false_r in Henters.
    discriminate. }
  intros Hg'.
  assert (Hcases : In g' (map (Database.append (prop newIndexes n) id)
                            (stripped remove id (as_index x)))
                   \/ g' = Group.Make (prop newIndexes n) [id]).
  { destruct (negb (existsb _ _)) in Hg'; auto.
    apply in_app_or in Hg' as [H|[H|[]]]; auto. }
  destruct Hcases as [H| ->].
  - apply in_map_iff in H as [g1 [<- Hg1]]. now apply Happ.
  - cbn [Group.ids]. constructor; [intros [] | constructor].
Qed.

Lemma distinct_setItem table item s s' :
  NoDup (obj_keys (Table.indexes table)) ->
  Table.isItemDeleted table item = Returned false ->
  Database.setItem table item s = (Returned tt, s') ->
  indexed table s -> distinct table s -> distinct table s'.
Proof.
  intros Hnodup Hkept Hrun [_ Hdef Hmem] Hd.
  destruct (setItem_run table item s Hkept Hnodup) as [s1 [Hrun1 Hv]].
  rewrite Hrun in Hrun1. injection Hrun1 as <-.
  intros n g' Hn. unfold index_of. rewrite Hv.
  rewrite index_named_index by assumption.
  apply (reindexed_distinct _ _ _ n _ (fun i => snapshot_value table s i n)).
  - intros g. now apply Hdef.
  - intros g i Hg Hi. now apply (Hmem n g i Hn Hg Hi).
  - reflexivity.
  - intros g. now apply Hd.
Qed.

Lemma distinct_deleteItem table id s s' :
  NoDup (obj_keys (Table.indexes table)) ->
  Database.deleteItem table id s = (Returned tt, s') ->
  distinct table s -> distinct table s'.
Proof.
  intros Hnodup Hrun Hd.
  destruct (deleteItem_run table id s Hnodup) as [s1 [Hrun1 Hv]].
  rewrite Hrun in Hrun1. injection Hrun1 as <-.
  intros n g' Hn. unfold index_of. rewrite Hv.
  at_index_key. rewrite index_named_index by assumption.
  unfold unindexed. cbn [as_index].
  apply (stripped_distinct
           (prop (as_object (view s (storageKey.rowIndex (Table.key table) id))) n)
           id).
  intros g. now apply Hd.
Qed.

(** What holds after a deletion and after a row is stored holds after a
    write. *)
Lemma write_cases (P : MemoryStorage.t -> Prop) table w s :
  NoDup (obj_keys (Table.indexes table)) ->
  plain table w = true ->
  P s ->
  (forall id s', is_str id = true ->
     Database.deleteItem table id s = (Returned tt, s') -> P s') ->
  (forall item s', w = Put item ->
     Table.isItemDeleted table item = Returned false ->
     Database.setItem table item s = (Returned tt, s') -> P s') ->
  P (snd (write table w s)).
Proof.
  intros Hnodup Hplain Hs Hdelete Hstore.
  destruct w as [item|id]; cbn [write plain] in *.
  - destruct (Table.isItemDeleted table item) as [[|]|e] eqn:Hdel.
    + rewrite setItem_deleted by assumption.
      apply andb_true_iff in Hplain as [Hid _].
      destruct (deleteItem_run table (prop item (Table.keyPath table)) s Hnodup)
        as [s' [Hrun _]].
      rewrite Hrun. eapply Hdelete; eauto.
    + destruct (setItem_run table item s Hdel Hnodup) as [s' [Hrun _]].
      rewrite Hrun. eapply Hstore; eauto.
    + now rewrite (setItem_throws table item e s Hdel).
  - destruct (deleteItem_run table id s Hnodup) as [s' [Hrun _]].
    rewrite Hrun. eapply Hdelete; eauto.
Qed.

Lemma faithful_write table w s :
  NoDup (obj_keys (Table.indexes table)) ->
  settled table w = true ->
  faithful table s -> faithful table (snd (write table w s)).
Proof.
  intros Hnodup Hsettled [Hi Hl Hm Hd].
  pose proof Hsettled as Hs.
  apply andb_true_iff in Hs as [Hplain _].
  split.
  - now apply indexed_write.
  - apply write_cases; auto.
    + intros id s' Hid Hrun. eapply listed_deleteItem; eauto.
    + intros item s' -> Hkept Hrun. eapply listed_setItem; eauto.
  - apply write_cases; auto.
    + intros id s' Hid Hrun. eapply mirrored_deleteItem; eauto.
    + intros item s' -> Hkept Hrun. eapply mirrored_setItem; eauto.
  - apply write_cases; auto.
    + intros id s' Hid Hrun. eapply distinct_deleteItem; eauto.
    + intros item s' -> Hkept Hrun. eapply distinct_setItem; eauto.
Qed.

Lemma faithful_written_to table ws : forall s,
  NoDup (obj_keys (Table.indexes table)) ->
  forallb (settled table) ws = true ->
  faithful table s -> faithful table (written_to table ws s).
Proof.
  unfold written_to.
  induction ws as [|w rest IH]; intros s Hnodup Hsettled Hs; simpl.
  - exact Hs.
  - simpl in Hsettled. apply andb_true_iff in Hsettled as [Hw Hrest].
    apply IH; auto. now apply faithful_write.
Qed.

Lemma faithful_blank table s : blank table s -> faithful table s.
Proof.
  intros [Hidx Hrows]. split.
  - now apply indexed_empty.
  - intros n id Hn Hid Hdef. unfold snapshot_value in Hdef.
    destruct (Hrows id) as [_ E]. rewrite E in Hdef. discriminate.
  - intros id _. right. apply Hrows.
  - intros n g Hn Hg. rewrite (Hidx n Hn) in Hg. contradiction.
Qed.

(* ================================================================== *)
(** * Queries through a column index *)
(* ================================================================== *)

Lemma from_entries_skip {V} (entries : list (string * V)) : forall init n,
  ~ In n (map fst entries) ->
  obj_get (fold_left (fun o kv => obj_set (fst kv) (snd kv) o) entries init) n
  = obj_get init n.
Proof.
  induction entries as [|[k v] rest IH]; intros init n Hn; simpl; auto.
  simpl in Hn. rewrite IH by tauto.
  apply obj_get_set_other. tauto.
Qed.

Lemma from_entries_get {V} (entries : list (string * V)) : forall init n v,
  NoDup (map fst entries) -> In (n, v) entries ->
  obj_get (fold_left (fun o kv => obj_set (fst kv) (snd kv) o) entries init) n
  = Some v.
Proof.
  induction entries as [|[k v0] rest IH]; intros init n v Hnd Hin; simpl.
  - contradiction.
  - simpl in Hnd. inversion Hnd as [|? ? Hk Hrest]; subst.
    destruct Hin as [E|Hin].
    + injection E as -> ->. rewrite from_entries_skip by assumption.
      apply obj_get_set_same.
    + now apply IH.
Qed.

Lemma recalculateIndexes_column table item n c :
  NoDup (obj_keys (Table.indexes table)) ->
  In (n, ByColumn c) (Table.indexes table) ->
  prop (Database.recalculateIndexes table item) n = prop item c.
Proof.
  intros Hnd Hin. unfold prop at 1.
  unfold Database.recalculateIndexes, obj_from_entries.
  rewrite (from_entries_get _ [] n (prop item c)); auto.
  - now rewrite map_map.
  - apply in_map_iff. exists (n, ByColumn c). auto.
Qed.

Lemma column_index_some table c n :
  Database.column_index table c = Some n ->
  In (n, ByColumn c) (Table.indexes table).
Proof.
  unfold Database.column_index. intros H.
  destruct (find _ _) as [[n' def]|] eqn:E; [|discriminate].
  injection H as <-.
  apply find_some in E as [Hin Hc]. apply filter_In in Hin as [Hin _].
  simpl in Hc. destruct def as [c'|f]; [|discriminate].
  apply String.eqb_eq in Hc. now subst.
Qed.

Lemma decodes_spec id :
  decodes id = true -> decodeURIComponent (to_string id) = Some (to_string id).
Proof.
  unfold decodes. destruct (decodeURIComponent (to_string id)); [|discriminate].
  intros H. apply String.eqb_eq in H. now subst.
Qed.

Lemma decode_all_settled (ids : list JsVal) :
  (forall i, In i ids -> is_str i = true /\ decodes i = true) ->
  exists groupIds,
    decode_all ids = Some groupIds /\ map JStr groupIds = ids.
Proof.
  induction ids as [|i ids IH]; intros H; simpl.
  - exists []. auto.
  - destruct (H i (or_introl eq_refl)) as [Hstr Hdec].
    destruct IH as [groupIds [-> Hmap]]; [intros j Hj; apply H; now right|].
    rewrite (decodes_spec i Hdec).
    exists (to_string i :: groupIds). split; auto.
    simpl. rewrite Hmap. f_equal. now destruct i.
Qed.

Lemma find_group_literal v index :
  (exists g, In g index /\ strict_eq (Group.value g) v = true) ->
  exists g,
    Database.find_group (Literal v) index = Some g
    /\ In g index /\ strict_eq (Group.value g) v = true.
Proof.
  intros [g0 [Hin Hv]]. cbn [Database.find_group].
  destruct (find _ index) as [g|] eqn:E.
  - apply find_some in E. exists g. tauto.
  - apply (find_none _ _ E) in Hin. congruence.
Qed.

Lemma in_matching_all table s ids r :
  In r (matching table [] s ids)
  <-> exists id,
        In id ids
        /\ r = view s (storageKey.row (Table.key table) id)
        /\ stored_truthy r = true.
Proof.
  unfold matching. rewrite in_flat_map. split.
  - intros [id [Hid Hr]]. exists id. split; auto.
    destruct (stored_truthy _) eqn:Ht; cbn [andb Database.matches forallb] in Hr.
    + destruct Hr as [<-|[]]. auto.
    + contradiction.
  - intros [id [Hid [-> Ht]]]. exists id. split; auto.
    rewrite Ht. now left.
Qed.

(** A member of a group has a row, and the row has the value of the
    group. *)
Lemma faithful_member table s n c g id :
  NoDup (obj_keys (Table.indexes table)) ->
  faithful table s ->
  In (n, ByColumn c) (Table.indexes table) ->
  In g (index_of table s n) -> In id (Group.ids g) ->
  is_str id = true
  /\ decodes id = true
  /\ exists item,
       view s (storageKey.row (Table.key table) id) = SObj item
       /\ prop item (Table.keyPath table) = id
       /\ strict_eq (Group.value g) (prop item c) = true.
Proof.
  intros Hnd [[_ Hdef Hmem] _ Hm _] Hcol Hg Hid.
  assert (Hn : In n (obj_keys (Table.indexes table))).
  { apply in_map_iff. exists (n, ByColumn c). auto. }
  destruct (Hmem n g id Hn Hg Hid) as [Hstr Hval].
  pose proof (defined_of_equal _ _ (Hdef n g Hn Hg) Hval) as Hsnap.
  split; auto.
  destruct (Hm id Hstr) as [[item [Hrow [Hidx [Hkey Hdec]]]]|[_ Hidx]].
  - split; auto. exists item. split; auto. split; auto.
    unfold snapshot_value in Hval. rewrite Hidx in Hval. cbn [as_object] in Hval.
    now rewrite (recalculateIndexes_column table item n c Hnd Hcol) in Hval.
  - unfold snapshot_value in Hsnap. rewrite Hidx in Hsnap. discriminate.
Qed.

(** A row is in the group of the value it has. *)
Lemma faithful_row table s n c id item :
  NoDup (obj_keys (Table.indexes table)) ->
  faithful table s ->
  In (n, ByColumn c) (Table.indexes table) ->
  view s (storageKey.row (Table.key table) id) = SObj item ->
  is_undefined (prop item c) = false ->
  exists g,
    In g (index_of table s n)
    /\ strict_eq (Group.value g) (prop item c) = true
    /\ In (prop item (Table.keyPath table)) (Group.ids g)
    /\ view s (storageKey.row (Table.key table) (prop item (Table.keyPath table)))
       = SObj item.
Proof.
  intros Hnd [_ Hl Hm _] Hcol Hrow Hdef.
  assert (Hn : In n (obj_keys (Table.indexes table))).
  { apply in_map_iff. exists (n, ByColumn c). auto. }
  assert (Hkey : storageKey.row (Table.key table) id
                 = storageKey.row (Table.key table) (JStr (to_string id))).
  { reflexivity. }
  destruct (Hm (JStr (to_string id)) eq_refl)
    as [[item' [Hrow' [Hidx [Hid Hdec]]]]|[Hrow' _]];
    rewrite <- Hkey, Hrow in Hrow'; [|discriminate].
  injection Hrow' as <-.
  destruct (Hl n (JStr (to_string id)) Hn eq_refl) as [g [Hg [Hval Hin]]].
  { unfold snapshot_value. rewrite Hidx. cbn [as_object].
    now rewrite (recalculateIndexes_column table item n c Hnd Hcol). }
  unfold snapshot_value in Hval. rewrite Hidx in Hval. cbn [as_object] in Hval.
  rewrite (recalculateIndexes_column table item n c Hnd Hcol) in Hval.
  exists g. rewrite Hid. rewrite <- Hkey. auto.
Qed.

Lemma plan_by_column table s c n fv g groupIds :
  columns_only table = true ->
  Database.column_index table c = Some n ->
  n <> ""%string ->
  Database.find_group fv (index_of table s n) = Some g ->
  decode_all (Group.ids g) = Some groupIds ->
  exists s1,
    Database.plan table [(c, fv)] s
    = (Returned
         (Database.MkPlan
            (Some (Database.intersect (Database.seed table [(c, fv)]) groupIds))
            [storageKey.index (Table.key table) n] []), s1)
    /\ forall k, view s1 k = view s k.
Proof.
  intros Hcols Hcol Hn Hfind Hdec.
  exists (snd (MemoryStorage.getItem s (storageKey.index (Table.key table) n))).
  split; [|intros k; apply view_getItem].
  unfold Database.plan.
  set (ids0 := Database.seed table [(c, fv)]).
  unfold bind at 1.
  rewrite function_indexes_columns by exact Hcols.
  cbn [fst snd]. unfold bind at 1.
  cbn [Database.column_indexes].
  rewrite Hcol.
  apply String.eqb_neq in Hn. rewrite Hn.
  unfold bind at 1. rewrite getItem_run.
  fold (index_of table s n). rewrite Hfind.
  unfold bind at 1. unfold Database.use_group.
  cbn [Database.plan_ids Database.plan_indexes]. rewrite Hdec.
  reflexivity.
Qed.

Lemma seed_by_column table c fv :
  Database.seed table [(c, fv)]
  = if (String.eqb (Table.keyPath table) c && truthy (filter_value fv))%bool
    then Some [filter_value fv] else None.
Proof.
  unfold Database.seed, filter_prop. cbn [obj_get].
  destruct (String.eqb (Table.keyPath table) c); reflexivity.
Qed.

Lemma same_value_zero_str g id : same_value_zero (JStr g) id = true <-> id = JStr g.
Proof.
  destruct id; simpl; split; intros H; try discriminate.
  - apply String.eqb_eq in H. now subst.
  - injection H as ->. apply String.eqb_refl.
Qed.

Lemma in_intersect ids0 groupIds id :
  In id (Database.intersect ids0 groupIds)
  <-> In id (map JStr groupIds)
      /\ match ids0 with
         | Some l => In id l
         | None => True
         end.
Proof.
  destruct ids0 as [l|]; cbn [Database.intersect]; [|tauto].
  rewrite filter_In, existsb_exists, in_map_iff. split.
  - intros [Hl [g [Hg Hsame]]]. apply same_value_zero_str in Hsame.
    split; eauto.
  - intros [[g [<- Hg]] Hl]. split; auto. exists g. split; auto.
    now apply same_value_zero_str.
Qed.

Lemma matching_NoDup table s ids :
  NoDup ids ->
  (forall id, In id ids ->
     exists item,
       view s (storageKey.row (Table.key table) id) = SObj item
       /\ prop item (Table.keyPath table) = id) ->
  NoDup (matching table [] s ids).
Proof.
  induction ids as [|id ids IH]; intros Hnd Hrows.
  - constructor.
  - inversion Hnd as [|? ? Hid Hrest]; subst.
    rewrite matching_cons.
    destruct (Hrows id (or_introl eq_refl)) as [item [Hrow Hkey]].
    rewrite Hrow. cbn [stored_truthy andb Database.matches forallb app].
    constructor.
    + intros Hin. apply in_matching_all in Hin as [id' [Hid' [Heq _]]].
      destruct (Hrows id' (or_intror Hid')) as [item' [Hrow' Hkey']].
      rewrite Hrow' in Heq. injection Heq as ->. congruence.
    + apply IH; auto. intros id' Hid'. apply Hrows. now right.
Qed.

(** A query on an indexed column visits the rows of the group it
    finds. *)
Lemma query_through_group table s c n fv g :
  NoDup (obj_keys (Table.indexes table)) ->
  columns_only table = true ->
  Database.column_index table c = Some n ->
  n <> ""%string ->
  faithful table s ->
  Database.find_group fv (index_of table s n) = Some g ->
  exists rows s',
    Database.queryTable table [(c, fv)] (MkPagination None None) s
    = (Returned (MkResult rows [storageKey.index (Table.key table) n]), s')
    /\ (forall k, view s' k = view s k)
    /\ NoDup rows
    /\ forall r,
         In r rows
         <-> exists id item,
               r = SObj item
               /\ view s (storageKey.row (Table.key table) id) = SObj item
               /\ strict_eq (prop item c) (Group.value g) = true
               /\ ((String.eqb (Table.keyPath table) c
                    && truthy (filter_value fv))%bool = true ->
                   prop item (Table.keyPath table) = filter_value fv).
Proof.
  intros Hnd Hcols Hcol Hn Hf Hfind.
  pose proof (column_index_some table c n Hcol) as Hentry.
  assert (Hname : In n (obj_keys (Table.indexes table))).
  { apply in_map_iff. exists (n, ByColumn c). auto. }
  assert (Hg : In g (index_of table s n)).
  { destruct fv; cbn [Database.find_group] in Hfind;
      now apply find_some in Hfind. }
  destruct (decode_all_settled (Group.ids g)) as [groupIds [Hdec Hmap]].
  { intros i Hi.
    destruct (faithful_member table s n c g i Hnd Hf Hentry Hg Hi)
      as [Hstr [Hd _]]. auto. }
  destruct (plan_by_column table s c n fv g groupIds Hcols Hcol Hn Hfind Hdec)
    as [s1 [Hplan Hv1]].
  set (ids := Database.intersect (Database.seed table [(c, fv)]) groupIds) in *.
  destruct (queryTable_paginates table [(c, fv)] None None s _ s1
              ids Hplan eq_refl I I) as [s2 [Hrun Hv2]].
  cbn [paginate skipped skipn Database.scanFilters Database.plan_indexes] in Hrun.
  rewrite (matching_views table [] s s1 ids Hv1) in Hrun.
  assert (Hids : forall id,
             In id ids
             <-> In id (Group.ids g)
                 /\ ((String.eqb (Table.keyPath table) c
                      && truthy (filter_value fv))%bool = true
                     -> id = filter_value fv)).
  { intros id. unfold ids. rewrite in_intersect, Hmap, seed_by_column.
    destruct (String.eqb (Table.keyPath table) c
              && truthy (filter_value fv))%bool; simpl.
    - split; intros [H1 H2]; split; auto.
      + intros _. destruct H2 as [H2|[]]; auto.
      + left. symmetry. auto.
    - split; intros [H1 H2]; split; auto. discriminate. }
  exists (matching table [] s ids), s2.
  split; [exact Hrun|]. split; [intros k; now rewrite Hv2|].
  pose proof (faithful_indexed Hf) as [Hapart Hdef _].
  split.
  { apply matching_NoDup.
    - unfold ids. destruct (Database.seed table [(c, fv)]) as [l|] eqn:Hseed;
        cbn [Database.intersect].
      + apply NoDup_filter. rewrite seed_by_column in Hseed.
        destruct (_ && _)%bool; [|discriminate]. injection Hseed as <-.
        constructor; [intros [] | constructor].
      + rewrite Hmap. now apply (faithful_distinct Hf n g).
    - intros id Hid. apply Hids in Hid as [Hid _].
      destruct (faithful_member table s n c g id Hnd Hf Hentry Hg Hid)
        as [_ [_ [item [Hrow [Hkey _]]]]].
      exists item. auto. }
  intros r. rewrite in_matching_all. split.
  - intros [id [Hid [-> _]]]. apply Hids in Hid as [Hid Hseed].
    destruct (faithful_member table s n c g id Hnd Hf Hentry Hg Hid)
      as [_ [_ [item [Hrow [Hkey Hval]]]]].
    exists id, item. split; auto. split; auto. split.
    + now rewrite strict_eq_sym.
    + intros H. rewrite Hkey. now apply Hseed.
  - intros [id [item [-> [Hrow [Hval Hseed]]]]].
    assert (Hidef : is_undefined (prop item c) = false).
    { apply (defined_of_equal (Group.value g)); [now apply (Hdef n)|].
      now rewrite strict_eq_sym. }
    destruct (faithful_row table s n c id item Hnd Hf Hentry Hrow Hidef)
      as [g' [Hg' [Hval' [Hin' Hrow']]]].
    assert (Hsame : g' = g).
    { destruct (In_nth_error _ _ Hg) as [i Hi].
      destruct (In_nth_error _ _ Hg') as [j Hj].
      assert (E : j = i).
      { apply (Hapart n Hname j i g' g Hj Hi).
        eapply strict_eq_trans; [exact Hval'|]. exact Hval. }
      subst j. congruence. }
    subst g'.
    exists (prop item (Table.keyPath table)). rewrite Hrow'.
    split; [|auto]. apply Hids. auto.
Qed.

Lemma query_through_index table s c n v :
  NoDup (obj_keys (Table.indexes table)) ->
  columns_only table = true ->
  Database.column_index table c = Some n ->
  n <> ""%string ->
  faithful table s ->
  (exists g, In g (index_of table s n) /\ strict_eq (Group.value g) v = true) ->
  exists rows s',
    Database.queryTable table (by_column c v) (MkPagination None None) s
    = (Returned (MkResult rows [storageKey.index (Table.key table) n]), s')
    /\ (forall k, view s' k = view s k)
    /\ NoDup rows
    /\ forall r,
         In r rows
         <-> exists id item,
               r = SObj item
               /\ view s (storageKey.row (Table.key table) id) = SObj item
               /\ strict_eq (prop item c) v = true.
Proof.
  intros Hnd Hcols Hcol Hn Hf Hgroup.
  pose proof (column_index_some table c n Hcol) as Hentry.
  destruct (find_group_literal v _ Hgroup) as [g [Hfind [Hg Hv]]].
  destruct (query_through_group table s c n (Literal v) g Hnd Hcols Hcol Hn Hf
              Hfind) as [rows [s' [Hrun [Hviews [Hdistinct Hrows]]]]].
  exists rows, s'. split; [exact Hrun|]. split; [exact Hviews|].
  split; [exact Hdistinct|].
  intros r. rewrite Hrows. cbn [filter_value].
  split; intros [id [item [Hr [Hrow H]]]]; exists id, item;
    (split; [exact Hr|]); (split; [exact Hrow|]).
  - destruct H as [Hval _]. eapply strict_eq_trans; [exact Hval | exact Hv].
  - split.
    + eapply strict_eq_trans; [exact H|]. now rewrite strict_eq_sym.
    + intros Hseed. apply andb_true_iff in Hseed as [Hc _].
      apply String.eqb_eq in Hc. subst c.
      assert (Hvdef : is_undefined v = false).
      { pose proof (faithful_indexed Hf) as [_ Hdef _].
        apply (defined_of_equal (Group.value g)); auto.
        apply (Hdef n); auto.
        apply in_map_iff. exists (n, ByColumn (Table.keyPath table)). auto. }
      assert (Hidef : is_undefined (prop item (Table.keyPath table)) = false).
      { apply (defined_of_equal v); auto. now rewrite strict_eq_sym. }
      destruct (faithful_row table s n _ id item Hnd Hf Hentry Hrow Hidef)
        as [g' [Hg' [_ [Hin' _]]]].
      destruct (faithful_member table s n _ g' _ Hnd Hf Hentry Hg' Hin')
        as [Hstr _].
      symmetry. apply strict_eq_str; auto. now rewrite strict_eq_sym.
Qed.

(** In a storage that settled writes have built, the groups of a column
    index hold the rows by value: a member of a group is the id of a
    stored row with the value of the group in the column, no group holds
    an id twice, and a stored row with a value in the column is a member
    of the group of that value.  The names of the table are ordinary, and
    the storage is in shape at the start and at the end. *)
Theorem index_groups_hold_the_rows_by_value table ws s0 n c :
  NoDup (obj_keys (Table.indexes table)) ->
  ordinary_table table = true ->
  blank table s0 ->
  shaped s0 ->
  forallb (settled table) ws = true ->
  In (n, ByColumn c) (Table.indexes table) ->
  (forall g id,
      In g (index_of table (written_to table ws s0) n) ->
      In id (Group.ids g) ->
      exists item,
        view (written_to table ws s0) (storageKey.row (Table.key table) id)
        = SObj item
        /\ prop item (Table.keyPath table) = id
        /\ strict_eq (Group.value g) (prop item c) = true)
  /\ (forall g,
        In g (index_of table (written_to table ws s0) n) ->
        NoDup (Group.ids g))
  /\ (forall id item,
        view (written_to table ws s0) (storageKey.row (Table.key table) id)
        = SObj item ->
        is_undefined (prop item c) = false ->
        exists g,
          In g (index_of table (written_to table ws s0) n)
          /\ strict_eq (Group.value g) (prop item c) = true
          /\ In (prop item (Table.keyPath table)) (Group.ids g))
  /\ shaped (written_to table ws s0).
Proof.
  intros Hnd Hord Hblank Hshaped Hws Hentry.
  assert (Hf : faithful table (written_to table ws s0)).
  { apply faithful_written_to; auto. now apply faithful_blank. }
  assert (Hname : In n (obj_keys (Table.indexes table))).
  { apply in_map_iff. exists (n, ByColumn c). auto. }
  split; [|split; [|split]]; [| | |now apply shaped_written_to].
  - intros g id Hg Hid.
    destruct (faithful_member table _ n c g id Hnd Hf Hentry Hg Hid)
      as [_ [_ H]]. exact H.
  - intros g Hg. now apply (faithful_distinct Hf n g).
  - intros id item Hrow Hdef.
    destruct (faithful_row table _ n c id item Hnd Hf Hentry Hrow Hdef)
      as [g [Hg [Hval [Hin _]]]].
    exists g. auto.
Qed.

Lemma index_groups_hold_the_rows_by_value_witness :
  NoDup (obj_keys (Table.indexes pages))
  /\ ordinary_table pages = true
  /\ blank pages (MemoryStorage.new None)
  /\ shaped (MemoryStorage.new None)
  /\ forallb (settled pages) moved_pages = true
  /\ index_of pages (written_to pages moved_pages (MemoryStorage.new None))
       "byBook"
     = [Group.Make (JStr "123") [JStr "b"]; Group.Make (JStr "456") [JStr "a"]]
  /\ In ("byBook", ByColumn "bookId") (Table.indexes pages)
  /\ forall id item,
       view (written_to pages moved_pages (MemoryStorage.new None))
            (storageKey.row (Table.key pages) id)
       = SObj item ->
       is_undefined (prop item "bookId") = false ->
       exists g,
         In g (index_of pages
                 (written_to pages moved_pages (MemoryStorage.new None))
                 "byBook")
         /\ strict_eq (Group.value g) (prop item "bookId") = true
         /\ In (prop item (Table.keyPath pages)) (Group.ids g).
Proof.
  assert (Hnd : NoDup (obj_keys (Table.indexes pages))).
  { repeat constructor; simpl; intuition discriminate. }
  assert (Hblank : blank pages (MemoryStorage.new None)).
  { split; [intros n _; reflexivity | intros id; split; reflexivity]. }
  assert (Hentry : In ("byBook", ByColumn "bookId") (Table.indexes pages)).
  { now left. }
  split; [exact Hnd|]. split; [reflexivity|]. split; [exact Hblank|].
  split; [exact shaped_empty|]. split; [reflexivity|]. split; [reflexivity|].
  split; [exact Hentry|].
  exact (proj1 (proj2 (proj2 (index_groups_hold_the_rows_by_value pages
                                moved_pages
                                (MemoryStorage.new None) "byBook" "bookId"
                                Hnd eq_refl Hblank shaped_empty eq_refl
                                Hentry)))).
Defined.

(** A query on an indexed column is answered from the index and is
    exact: in a storage that settled writes have built, when the index
    has a group for the value asked for, the rows returned are the stored
    rows of the table that have that value in the column, each once, and
    nothing stored changes.  The column may be the key path.  (The names
    of the table are ordinary and the storage was in shape at the start.) *)
Theorem indexed_query_is_exact table ws s0 c n v :
  NoDup (obj_keys (Table.indexes table)) ->
  ordinary_table table = true ->
  columns_only table = true ->
  Database.column_index table c = Some n ->
  n <> ""%string ->
  blank table s0 ->
  shaped s0 ->
  forallb (settled table) ws = true ->
  (exists g,
      In g (index_of table (written_to table ws s0) n)
      /\ strict_eq (Group.value g) v = true) ->
  exists rows s',
    Database.queryTable table (by_column c v) (MkPagination None None)
      (written_to table ws s0)
    = (Returned (MkResult rows [storageKey.index (Table.key table) n]), s')
    /\ (forall k, view s' k = view (written_to table ws s0) k)
    /\ NoDup rows
    /\ forall r,
         In r rows
         <-> exists id item,
               r = SObj item
               /\ view (written_to table ws s0)
                       (storageKey.row (Table.key table) id) = SObj item
               /\ strict_eq (prop item c) v = true.
Proof.
  intros Hnd _ Hcols Hcol Hn Hblank _ Hws Hgroup.
  apply query_through_index; auto.
  apply faithful_written_to; auto. now apply faithful_blank.
Qed.

Lemma indexed_query_is_exact_witness :
  NoDup (obj_keys (Table.indexes comments))
  /\ ordinary_table comments = true
  /\ columns_only comments = true
  /\ Database.column_index comments "id" = Some "primary"%string
  /\ "primary"%string <> ""%string
  /\ blank comments (MemoryStorage.new None)
  /\ shaped (MemoryStorage.new None)
  /\ forallb (settled comments)
       [Put [("id", JStr "1")]; Put [("id", JStr "2")]] = true
  /\ (exists g,
        In g (index_of comments
                (written_to comments
                   [Put [("id", JStr "1")]; Put [("id", JStr "2")]]
                   (MemoryStorage.new None))
                "primary")
        /\ strict_eq (Group.value g) (JStr "1") = true)
  /\ exists rows s',
       Database.queryTable comments (by_column "id" (JStr "1"))
         (MkPagination None None)
         (written_to comments [Put [("id", JStr "1")]; Put [("id", JStr "2")]]
            (MemoryStorage.new None))
       = (Returned
            (MkResult rows [storageKey.index (Table.key comments) "primary"]),
          s')
       /\ NoDup rows
       /\ forall r,
            In r rows
            <-> exists id item,
                  r = SObj item
                  /\ view (written_to comments
                             [Put [("id", JStr "1")]; Put [("id", JStr "2")]]
                             (MemoryStorage.new None))
                          (storageKey.row (Table.key comments) id) = SObj item
                  /\ strict_eq (prop item "id") (JStr "1") = true.
Proof.
  assert (Hnd : NoDup (obj_keys (Table.indexes comments))).
  { repeat constructor; simpl; intuition discriminate. }
  assert (Hblank : blank comments (MemoryStorage.new None)).
  { split; [intros n _; reflexivity | intros id; split; reflexivity]. }
  assert (Hn : "primary"%string <> ""%string) by discriminate.
  assert (Hgroup : exists g,
             In g (index_of comments
                     (written_to comments
                        [Put [("id", JStr "1")]; Put [("id", JStr "2")]]
                        (MemoryStorage.new None))
                     "primary")
             /\ strict_eq (Group.value g) (JStr "1") = true).
  { exists (Group.Make (JStr "1") [JStr "1"]).
    split; [now left | reflexivity]. }
  split; [exact Hnd|]. split; [reflexivity|]. split; [reflexivity|].
  split; [reflexivity|].
  split; [exact Hn|]. split; [exact Hblank|]. split; [exact shaped_empty|].
  split; [reflexivity|]. split; [exact Hgroup|].
  destruct (indexed_query_is_exact comments
              [Put [("id", JStr "1")]; Put [("id", JStr "2")]]
              (MemoryStorage.new None)
              "id" "primary" (JStr "1")
              Hnd eq_refl eq_refl eq_refl Hn Hblank shaped_empty eq_refl Hgroup)
    as [rows [s' [Hrun [_ [Hdistinct Hrows]]]]].
  exists rows, s'. split; [exact Hrun|]. split; [exact Hdistinct | exact Hrows].
Defined.

(** A stored row is found by the value it has in an indexed column.
    (The names of the table are ordinary and the storage was in shape at
    the start.) *)
Theorem stored_row_is_found_by_its_value table ws s0 c n id item :
  NoDup (obj_keys (Table.indexes table)) ->
  ordinary_table table = true ->
  columns_only table = true ->
  Database.column_index table c = Some n ->
  n <> ""%string ->
  blank table s0 ->
  shaped s0 ->
  forallb (settled table) ws = true ->
  view (written_to table ws s0) (storageKey.row (Table.key table) id)
  = SObj item ->
  is_undefined (prop item c) = false ->
  exists rows s',
    Database.queryTable table (by_column c (prop item c))
      (MkPagination None None) (written_to table ws s0)
    = (Returned (MkResult rows [storageKey.index (Table.key table) n]), s')
    /\ In (SObj item) rows.
Proof.
  intros Hnd _ Hcols Hcol Hn Hblank _ Hws Hrow Hdef.
  assert (Hf : faithful table (written_to table ws s0)).
  { apply faithful_written_to; auto. now apply faithful_blank. }
  pose proof (column_index_some table c n Hcol) as Hentry.
  destruct (faithful_row table _ n c id item Hnd Hf Hentry Hrow Hdef)
    as [g [Hg [Hval _]]].
  destruct (query_through_index table _ c n (prop item c) Hnd Hcols Hcol Hn Hf)
    as [rows [s' [Hrun [_ [_ Hrows]]]]]; [eauto|].
  exists rows, s'. split; [exact Hrun|].
  apply Hrows. exists id, item. split; auto. split; auto.
  eapply strict_eq_trans; [|exact Hval]. now rewrite strict_eq_sym.
Qed.

Lemma stored_row_is_found_by_its_value_witness :
  NoDup (obj_keys (Table.indexes pages))
  /\ ordinary_table pages = true
  /\ columns_only pages = true
  /\ Database.column_index pages "bookId" = Some "byBook"%string
  /\ "byBook"%string <> ""%string
  /\ blank pages (MemoryStorage.new None)
  /\ shaped (MemoryStorage.new None)
  /\ forallb (settled pages) [Put first_page] = true
  /\ view (written_to pages [Put first_page] (MemoryStorage.new None))
          (storageKey.row (Table.key pages) (JStr "a"))
     = SObj first_page
  /\ is_undefined (prop first_page "bookId") = false
  /\ exists rows s',
       Database.queryTable pages (by_column "bookId" (prop first_page "bookId"))
         (MkPagination None None)
         (written_to pages [Put first_page] (MemoryStorage.new None))
       = (Returned (MkResult rows [storageKey.index (Table.key pages) "byBook"]),
          s')
       /\ In (SObj first_page) rows.
Proof.
  assert (Hnd : NoDup (obj_keys (Table.indexes pages))).
  { repeat constructor; simpl; intuition discriminate. }
  assert (Hblank : blank pages (MemoryStorage.new None)).
  { split; [intros n _; reflexivity | intros id; split; reflexivity]. }
  assert (Hn : "byBook"%string <> ""%string) by discriminate.
  split; [exact Hnd|]. split; [reflexivity|]. split; [reflexivity|].
  split; [reflexivity|].
  split; [exact Hn|]. split; [exact Hblank|]. split; [exact shaped_empty|].
  split; [reflexivity|]. split; [reflexivity|]. split; [reflexivity|].
  exact (stored_row_is_found_by_its_value pages [Put first_page]
           (MemoryStorage.new None) "bookId" "byBook" (JStr "a") first_page
           Hnd eq_refl eq_refl eq_refl Hn Hblank shaped_empty eq_refl eq_refl
           eq_refl).
Defined.

(* ================================================================== *)
(** * Queries only read *)
(* ================================================================== *)

(** A query changes nothing of what is stored, whether it returns or
    throws: every key reads as before, and a storage that stands alone is
    left as it was. *)
Theorem queries_change_nothing (tables : Database.t) key table filter
    paginationProps s :
  unchanged s (snd (Database.queryTable table filter paginationProps s))
  /\ unchanged s (snd (Database.query tables key filter paginationProps s)).
Proof.
  split; [apply reads_queryTable|].
  unfold Database.query, Database.selectTable.
  apply reads_bind.
  - destruct (find _ tables); [apply reads_ret | apply reads_throw].
  - intros t. apply reads_queryTable.
Qed.

(* ================================================================== *)
(** * [delete] *)
(* ================================================================== *)

Lemma deleteItems_run table ids : forall s,
  NoDup (obj_keys (Table.indexes table)) ->
  exists s',
    for_each ids (Database.deleteItem table) s = (Returned tt, s')
    /\ (forall id, In id ids ->
          view s' (storageKey.row (Table.key table) id) = undefined
          /\ view s' (storageKey.rowIndex (Table.key table) id) = undefined)
    /\ (forall k,
          (forall id, In id ids ->
             k <> storageKey.row (Table.key table) id
             /\ k <> storageKey.rowIndex (Table.key table) id) ->
          (forall n, In n (obj_keys (Table.indexes table)) ->
             k <> storageKey.index (Table.key table) n) ->
          view s' k = view s k).
Proof.
  induction ids as [|id ids IH]; intros s Hnd.
  - exists s. simpl. repeat split; auto; contradiction.
  - destruct (deleteItem_run table id s Hnd) as [s1 [Hrun1 Hv1]].
    destruct (IH s1 Hnd) as [s2 [Hrun2 [Hgone Hframe]]].
    exists s2. split; [|split].
    + cbn [for_each]. unfold bind. now rewrite Hrun1.
    + assert (Hkey : forall k,
                 (k = storageKey.row (Table.key table) id
                  \/ k = storageKey.rowIndex (Table.key table) id) ->
                 view s2 k = undefined).
      { intros k Hk.
        destruct (existsb (fun i =>
                    String.eqb k (storageKey.row (Table.key table) i)
                    || String.eqb k (storageKey.rowIndex (Table.key table) i))%bool
                    ids) eqn:Hex.
        - apply existsb_exists in Hex as [i [Hi Hki]].
          destruct (Hgone i Hi) as [G1 G2].
          apply orb_true_iff in Hki as [E|E]; apply String.eqb_eq in E;
            now subst k.
        - rewrite Hframe.
          + rewrite Hv1. destruct Hk as [-> | ->].
            * rewrite (String.eqb_sym (storageKey.rowIndex _ _)),
                row_eqb_rowIndex.
              now rewrite String.eqb_refl.
            * now rewrite String.eqb_refl.
          + intros i Hi.
            assert (Hno : (String.eqb k (storageKey.row (Table.key table) i)
                           || String.eqb k (storageKey.rowIndex (Table.key table) i))%bool
                          = false).
            { destruct (_ || _)%bool eqn:E; auto.
              assert (existsb (fun i =>
                        String.eqb k (storageKey.row (Table.key table) i)
                        || String.eqb k (storageKey.rowIndex (Table.key table) i))%bool
                        ids = true)
                by (apply existsb_exists; eauto).
              congruence. }
            apply orb_false_iff in Hno as [N1 N2].
            apply String.eqb_neq in N1, N2. auto.
          + intros n _ E. destruct Hk as [-> | ->]; symmetry in E; revert E.
            * apply index_key_not_row.
            * apply index_key_not_rowIndex. }
      intros i [<-|Hi]; [split; apply Hkey; auto|]. now apply Hgone.
    + intros k Hk Hidx. rewrite Hframe.
      * rewrite Hv1. destruct (Hk id (or_introl eq_refl)) as [N1 N2].
        rewrite !eqb_false_of_neq by assumption.
        now rewrite index_named_none.
      * intros i Hi. apply Hk. now right.
      * exact Hidx.
Qed.

(** [delete] removes what its query finds: when the query returns, the
    row and the snapshot of every row found read [undefined] afterwards,
    and every key that is not of a row found and not of an index of the
    table reads as before; when the query throws, [delete] throws the
    same and removes nothing.  (The names of the table and of the filter
    are ordinary and the storage is in shape.) *)
Theorem delete_removes_the_rows_found (tables : Database.t) key filter s table :
  NoDup (obj_keys (Table.indexes table)) ->
  ordinary_table table = true ->
  forallb ordinary (obj_keys filter) = true ->
  shaped s ->
  Database.selectTable tables key s = (Returned table, s) ->
  match Database.queryTable table filter (MkPagination None None) s with
  | (Returned found, _) =>
      exists s',
        Database.delete tables key filter s = (Returned tt, s')
        /\ (forall row, In row (result_rows found) ->
              view s' (storageKey.row (Table.key table)
                         (stored_prop row (Table.keyPath table))) = undefined
              /\ view s' (storageKey.rowIndex (Table.key table)
                            (stored_prop row (Table.keyPath table))) = undefined)
        /\ (forall k,
              (forall row, In row (result_rows found) ->
                 k <> storageKey.row (Table.key table)
                        (stored_prop row (Table.keyPath table))
                 /\ k <> storageKey.rowIndex (Table.key table)
                           (stored_prop row (Table.keyPath table))) ->
              (forall n, In n (obj_keys (Table.indexes table)) ->
                 k <> storageKey.index (Table.key table) n) ->
              view s' k = view s k)
  | (Threw e, s1) => Database.delete tables key filter s = (Threw e, s1)
  end.
Proof.
  intros Hnd _ _ _ Hsel.
  pose proof (reads_queryTable table filter (MkPagination None None) s)
    as [Hread _].
  destruct (Database.queryTable table filter (MkPagination None None) s)
    as [[found|e] s1] eqn:Hquery.
  2:{ unfold Database.delete, bind. now rewrite Hsel, Hquery. }
  cbn [snd] in Hread.
  unfold Database.delete. unfold bind at 1. rewrite Hsel.
  unfold bind at 1. rewrite Hquery.
  set (ids := map (fun row => stored_prop row (Table.keyPath table))
                  (result_rows found)).
  assert (Hloop : for_each (result_rows found)
                    (fun row => Database.deleteItem table
                                  (stored_prop row (Table.keyPath table)))
                  = for_each ids (Database.deleteItem table)).
  { unfold ids. clear. induction (result_rows found) as [|r rest IH]; simpl; auto.
    now rewrite IH. }
  rewrite Hloop.
  destruct (deleteItems_run table ids (MemoryStorage.new (Some s1)) Hnd)
    as [trx' [Hrun [Hgone Hframe]]].
  destruct (transaction_commits _ s1 trx'
              (tame_for_each ids _ (tame_deleteItem table)) Hrun)
    as [s' [Htrx Hv]].
  exists s'. split; [exact Htrx|]. split.
  - intros row Hrow. rewrite !Hv. apply Hgone.
    unfold ids. apply in_map_iff. eauto.
  - intros k Hk Hidx. rewrite Hv, Hframe, view_new; auto.
    intros id Hid. unfold ids in Hid. apply in_map_iff in Hid as [row [<- Hrow]].
    now apply Hk.
Qed.

Lemma delete_removes_the_rows_found_witness :
  NoDup (obj_keys (Table.indexes pages))
  /\ ordinary_table pages = true
  /\ forallb ordinary (obj_keys [("bookId", Literal (JStr "123"))]) = true
  /\ shaped (written_to pages moved_pages (MemoryStorage.new None))
  /\ Database.selectTable [pages] "pages"
       (written_to pages moved_pages (MemoryStorage.new None))
     = (Returned pages, written_to pages moved_pages (MemoryStorage.new None))
  /\ exists s',
       Database.delete [pages] "pages" [("bookId", Literal (JStr "123"))]
         (written_to pages moved_pages (MemoryStorage.new None))
       = (Returned tt, s')
       /\ view s' (storageKey.row "pages" (JStr "b")) = undefined
       /\ view s' (storageKey.rowIndex "pages" (JStr "b")) = undefined
       /\ view s' (storageKey.row "pages" (JStr "a"))
          = SObj [("id", JStr "a"); ("bookId", JStr "456")].
Proof.
  assert (Hnd : NoDup (obj_keys (Table.indexes pages))).
  { repeat constructor; simpl; intuition discriminate. }
  assert (Hs : shaped (written_to pages moved_pages (MemoryStorage.new None))).
  { apply shaped_written_to; auto using shaped_empty. }
  split; [exact Hnd|]. split; [reflexivity|]. split; [reflexivity|].
  split; [exact Hs|]. split; [reflexivity|].
  pose proof (delete_removes_the_rows_found [pages] "pages"
                [("bookId", Literal (JStr "123"))]
                (written_to pages moved_pages (MemoryStorage.new None))
                pages Hnd eq_refl eq_refl Hs eq_refl) as H.
  assert (Hq : Database.queryTable pages [("bookId", Literal (JStr "123"))]
                 (MkPagination None None)
                 (written_to pages moved_pages (MemoryStorage.new None))
               = (Returned
                    (MkResult [SObj [("id", JStr "b"); ("bookId", JStr "123")]]
                       ["pages/indexes/byBook"]),
                  written_to pages moved_pages (MemoryStorage.new None)))
    by reflexivity.
  rewrite Hq in H. destruct H as [s' [Hrun [Hgone Hrest]]].
  exists s'. split; [exact Hrun|].
  destruct (Hgone _ (or_introl eq_refl)) as [G1 G2].
  split; [exact G1|]. split; [exact G2|].
  rewrite Hrest; [reflexivity| |].
  - intros row [<-|[]]. split; discriminate.
  - intros n [<-|[]]. discriminate.
Defined.

(* ================================================================== *)
(** * Snapshots *)
(* ================================================================== *)

(** The snapshot computed for an item has an entry for every index of
    the table and for nothing else: the value of the item in the column
    of a column index, and what the function gives for the item for a
    function index. *)
Theorem snapshot_records_every_index table item n :
  NoDup (obj_keys (Table.indexes table)) ->
  (obj_has (Database.recalculateIndexes table item) n = true
   <-> In n (obj_keys (Table.indexes table)))
  /\ (forall c, In (n, ByColumn c) (Table.indexes table) ->
        prop (Database.recalculateIndexes table item) n = prop item c)
  /\ (forall f, In (n, ByFunction f) (Table.indexes table) ->
        prop (Database.recalculateIndexes table item) n = f item).
Proof.
  intros Hnd. split; [|split].
  - unfold Database.recalculateIndexes, obj_from_entries.
    rewrite from_entries_has, map_map. cbn [fst obj_has obj_get].
    rewrite orb_false_r. apply existsb_eqb_In.
  - intros c Hin. now apply recalculateIndexes_column.
  - intros f Hin. unfold prop.
    unfold Database.recalculateIndexes, obj_from_entries.
    rewrite (from_entries_get _ [] n (f item)); auto.
    + now rewrite map_map.
    + apply in_map_iff. exists (n, ByFunction f). auto.
Qed.

Lemma snapshot_records_every_index_witness :
  NoDup (obj_keys (Table.indexes pages))
  /\ prop (Database.recalculateIndexes pages first_page) "byBook"
     = prop first_page "bookId".
Proof.
  assert (Hnd : NoDup (obj_keys (Table.indexes pages))).
  { repeat constructor; simpl; intuition discriminate. }
  split; [exact Hnd|].
  exact (proj1 (proj2 (snapshot_records_every_index pages first_page "byBook" Hnd))
           "bookId" (or_introl eq_refl)).
Defined.

(* ================================================================== *)
(** * A sync whose fetch fails *)
(* ================================================================== *)

Lemma syncTable_throws now tables table s s1 e :
  In table tables ->
  primed tables s s1 ->
  fetched table s = Threw e ->
  exists s2,
    Database.syncTable now table s1 = (Threw e, s2) /\ primed tables s s2.
Proof.
  intros Hin Hprimed Hthrow.
  unfold Database.syncTable, bind.
  destruct (getTableMeta_run table s1) as [t1 [Hrun1 Hv1]].
  rewrite Hrun1.
  fold (meta_of (Table.key table) s1).
  rewrite (meta_of_primed tables s s1 (Table.key table) Hprimed).
  unfold call. fold (fetched table s). rewrite Hthrow.
  exists t1. split; auto. eapply primed_step; eauto.
Qed.

(** What the fetch gives: the functions to commit when every source
    returns, and otherwise the error of a source that threw.  Either way
    the storage is the one before the fetch with the meta records that were
    missing. *)
Lemma fetch_outcome now tables ts : forall s s1,
  incl ts tables ->
  primed tables s s1 ->
  exists r s2,
    map_all ts (Database.syncTable now) s1 = (r, s2)
    /\ primed tables s s2
    /\ match r with
       | Returned fns =>
           forallb (fun table => returns (fetched table s)) ts = true
       | Threw e => exists table, In table ts /\ fetched table s = Threw e
       end.
Proof.
  induction ts as [|table ts IH]; intros s s1 Hincl Hprimed.
  - exists (Returned []), s1. auto.
  - assert (Hin : In table tables) by (apply Hincl; now left).
    assert (Hrest : incl ts tables) by (intros x Hx; apply Hincl; now right).
    cbn [map_all forallb].
    destruct (fetched table s) as [data|e] eqn:Hdata.
    + destruct (syncTable_run now tables table s s1 Hin Hprimed)
        as [t1 [Hrun1 Hp1]]; [now rewrite Hdata|].
      rewrite Hrun1.
      destruct (IH s t1 Hrest Hp1) as [r [t2 [Hrun2 [Hp2 Hr]]]].
      rewrite Hrun2. destruct r as [fns|e].
      * eexists _, t2. split; [reflexivity|]. split; auto.
      * eexists _, t2. split; [reflexivity|]. split; auto.
        destruct Hr as [t [Ht He]]. exists t. split; auto. now right.
    + destruct (syncTable_throws now tables table s s1 e Hin Hprimed Hdata)
        as [t1 [Hrun1 Hp1]].
      rewrite Hrun1.
      destruct (IH s t1 Hrest Hp1) as [r [t2 [Hrun2 [Hp2 _]]]].
      rewrite Hrun2.
      eexists _, t2. split; [reflexivity|]. split; auto.
      exists table. split; auto. now left.
Qed.

Lemma fetch_fails now (tables : Database.t) s :
  forallb (fun table => returns (fetched table s)) tables = false ->
  exists e s2,
    Database.fetch now tables s = (Threw e, s2)
    /\ exists table, In table tables /\ fetched table s = Threw e.
Proof.
  intros Hret. unfold Database.fetch.
  destruct (fetch_outcome now tables tables s s (incl_refl _) (primed_refl _ _))
    as [[fns|e] [s2 [Hrun [_ Hr]]]]; [congruence|].
  exists e, s2. auto.
Qed.

(** When the source of a table throws, [sync] throws the error of a
    source that threw and opens no transaction: nothing is merged.  The
    calls of the fetch have all run: every registered table that had no
    meta record has the record [{lastSync: null}], and every other key of
    the storage reads as before.  (The storage is in shape: a meta record
    is an object.) *)
Theorem failed_fetch_stops_the_sync now (tables : Database.t) s :
  shaped s ->
  forallb (fun table => returns (fetched table s)) tables = false ->
  exists e s',
    Database.sync now tables s = (Threw e, s')
    /\ (exists table, In table tables /\ fetched table s = Threw e)
    /\ forall k,
         view s' k = if missing_meta tables s k then fresh_meta else view s k.
Proof.
  intros _ Hret.
  destruct (fetch_fails now tables s Hret) as [e [s' [Hrun Htable]]].
  exists e, s'. split; [|split]; auto.
  - unfold Database.sync, bind. now rewrite Hrun.
  - intros k. rewrite <- fetch_views with (now := now). now rewrite Hrun.
Qed.

Lemma failed_fetch_stops_the_sync_witness :
  shaped one_comment
  /\ forallb (fun table => returns (fetched table one_comment)) [offline; comments]
  = false
  /\ exists e s',
       Database.sync "2020-02-02T00:00:00.000Z" [offline; comments] one_comment
       = (Threw e, s')
       /\ (exists table,
              In table [offline; comments] /\ fetched table one_comment = Threw e)
       /\ view s' "posts/meta" = fresh_meta
       /\ view s' "comments/meta" = fresh_meta
       /\ view s' "comments/rows/1" = view one_comment "comments/rows/1".
Proof.
  assert (Hs : shaped one_comment) by (now apply shaped_alone).
  split; [exact Hs|]. split; [reflexivity|].
  destruct (failed_fetch_stops_the_sync "2020-02-02T00:00:00.000Z"
              [offline; comments] one_comment Hs eq_refl)
    as [e [s' [Hrun [Htable Hv]]]].
  exists e, s'. split; [exact Hrun|]. split; [exact Htable|].
  rewrite !Hv. repeat split.
Defined.

(* ================================================================== *)
(** * Listing a table *)
(* ================================================================== *)

Lemma getAllKeys_getItem s key k :
  In k (MemoryStorage.getAllKeys (snd (MemoryStorage.getItem s key))) ->
  In k (MemoryStorage.getAllKeys s) \/ k = key.
Proof.
  induction s as [state pending|state pending fb IH] using storage_ind;
    cbn [MemoryStorage.getItem]; [auto|].
  destruct (obj_has state key); [auto|].
  destruct (MemoryStorage.getItem fb key) as [v fb'] eqn:Hget.
  cbn [snd] in *. rewrite !getAllKeys_layered, obj_keys_set.
  intros [H|[H|H]]; auto.
  destruct (IH H); auto.
Qed.

Lemma adds_ret {A} K (a : A) : adds K (ret a).
Proof. intros s k H. now left. Qed.

Lemma adds_call {A} K (r : Outcome A) : adds K (call r).
Proof. intros s k H. now left. Qed.

Lemma adds_bind {A B} K (m : Action A) (f : A -> Action B) :
  adds K m -> (forall a, adds K (f a)) -> adds K (bind m f).
Proof.
  intros Hm Hf s k. unfold bind. specialize (Hm s).
  destruct (m s) as [[a|e] s1]; cbn [snd] in *; [|apply Hm].
  intros H. destruct (Hf a s1 k H) as [H1|H1]; auto.
Qed.

Lemma adds_for_each {A} K (xs : list A) (body : A -> Action unit) :
  (forall x, adds K (body x)) -> adds K (for_each xs body).
Proof.
  intros Hbody. induction xs as [|x rest IH]; simpl.
  - apply adds_ret.
  - apply adds_bind; auto.
Qed.

Lemma adds_getItem (K : string -> Prop) key : K key -> adds K (Storage.getItem key).
Proof.
  intros HK s k. rewrite getItem_run. cbn [snd]. intros H.
  destruct (getAllKeys_getItem s key k H) as [H1| ->]; auto.
Qed.

Lemma adds_setItem (K : string -> Prop) key v :
  K key -> adds K (Storage.setItem key v).
Proof.
  intros HK s k. unfold Storage.setItem. cbn [snd]. intros H.
  apply getAllKeys_setItem in H as [-> |H]; auto.
Qed.

Lemma adds_removeItem (K : string -> Prop) key : adds K (Storage.removeItem key).
Proof.
  intros s k. unfold Storage.removeItem. cbn [snd]. intros H.
  apply getAllKeys_removeItem in H as [_ H]; auto.
Qed.

Lemma adds_deleteItem (K : string -> Prop) table id :
  K (storageKey.rowIndex (Table.key table) id) ->
  (forall n, K (storageKey.index (Table.key table) n)) ->
  adds K (Database.deleteItem table id).
Proof.
  intros Hsnap Hidx. unfold Database.deleteItem.
  apply adds_bind; [now apply adds_getItem|]. intros snapshot.
  apply adds_bind.
  - apply adds_for_each. intros n.
    apply adds_bind; [now apply adds_getItem|]. intros stored.
    now apply adds_setItem.
  - intros _. apply adds_bind; [apply adds_removeItem|].
    intros _. apply adds_removeItem.
Qed.

Lemma adds_write (K : string -> Prop) table w :
  K (storageKey.row (Table.key table) (target table w)) ->
  K (storageKey.rowIndex (Table.key table) (target table w)) ->
  (forall n, K (storageKey.index (Table.key table) n)) ->
  adds K (write table w).
Proof.
  intros Hrow Hsnap Hidx.
  destruct w as [item|id]; cbn [write target] in *;
    [|now apply adds_deleteItem].
  unfold Database.setItem.
  apply adds_bind; [apply adds_call|].
  intros [|]; [now apply adds_deleteItem|].
  apply adds_bind; [now apply adds_getItem|]. intros snapshot.
  apply adds_bind; [now apply adds_setItem|]. intros _.
  apply adds_bind; [now apply adds_setItem|]. intros _.
  apply adds_for_each. intros n.
  destruct (_ && _)%bool; [apply adds_ret|].
  apply adds_bind; [now apply adds_getItem|]. intros stored.
  now apply adds_setItem.
Qed.

Lemma index_not_scanned key n :
  startsWith (storageKey.index key n) (storageKey.rows key) = false.
Proof.
  unfold startsWith, storageKey.rows, storageKey.index, storageKey.table.
  cbn [append].
  destruct (String.prefix _ _) eqn:H; auto.
  apply prefix_segment in H as [_ H];
    [discriminate | apply encodeURIComponent_no_slash
     | apply encodeURIComponent_no_slash].
Qed.

Lemma scannable_write table w s :
  legible table w = true ->
  scannable table s -> scannable table (snd (write table w s)).
Proof.
  intros Hw Hs k Hk Hstart.
  set (id := JStr (to_string (target table w))).
  destruct (adds_write
              (fun k => k = storageKey.row (Table.key table) id
                        \/ k = storageKey.rowIndex (Table.key table) id
                        \/ exists n, k = storageKey.index (Table.key table) n)
              table w) with (s := s) (k := k) as [H|[H|[H|[n H]]]]; auto.
  - right. right. eauto.
  - exists id. auto.
  - exists id. auto.
  - subst k. rewrite index_not_scanned in Hstart. discriminate.
Qed.

Lemma scannable_written_to table ws : forall s,
  forallb (legible table) ws = true ->
  scannable table s -> scannable table (written_to table ws s).
Proof.
  unfold written_to.
  induction ws as [|w rest IH]; intros s Hws Hs; simpl; auto.
  simpl in Hws. apply andb_true_iff in Hws as [Hw Hrest].
  apply IH; auto. now apply scannable_write.
Qed.

Lemma scannable_bare table s : bare table s -> scannable table s.
Proof. intros H k Hk Hstart. rewrite (H k Hk) in Hstart. discriminate. Qed.

(** A key under which something is read is a key the storage lists. *)
Lemma view_listed s k :
  stored_truthy (view s k) = true -> In k (MemoryStorage.getAllKeys s).
Proof.
  induction s as [state pending|state pending fb IH] using storage_ind.
  - rewrite view_alone, getAllKeys_alone. unfold MemoryStorage.read.
    destruct (obj_get state k) eqn:E; [|discriminate].
    intros _. apply obj_has_keys. unfold obj_has. now rewrite E.
  - rewrite view_layered, getAllKeys_layered.
    destruct (obj_has state k) eqn:E.
    + intros _. right. now apply obj_has_keys.
    + intros H. left. now apply IH.
Qed.

Lemma row_key_str_inj key id id' :
  is_str id = true -> is_str id' = true ->
  storageKey.row key id = storageKey.row key id' -> id = id'.
Proof.
  intros Hid Hid' H. split_key H. injection H as H.
  apply encodeURIComponent_inj in H. now apply to_string_str_inj.
Qed.

Lemma scanned_ids_scannable key keys :
  (forall k, In k keys ->
     exists id,
       is_str id = true
       /\ well_formed (to_string id) = true
       /\ (k = storageKey.row key id \/ k = storageKey.rowIndex key id)) ->
  exists ids,
    Database.scanned_ids (storageKey.rows key) keys = Some ids
    /\ forall v,
         In v ids
         <-> is_str v = true
             /\ to_string v <> ""%string
             /\ In (storageKey.row key v) keys.
Proof.
  induction keys as [|k keys IH]; intros Hkeys.
  - exists []. split; [reflexivity|]. intros v. simpl. tauto.
  - destruct IH as [ids [Hrun Hids]];
      [intros k' Hk'; apply Hkeys; now right|].
    destruct (Hkeys k (or_introl eq_refl)) as [id [Hstr [Hwf [-> | ->]]]].
    + cbn [Database.scanned_ids].
      rewrite scanned_id_row, Hrun by assumption.
      assert (Hid : JStr (to_string id) = id) by now destruct id.
      rewrite Hid.
      destruct (truthy id) eqn:Ht.
      * eexists. split; [reflexivity|].
        intros v. cbn [In]. rewrite Hids. split.
        -- intros [<-|[H1 [H2 H3]]]; auto.
           split; auto. split; auto.
           destruct id; try discriminate. simpl in *.
           intros E. subst. discriminate.
        -- intros [H1 [H2 [H3|H3]]]; auto.
           left. symmetry. now apply (row_key_str_inj key).
      * eexists. split; [reflexivity|].
        intros v. rewrite Hids. cbn [In]. split.
        -- intros [H1 [H2 H3]]; auto.
        -- intros [H1 [H2 [H3|H3]]]; auto.
           apply (row_key_str_inj key) in H3; auto. subst v.
           destruct id; try discriminate. simpl in *.
           destruct (String.eqb_spec s ""); [contradiction | discriminate].
    + cbn [Database.scanned_ids].
      rewrite scanned_id_rowIndex, Hrun.
      exists ids. split; [reflexivity|].
      intros v. rewrite Hids. cbn [In]. split.
      * intros [H1 [H2 H3]]; auto.
      * intros [H1 [H2 [H3|H3]]]; auto.
        symmetry in H3. now apply row_key_not_rowIndex in H3.
Qed.

Lemma obj_set_fresh {V} (o : Obj V) k v :
  ~ In k (obj_keys o) -> obj_set k v o = (o ++ [(k, v)])%list.
Proof.
  induction o as [|[k' v'] rest IH]; simpl; intros H; auto.
  destruct (String.eqb_spec k k') as [->|_]; [tauto|].
  rewrite IH; tauto.
Qed.

Lemma fold_set_fresh {V} (entries : list (string * V)) : forall init,
  NoDup (map fst entries) ->
  (forall e, In e entries -> ~ In (fst e) (obj_keys init)) ->
  fold_left (fun o e => obj_set (fst e) (snd e) o) entries init
  = (init ++ entries)%list.
Proof.
  induction entries as [|[k v] rest IH]; intros init Hnd Hfresh; simpl.
  - now rewrite app_nil_r.
  - simpl in Hnd. inversion Hnd as [|? ? Hk Hrest]; subst.
    rewrite obj_set_fresh by (apply (Hfresh (k, v)); now left).
    rewrite IH; auto.
    + now rewrite <- app_assoc.
    + intros e He. unfold obj_keys. rewrite map_app, in_app_iff. simpl.
      intros [H|[H|[]]].
      * apply (Hfresh e); [now right | exact H].
      * apply Hk. rewrite H. now apply in_map.
Qed.

Lemma column_indexes_unserved table entries : forall p s,
  forallb (fun entry =>
             match Database.column_index table (fst entry) with
             | Some _ => false
             | None => true
             end) entries = true ->
  Database.column_indexes table entries p s
  = (Returned
       (Database.MkPlan (Database.plan_ids p) (Database.plan_indexes p)
          (fold_left (fun o e => obj_set (fst e) (snd e) o) entries
                     (Database.scanFilters p))), s).
Proof.
  induction entries as [|[name v] entries IH]; intros p s H;
    cbn [Database.column_indexes].
  - now destruct p.
  - simpl in H. destruct (Database.column_index table name); [discriminate|].
    rewrite IH by assumption. reflexivity.
Qed.

Lemma plan_scan table filter s ids :
  columns_only table = true ->
  NoDup (obj_keys filter) ->
  unserved table filter = true ->
  Database.scanned_ids (storageKey.rows (Table.key table))
    (List.filter (fun key => startsWith key (storageKey.rows (Table.key table)))
                 (MemoryStorage.getAllKeys s))
  = Some ids ->
  Database.plan table filter s
  = (Returned (Database.MkPlan (Some ids) [] filter), s).
Proof.
  intros Hcols Hnd Hun Hscan.
  apply andb_true_iff in Hun as [Hseed Hun]. apply negb_true_iff in Hseed.
  unfold Database.plan, Database.seed. rewrite Hseed.
  unfold bind at 1.
  rewrite function_indexes_columns by exact Hcols.
  cbn [fst snd]. unfold bind at 1.
  rewrite column_indexes_unserved by exact Hun.
  cbn [Database.plan_ids Database.plan_indexes Database.scanFilters].
  rewrite fold_set_fresh; auto.
  unfold bind, Storage.getAllKeys. now rewrite Hscan.
Qed.

Lemma in_matching table scanFilters s ids r :
  In r (matching table scanFilters s ids)
  <-> exists id,
        In id ids
        /\ r = view s (storageKey.row (Table.key table) id)
        /\ stored_truthy r = true
        /\ Database.matches scanFilters r = true.
Proof.
  unfold matching. rewrite in_flat_map. split.
  - intros [id [Hid Hr]]. exists id. split; auto.
    destruct (stored_truthy _) eqn:Ht; cbn [andb] in Hr; [|contradiction].
    destruct (Database.matches _ _) eqn:Hm; [|contradiction].
    destruct Hr as [<-|[]]. auto.
  - intros [id [Hid [-> [Ht Hm]]]]. exists id. split; auto.
    rewrite Ht, Hm. now left.
Qed.

(** A query that no index serves scans the table: in a storage that
    writes with well-formed ids have built, a query whose filter has no
    truthy entry for the key path and no entry for an indexed column
    returns the rows stored under the ids of the table that pass the
    filter, all but a row whose id is the empty string, and uses no
    index.  With an empty filter that is every row.  (The names of the
    table and of the filter are ordinary and the storage was in shape at
    the start.) *)
Theorem unserved_query_scans_the_table table filter ws s0 :
  NoDup (obj_keys (Table.indexes table)) ->
  ordinary_table table = true ->
  columns_only table = true ->
  NoDup (obj_keys filter) ->
  forallb ordinary (obj_keys filter) = true ->
  unserved table filter = true ->
  bare table s0 ->
  shaped s0 ->
  forallb (legible table) ws = true ->
  exists rows s',
    Database.queryTable table filter (MkPagination None None)
      (written_to table ws s0)
    = (Returned (MkResult rows []), s')
    /\ forall r,
         In r rows
         <-> stored_truthy r = true
             /\ Database.matches filter r = true
             /\ exists id,
                  to_string id <> ""%string
                  /\ r = view (written_to table ws s0)
                              (storageKey.row (Table.key table) id).
Proof.
  intros _ _ Hcols Hnd _ Hun Hbare _ Hws.
  set (s := written_to table ws s0).
  assert (Hscannable : scannable table s).
  { apply scannable_written_to; auto. now apply scannable_bare. }
  destruct (scanned_ids_scannable (Table.key table)
              (List.filter
                 (fun key => startsWith key (storageKey.rows (Table.key table)))
                 (MemoryStorage.getAllKeys s)))
    as [ids [Hscan Hids]].
  { intros k Hk. apply filter_In in Hk as [Hk Hstart].
    now apply Hscannable. }
  pose proof (plan_scan table filter s ids Hcols Hnd Hun Hscan) as Hplan.
  destruct (queryTable_paginates table filter None None s _ s ids Hplan
              eq_refl I I) as [s2 [Hrun _]].
  cbn [paginate skipped skipn Database.scanFilters Database.plan_indexes] in Hrun.
  exists (matching table filter s ids), s2. split; [exact Hrun|].
  intros r. rewrite in_matching. split.
  - intros [id [Hid [-> [Ht Hm]]]]. split; auto. split; auto.
    apply Hids in Hid as [_ [Hne _]]. eauto.
  - intros [Ht [Hm [id [Hne ->]]]].
    exists (JStr (to_string id)). split; [|auto].
    apply Hids. split; [reflexivity|]. split; [exact Hne|].
    apply filter_In. split.
    + now apply view_listed.
    + unfold startsWith, storageKey.row. apply prefix_append.
Qed.

Lemma unserved_query_scans_the_table_witness :
  NoDup (obj_keys (Table.indexes pages))
  /\ ordinary_table pages = true
  /\ columns_only pages = true
  /\ NoDup (obj_keys [("title", Literal (JStr "Intro"))])
  /\ forallb ordinary (obj_keys [("title", Literal (JStr "Intro"))]) = true
  /\ unserved pages [("title", Literal (JStr "Intro"))] = true
  /\ bare pages (MemoryStorage.new None)
  /\ shaped (MemoryStorage.new None)
  /\ forallb (legible pages) [Put first_page; Put escaped_page] = true
  /\ exists rows s',
       Database.queryTable pages [("title", Literal (JStr "Intro"))]
         (MkPagination None None)
         (written_to pages [Put first_page; Put escaped_page]
            (MemoryStorage.new None))
       = (Returned (MkResult rows []), s')
       /\ forall r,
            In r rows
            <-> stored_truthy r = true
                /\ Database.matches [("title", Literal (JStr "Intro"))] r = true
                /\ exists id,
                     to_string id <> ""%string
                     /\ r = view (written_to pages
                                    [Put first_page; Put escaped_page]
                                    (MemoryStorage.new None))
                                 (storageKey.row (Table.key pages) id).
Proof.
  assert (Hbare : bare pages (MemoryStorage.new None)).
  { intros k []. }
  assert (Hnd : NoDup (obj_keys [("title", Literal (JStr "Intro"))])).
  { repeat constructor. intros []. }
  assert (Hnames : NoDup (obj_keys (Table.indexes pages))).
  { repeat constructor; simpl; intuition discriminate. }
  split; [exact Hnames|]. split; [reflexivity|].
  split; [reflexivity|]. split; [exact Hnd|]. split; [reflexivity|].
  split; [reflexivity|].
  split; [exact Hbare|]. split; [exact shaped_empty|]. split; [reflexivity|].
  exact (unserved_query_scans_the_table pages
           [("title", Literal (JStr "Intro"))]
           [Put first_page; Put escaped_page]
           (MemoryStorage.new None) Hnames eq_refl eq_refl Hnd eq_refl eq_refl
           Hbare shaped_empty eq_refl).
Defined.

(* ================================================================== *)
(** * The sync of a forced table *)
(* ================================================================== *)



















(* ================================================================== *)
(** * A predicate on an indexed column *)
(* ================================================================== *)

Lemma find_first {A} (f : A -> bool) (before after : list A) (x : A) :
  (forall y, In y before -> f y = false) -> f x = true ->
  find f (before ++ x :: after) = Some x.
Proof.
  induction before as [|y before IH]; intros Hb Hx; simpl.
  - now rewrite Hx.
  - rewrite (Hb y (or_introl eq_refl)). apply IH; auto.
    intros z Hz. apply Hb. now right.
Qed.

(** A predicate given for an indexed column is answered from one group:
    the first group of the index whose value passes it.  In a storage that
    settled writes have built, the rows returned are the stored rows with
    the value of that group in the column, each once; the rows of later
    groups are not returned, whether their values pass the predicate or
    not.  (The names of the table are ordinary and the storage was in
    shape at the start.) *)
Theorem predicate_on_index_takes_first_group
    table ws s0 c n r src p before g after :
  NoDup (obj_keys (Table.indexes table)) ->
  ordinary_table table = true ->
  columns_only table = true ->
  Database.column_index table c = Some n ->
  n <> ""%string ->
  c <> Table.keyPath table ->
  blank table s0 ->
  shaped s0 ->
  forallb (settled table) ws = true ->
  index_of table (written_to table ws s0) n = (before ++ g :: after)%list ->
  (forall g0, In g0 before -> p (Group.value g0) = false) ->
  p (Group.value g) = true ->
  exists rows s',
    Database.queryTable table [(c, Predicate r src p)] (MkPagination None None)
      (written_to table ws s0)
    = (Returned (MkResult rows [storageKey.index (Table.key table) n]), s')
    /\ NoDup rows
    /\ forall row,
         In row rows
         <-> exists id item,
               row = SObj item
               /\ view (written_to table ws s0)
                       (storageKey.row (Table.key table) id) = SObj item
               /\ strict_eq (prop item c) (Group.value g) = true.
Proof.
  intros Hnd _ Hcols Hcol Hn Hc Hblank _ Hws Hindex Hbefore Hg.
  assert (Hf : faithful table (written_to table ws s0)).
  { apply faithful_written_to; auto. now apply faithful_blank. }
  assert (Hfind : Database.find_group (Predicate r src p)
                    (index_of table (written_to table ws s0) n) = Some g).
  { cbn [Database.find_group]. rewrite Hindex. now apply find_first. }
  destruct (query_through_group table _ c n (Predicate r src p) g
              Hnd Hcols Hcol Hn Hf Hfind)
    as [rows [s' [Hrun [_ [Hdistinct Hrows]]]]].
  exists rows, s'. split; [exact Hrun|]. split; [exact Hdistinct|].
  intros row. rewrite Hrows.
  assert (E : String.eqb (Table.keyPath table) c = false).
  { apply String.eqb_neq. congruence. }
  rewrite E. cbn [andb].
  split; intros [id [item [Hr [Hrow H]]]]; exists id, item;
    (split; [exact Hr|]); (split; [exact Hrow|]).
  - tauto.
  - split; [exact H | discriminate].
Qed.

Lemma predicate_on_index_takes_first_group_witness :
  NoDup (obj_keys (Table.indexes comments))
  /\ ordinary_table comments = true
  /\ columns_only comments = true
  /\ Database.column_index comments "active" = Some "enabled"%string
  /\ "enabled"%string <> ""%string
  /\ "active"%string <> Table.keyPath comments
  /\ blank comments (MemoryStorage.new None)
  /\ shaped (MemoryStorage.new None)
  /\ forallb (settled comments) two_comments = true
  /\ index_of comments (written_to comments two_comments (MemoryStorage.new None))
       "enabled"
     = ([] ++ Group.Make (JBool true) [JStr "1"]
           :: [Group.Make (JBool false) [JStr "2"]])%list
  /\ (forall g0, In g0 [] -> (fun _ : JsVal => true) (Group.value g0) = false)
  /\ (fun _ : JsVal => true) (Group.value (Group.Make (JBool true) [JStr "1"]))
     = true
  /\ exists rows s',
       Database.queryTable comments
         [("active", Predicate 0 "v => true" (fun _ => true))]
         (MkPagination None None)
         (written_to comments two_comments (MemoryStorage.new None))
       = (Returned
            (MkResult rows [storageKey.index (Table.key comments) "enabled"]),
          s')
       /\ forall row,
            In row rows
            <-> exists id item,
                  row = SObj item
                  /\ view (written_to comments two_comments
                             (MemoryStorage.new None))
                          (storageKey.row (Table.key comments) id) = SObj item
                  /\ strict_eq (prop item "active")
                       (Group.value (Group.Make (JBool true) [JStr "1"]))
                     = true.
Proof.
  assert (Hnd : NoDup (obj_keys (Table.indexes comments))).
  { repeat constructor; simpl; intuition discriminate. }
  assert (Hblank : blank comments (MemoryStorage.new None)).
  { split; [intros n _; reflexivity | intros id; split; reflexivity]. }
  assert (Hn : "enabled"%string <> ""%string) by discriminate.
  assert (Hc : "active"%string <> Table.keyPath comments) by discriminate.
  assert (Hbefore : forall g0, In g0 [] ->
                      (fun _ : JsVal => true) (Group.value g0) = false)
    by (intros g0 []).
  split; [exact Hnd|]. split; [reflexivity|]. split; [reflexivity|].
  split; [reflexivity|].
  split; [exact Hn|]. split; [exact Hc|]. split; [exact Hblank|].
  split; [exact shaped_empty|].
  split; [reflexivity|]. split; [reflexivity|]. split; [exact Hbefore|].
  split; [reflexivity|].
  destruct (predicate_on_index_takes_first_group comments two_comments
              (MemoryStorage.new None) "active" "enabled" 0 "v => true"
              (fun _ => true) [] (Group.Make (JBool true) [JStr "1"])
              [Group.Make (JBool false) [JStr "2"]]
              Hnd eq_refl eq_refl eq_refl Hn Hc Hblank shaped_empty eq_refl
              eq_refl Hbefore eq_refl)
    as [rows [s' [Hrun [_ Hrows]]]].
  exists rows, s'. split; [exact Hrun | exact Hrows].
Defined.

(* ================================================================== *)
(** * Queries with literal filters *)
(* ================================================================== *)

Lemma matches_app (f1 f2 : Filter) r :
  Database.matches (f1 ++ f2)%list r
  = (Database.matches f1 r && Database.matches f2 r)%bool.
Proof. unfold Database.matches. apply forallb_app. Qed.

Lemma matches_entry filter c v item :
  In (c, Literal v) filter ->
  Database.matches filter (SObj item) = true ->
  strict_eq (prop item c) v = true.
Proof.
  intros Hin Hm. unfold Database.matches in Hm.
  rewrite forallb_forall in Hm. exact (Hm _ Hin).
Qed.


Lemma faithful_key table s id item :
  faithful table s ->
  is_str id = true ->
  view s (storageKey.row (Table.key table) id) = SObj item ->
  prop item (Table.keyPath table) = id.
Proof.
  intros Hf Hid Hrow.
  destruct (faithful_mirrored Hf id Hid) as [[item' [Hrow' [_ [Hkey _]]]]|[Hrow' _]];
    rewrite Hrow in Hrow'; [|discriminate].
  injection Hrow' as <-. exact Hkey.
Qed.

Lemma faithful_stored table s x r :
  faithful table s ->
  r = view s (storageKey.row (Table.key table) x) ->
  stored_truthy r = true ->
  exists item, r = SObj item.
Proof.
  intros Hf -> Ht.
  assert (Hkey : storageKey.row (Table.key table) x
                 = storageKey.row (Table.key table) (JStr (to_string x)))
    by reflexivity.
  rewrite Hkey in *.
  destruct (faithful_mirrored Hf (JStr (to_string x)) eq_refl)
    as [[item [Hrow _]]|[Hrow _]]; rewrite Hrow in *; [eauto | discriminate].
Qed.

Lemma index_of_ext table s1 s2 n :
  (forall k, view s2 k = view s1 k) -> index_of table s2 n = index_of table s1 n.
Proof. intros H. unfold index_of. now rewrite H. Qed.

Lemma column_indexes_exact table s filter :
  NoDup (obj_keys (Table.indexes table)) ->
  faithful table s ->
  NoDup (obj_keys filter) ->
  literal filter = true ->
  forall entries seen p si,
    filter = (seen ++ entries)%list ->
    (forall k, view si k = view s k) ->
    (forall c, In c (obj_keys (Database.scanFilters p)) ->
               In c (obj_keys seen)) ->
    sound_plan table s seen (Database.plan_ids p) (Database.scanFilters p) ->
    complete_plan table s filter (Database.plan_ids p) (Database.scanFilters p) ->
    exists p' s',
      Database.column_indexes table entries p si = (Returned p', s')
      /\ (forall k, view s' k = view s k)
      /\ sound_plan table s filter (Database.plan_ids p')
           (Database.scanFilters p')
      /\ complete_plan table s filter (Database.plan_ids p')
           (Database.scanFilters p').
Proof.
  intros Hnd Hf Hfnd Hlit.
  induction entries as [|[c fv] entries IH];
    intros seen p si Hsplit Hv Hkeys Hsound Hcomplete.
  - rewrite app_nil_r in Hsplit. subst seen. exists p, si. cbn. auto.
  - assert (Hin : In (c, fv) filter).
    { rewrite Hsplit. apply in_or_app. right. now left. }
    assert (Hfv : exists v, fv = Literal v).
    { unfold literal in Hlit. rewrite forallb_forall in Hlit.
      specialize (Hlit _ Hin). simpl in Hlit. destruct fv; [eauto|discriminate]. }
    destruct Hfv as [v ->].
    assert (Hsplit' : filter = ((seen ++ [(c, Literal v)]) ++ entries)%list).
    { rewrite <- app_assoc. exact Hsplit. }
    assert (Hfresh : ~ In c (obj_keys (Database.scanFilters p))).
    { intros H. apply Hkeys in H.
      rewrite Hsplit in Hfnd. unfold obj_keys in Hfnd. rewrite map_app in Hfnd.
      apply NoDup_remove_2 in Hfnd. apply Hfnd. apply in_or_app. now left. }
    assert (Hkeys1 : forall c', In c' (obj_keys (Database.scanFilters p)) ->
                                In c' (obj_keys (seen ++ [(c, Literal v)])%list)).
    { intros c' H. unfold obj_keys. rewrite map_app. apply in_or_app. left.
      now apply Hkeys. }
    (* the entry goes to the scan filters *)
    assert (Hscan : forall si',
               (forall k, view si' k = view s k) ->
               exists p' s',
                 Database.column_indexes table entries
                   (Database.MkPlan (Database.plan_ids p) (Database.plan_indexes p)
                      (obj_set c (Literal v) (Database.scanFilters p))) si'
                 = (Returned p', s')
                 /\ (forall k, view s' k = view s k)
                 /\ sound_plan table s filter (Database.plan_ids p')
                      (Database.scanFilters p')
                 /\ complete_plan table s filter (Database.plan_ids p')
                      (Database.scanFilters p')).
    { intros si' Hv'.
      apply (IH (seen ++ [(c, Literal v)])%list); auto;
        cbn [Database.plan_ids Database.scanFilters];
        rewrite obj_set_fresh by exact Hfresh.
      - intros c' H. unfold obj_keys in *. rewrite map_app in *.
        apply in_app_or in H as [H|H]; apply in_or_app; auto.
      - intros x item Hc Hrow Hm. rewrite matches_app in *.
        apply andb_true_iff in Hm as [Hm1 Hm2].
        rewrite (Hsound x item Hc Hrow Hm1). exact Hm2.
      - intros id item Hid Hrow Hm.
        destruct (Hcomplete id item Hid Hrow Hm) as [Hc Hm1].
        split; auto. rewrite matches_app, Hm1.
        unfold Database.matches. cbn [forallb fst snd stored_prop].
        now rewrite (matches_entry filter c v item Hin Hm). }
    cbn [Database.column_indexes]. cbv zeta.
    destruct (Database.column_index table c) as [n|] eqn:Hcol;
      [|now apply Hscan].
    destruct (String.eqb n "") eqn:Hn; [now apply Hscan|].
    unfold bind at 1. rewrite getItem_run.
    set (si1 := snd (MemoryStorage.getItem si (storageKey.index (Table.key table) n))).
    assert (Hv1 : forall k, view si1 k = view s k).
    { intros k. unfold si1. rewrite view_getItem. apply Hv. }
    rewrite Hv. fold (index_of table s n).
    destruct (Database.find_group (Literal v) (index_of table s n)) as [g|]
      eqn:Hfind; [|now apply Hscan].
    (* the entry is answered from a group *)
    pose proof (column_index_some table c n Hcol) as Hentry.
    assert (Hname : In n (obj_keys (Table.indexes table))).
    { apply in_map_iff. exists (n, ByColumn c). auto. }
    pose proof Hfind as Hfound. cbn [Database.find_group] in Hfound.
    apply find_some in Hfound as [Hg Hval].
    destruct (decode_all_settled (Group.ids g)) as [groupIds [Hdec Hmap]].
    { intros i Hi.
      destruct (faithful_member table s n c g i Hnd Hf Hentry Hg Hi)
        as [Hstr [Hd _]]. auto. }
    unfold bind at 1. unfold Database.use_group. rewrite Hdec.
    unfold ret at 1. cbn [fst snd].
    pose proof (faithful_indexed Hf) as [Hapart Hdef _].
    apply (IH (seen ++ [(c, Literal v)])%list); auto;
      cbn [Database.plan_ids Database.scanFilters].
    + intros x item Hc Hrow Hm. cbn [candidate] in Hc.
      apply in_intersect in Hc as [Hx Hc]. rewrite Hmap in Hx.
      rewrite matches_app, (Hsound x item Hc Hrow Hm).
      destruct (faithful_member table s n c g x Hnd Hf Hentry Hg Hx)
        as [_ [_ [item' [Hrow' [_ Hval']]]]].
      rewrite Hrow in Hrow'. injection Hrow' as <-.
      unfold Database.matches. cbn [forallb fst snd stored_prop andb].
      rewrite andb_true_r.
      eapply strict_eq_trans; [|exact Hval]. now rewrite strict_eq_sym.
    + intros id item Hid Hrow Hm.
      destruct (Hcomplete id item Hid Hrow Hm) as [Hc Hm1].
      split; auto. cbn [candidate]. apply in_intersect. split; auto.
      rewrite Hmap.
      pose proof (matches_entry filter c v item Hin Hm) as Hcv.
      assert (Hvdef : is_undefined v = false).
      { apply (defined_of_equal (Group.value g)); auto. now apply (Hdef n). }
      assert (Hidef : is_undefined (prop item c) = false).
      { apply (defined_of_equal v); auto. now rewrite strict_eq_sym. }
      destruct (faithful_row table s n c id item Hnd Hf Hentry Hrow Hidef)
        as [g' [Hg' [Hval' [Hin' _]]]].
      rewrite (faithful_key table s id item Hf Hid Hrow) in Hin'.
      assert (Hsame : g' = g).
      { destruct (In_nth_error _ _ Hg) as [i Hi].
        destruct (In_nth_error _ _ Hg') as [j Hj].
        assert (E : j = i).
        { apply (Hapart n Hname j i g' g Hj Hi).
          eapply strict_eq_trans; [exact Hval'|].
          eapply strict_eq_trans; [exact Hcv|]. now rewrite strict_eq_sym. }
        subst j. congruence. }
      now subst g'.
Qed.

Lemma adds_column_indexes (K : string -> Prop) table entries : forall p,
  (forall n, K (storageKey.index (Table.key table) n)) ->
  adds K (Database.column_indexes table entries p).
Proof.
  induction entries as [|[name v] entries IH]; intros p HK;
    cbn [Database.column_indexes].
  - apply adds_ret.
  - destruct (Database.column_index table name); [|now apply IH].
    destruct (String.eqb _ _); [now apply IH|].
    apply adds_bind; [now apply adds_getItem|]. intros stored.
    destruct (Database.find_group _ _); [|now apply IH].
    apply adds_bind.
    + unfold Database.use_group. destruct (decode_all _);
        intros st k H; now left.
    + intros found. now apply IH.
Qed.

Lemma unnamed_absent table ws : forall s,
  NoDup (obj_keys (Table.indexes table)) ->
  forallb (named table) ws = true ->
  view s (storageKey.row (Table.key table) (JStr "")) = undefined ->
  view (written_to table ws s) (storageKey.row (Table.key table) (JStr ""))
  = undefined.
Proof.
  unfold written_to.
  induction ws as [|w ws IH]; intros s Hnd Hws Hs; simpl; auto.
  simpl in Hws. apply andb_true_iff in Hws as [Hw Hrest].
  apply IH; auto. rewrite write_frame; auto.
  - intros H. split_key H. injection H as H.
    apply (f_equal String.length) in H. unfold named in Hw.
    destruct (to_string (target table w)) as [|a rest] eqn:E; [discriminate|].
    simpl in H. unfold encode_char in H.
    destruct (unreserved a); simpl in H; discriminate.
  - apply row_key_not_rowIndex.
  - intros n _ H. symmetry in H. revert H. apply index_key_not_row.
Qed.

Lemma rows_exact table s filter l scanFilters :
  faithful table s ->
  sound_plan table s filter (Some l) scanFilters ->
  complete_plan table s filter (Some l) scanFilters ->
  forall r,
    In r (matching table scanFilters s l)
    <-> exists id item,
          r = SObj item
          /\ view s (storageKey.row (Table.key table) id) = SObj item
          /\ Database.matches filter r = true.
Proof.
  intros Hf Hsound Hcomplete r. rewrite in_matching. split.
  - intros [x [Hx [Hr [Ht Hm]]]].
    destruct (faithful_stored table s x r Hf Hr Ht) as [item ->].
    exists x, item. split; auto. split; auto.
    apply (Hsound x item); auto.
  - intros [id [item [-> [Hrow Hm]]]].
    assert (Hkey : storageKey.row (Table.key table) id
                   = storageKey.row (Table.key table) (JStr (to_string id)))
      by reflexivity.
    rewrite Hkey in Hrow.
    destruct (Hcomplete (JStr (to_string id)) item eq_refl Hrow Hm) as [Hc Hm'].
    exists (JStr (to_string id)). rewrite Hrow. auto.
Qed.

(** A query whose filter gives a value for every column it names is
    exact, whichever columns have an index: in a storage that regular
    writes have built, it returns the stored rows of the table that have,
    in every column the filter names, a value strictly equal to the one
    the filter gives, and no others.  (The names of the table and of the
    filter are ordinary and the storage was in shape at the start.) *)
Theorem literal_query_is_exact table filter ws s0 :
  NoDup (obj_keys (Table.indexes table)) ->
  ordinary_table table = true ->
  columns_only table = true ->
  NoDup (obj_keys filter) ->
  literal filter = true ->
  forallb ordinary (obj_keys filter) = true ->
  blank table s0 ->
  shaped s0 ->
  bare table s0 ->
  forallb (regular table) ws = true ->
  exists rows indexes s',
    Database.queryTable table filter (MkPagination None None)
      (written_to table ws s0)
    = (Returned (MkResult rows indexes), s')
    /\ forall r,
         In r rows
         <-> exists id item,
               r = SObj item
               /\ view (written_to table ws s0)
                       (storageKey.row (Table.key table) id) = SObj item
               /\ Database.matches filter r = true.
Proof.
  intros Hnd _ Hcols Hfnd Hlit _ Hblank _ Hbare Hws.
  set (s := written_to table ws s0).
  assert (Hparts : forallb (settled table) ws = true
                   /\ forallb (legible table) ws = true
                   /\ forallb (named table) ws = true).
  { rewrite !forallb_forall in *. repeat split; intros w Hw;
      specialize (Hws w Hw); unfold regular in Hws;
      apply andb_true_iff in Hws as [Hws H3];
      apply andb_true_iff in Hws as [H1 H2]; assumption. }
  destruct Hparts as [Hsettled [Hlegible Hnamed]].
  assert (Hf : faithful table s).
  { apply faithful_written_to; auto. now apply faithful_blank. }
  assert (Hscannable : scannable table s).
  { apply scannable_written_to; auto. now apply scannable_bare. }
  assert (Hunnamed : view s (storageKey.row (Table.key table) (JStr ""))
                     = undefined).
  { apply unnamed_absent; auto. apply Hblank. }
  (* the candidates at the start *)
  assert (Hsound0 : sound_plan table s [] (Database.seed table filter) []).
  { intros x item _ _ _. reflexivity. }
  assert (Hcomplete0 : complete_plan table s filter (Database.seed table filter) []).
  { intros id item Hid Hrow Hm. split; [|reflexivity].
    unfold Database.seed, filter_prop.
    destruct (obj_get filter (Table.keyPath table)) as [fv|] eqn:Hget;
      [|exact I].
    apply obj_get_In in Hget.
    assert (Hfv : exists v, fv = Literal v).
    { unfold literal in Hlit. rewrite forallb_forall in Hlit.
      specialize (Hlit _ Hget). simpl in Hlit.
      destruct fv; [eauto|discriminate]. }
    destruct Hfv as [v ->]. cbn [filter_value].
    destruct (truthy v); [|exact I].
    pose proof (matches_entry filter _ v item Hget Hm) as Hv.
    rewrite (faithful_key table s id item Hf Hid Hrow) in Hv.
    left. apply strict_eq_str; auto. now rewrite strict_eq_sym. }
  destruct (column_indexes_exact table s filter Hnd Hf Hfnd Hlit filter []
              (Database.MkPlan (Database.seed table filter) [] []) s
              eq_refl (fun k => eq_refl) (fun c H => H) Hsound0 Hcomplete0)
    as [p [s1 [Hloop [Hv1 [Hsound Hcomplete]]]]].
  assert (Hkeys1 : forall k, In k (MemoryStorage.getAllKeys s1) ->
             In k (MemoryStorage.getAllKeys s)
             \/ exists n, k = storageKey.index (Table.key table) n).
  { intros k Hk.
    pose proof (adds_column_indexes
                  (fun k => exists n, k = storageKey.index (Table.key table) n)
                  table filter
                  (Database.MkPlan (Database.seed table filter) [] [])
                  (fun n => ex_intro _ n eq_refl) s k) as H.
    rewrite Hloop in H. now apply H. }
  assert (Hstart : Database.plan table filter s
                   = match Database.plan_ids p with
                     | Some _ => (Returned p, s1)
                     | None =>
                         match Database.scanned_ids
                                 (storageKey.rows (Table.key table))
                                 (List.filter
                                    (fun key =>
                                       startsWith key
                                         (storageKey.rows (Table.key table)))
                                    (MemoryStorage.getAllKeys s1)) with
                         | Some ids =>
                             (Returned
                                (Database.MkPlan (Some ids)
                                   (Database.plan_indexes p)
                                   (Database.scanFilters p)), s1)
                         | None => (Threw URIError, s1)
                         end
                     end).
  { unfold Database.plan. unfold bind at 1.
    rewrite function_indexes_columns by exact Hcols.
    cbn [fst snd]. unfold bind at 1. rewrite Hloop.
    destruct (Database.plan_ids p); [reflexivity|].
    unfold bind, Storage.getAllKeys.
    destruct (Database.scanned_ids _ _); reflexivity. }
  destruct (Database.plan_ids p) as [l|] eqn:Hids.
  - destruct (queryTable_paginates table filter None None s p s1 l Hstart Hids I I)
      as [s2 [Hrun _]].
    cbn [paginate skipped skipn] in Hrun.
    rewrite (matching_views table _ s s1 l Hv1) in Hrun.
    exists (matching table (Database.scanFilters p) s l),
           (Database.plan_indexes p), s2.
    split; [exact Hrun|]. now apply rows_exact.
  - destruct (scanned_ids_scannable (Table.key table)
                (List.filter
                   (fun key => startsWith key (storageKey.rows (Table.key table)))
                   (MemoryStorage.getAllKeys s1)))
      as [ids [Hscan Hin]].
    { intros k Hk. apply filter_In in Hk as [Hk Hprefix].
      destruct (Hkeys1 k Hk) as [H|[n ->]]; [now apply Hscannable|].
      rewrite index_not_scanned in Hprefix. discriminate. }
    rewrite Hscan in Hstart.
    destruct (queryTable_paginates table filter None None s _ s1 ids
                Hstart eq_refl I I) as [s2 [Hrun _]].
    cbn [paginate skipped skipn Database.scanFilters Database.plan_indexes] in Hrun.
    rewrite (matching_views table _ s s1 ids Hv1) in Hrun.
    exists (matching table (Database.scanFilters p) s ids),
           (Database.plan_indexes p), s2.
    split; [exact Hrun|]. apply rows_exact; auto.
    + intros x item _ Hrow Hm. now apply (Hsound x item I).
    + intros id item Hid Hrow Hm.
      destruct (Hcomplete id item Hid Hrow Hm) as [_ Hm']. split; auto.
      cbn [candidate]. apply Hin. split; auto. split.
      * intros E. destruct id; try discriminate. simpl in E. subst.
        rewrite Hunnamed in Hrow. discriminate.
      * apply filter_In. split.
        -- apply view_listed. now rewrite Hv1, Hrow.
        -- unfold startsWith, storageKey.row. apply prefix_append.
Qed.

Lemma literal_query_is_exact_witness :
  NoDup (obj_keys (Table.indexes comments))
  /\ ordinary_table comments = true
  /\ columns_only comments = true
  /\ NoDup (obj_keys [("active", Literal (JBool false));
                      ("id", Literal (JStr "2"))])
  /\ literal [("active", Literal (JBool false)); ("id", Literal (JStr "2"))]
     = true
  /\ forallb ordinary
       (obj_keys [("active", Literal (JBool false)); ("id", Literal (JStr "2"))])
     = true
  /\ blank comments (MemoryStorage.new None)
  /\ shaped (MemoryStorage.new None)
  /\ bare comments (MemoryStorage.new None)
  /\ forallb (regular comments) two_comments = true
  /\ exists rows indexes s',
       Database.queryTable comments
         [("active", Literal (JBool false)); ("id", Literal (JStr "2"))]
         (MkPagination None None)
         (written_to comments two_comments (MemoryStorage.new None))
       = (Returned (MkResult rows indexes), s')
       /\ forall r,
            In r rows
            <-> exists id item,
                  r = SObj item
                  /\ view (written_to comments two_comments
                             (MemoryStorage.new None))
                          (storageKey.row (Table.key comments) id) = SObj item
                  /\ Database.matches
                       [("active", Literal (JBool false));
                        ("id", Literal (JStr "2"))] r = true.
Proof.
  assert (Hnd : NoDup (obj_keys (Table.indexes comments))).
  { repeat constructor; simpl; intuition discriminate. }
  assert (Hfnd : NoDup (obj_keys [("active", Literal (JBool false));
                                  ("id", Literal (JStr "2"))])).
  { repeat constructor; simpl; intuition discriminate. }
  assert (Hblank : blank comments (MemoryStorage.new None)).
  { split; [intros n _; reflexivity | intros id; split; reflexivity]. }
  assert (Hbare : bare comments (MemoryStorage.new None)).
  { intros k []. }
  split; [exact Hnd|]. split; [reflexivity|]. split; [reflexivity|].
  split; [exact Hfnd|].
  split; [reflexivity|]. split; [reflexivity|]. split; [exact Hblank|].
  split; [exact shaped_empty|]. split; [exact Hbare|].
  split; [reflexivity|].
  exact (literal_query_is_exact comments
           [("active", Literal (JBool false)); ("id", Literal (JStr "2"))]
           two_comments (MemoryStorage.new None)
           Hnd eq_refl eq_refl Hfnd eq_refl eq_refl Hblank shaped_empty Hbare
           eq_refl).
Defined.

(* ================================================================== *)
(** * A merge that fails *)
(* ================================================================== *)

Lemma shields_ret {A} (a : A) : shields (ret a).
Proof. intros state pending fb. exists state, pending, fb. auto. Qed.

Lemma shields_call {A} (r : Outcome A) : shields (call r).
Proof. intros state pending fb. exists state, pending, fb. auto. Qed.

Lemma shields_bind {A B} (m : Action A) (f : A -> Action B) :
  shields m -> (forall a, shields (f a)) -> shields (bind m f).
Proof.
  intros Hm Hf state pending fb. unfold bind.
  destruct (Hm state pending fb) as [st1 [pk1 [fb1 [E1 Hv1]]]].
  destruct (m (MemoryStorage.Make state pending (Some fb))) as [[a|e] s1];
    cbn [snd] in *; subst s1.
  - destruct (Hf a st1 pk1 fb1) as [st2 [pk2 [fb2 [E2 Hv2]]]].
    exists st2, pk2, fb2. split; auto.
    intros k Hk. now rewrite Hv2, Hv1.
  - exists st1, pk1, fb1. auto.
Qed.

Lemma shields_for_each {A} (xs : list A) (body : A -> Action unit) :
  (forall x, In x xs -> shields (body x)) -> shields (for_each xs body).
Proof.
  induction xs as [|x rest IH]; intros Hbody; simpl.
  - apply shields_ret.
  - apply shields_bind; [apply Hbody; now left|].
    intros _. apply IH. intros y Hy. apply Hbody. now right.
Qed.

Lemma shields_getItem key : shields (Storage.getItem key).
Proof.
  intros state pending fb. unfold Storage.getItem. simpl.
  destruct (obj_has state key); simpl.
  - exists state, pending, fb. auto.
  - destruct (MemoryStorage.getItem fb key) as [v fb'] eqn:Hget. simpl.
    exists (obj_set key v state), pending, fb'. split; auto.
    intros k _. replace fb' with (snd (MemoryStorage.getItem fb key))
      by now rewrite Hget.
    apply view_getItem.
Qed.

Lemma shields_setItem key v : shields (Storage.setItem key v).
Proof.
  intros state pending fb. unfold Storage.setItem. simpl.
  eexists _, _, fb. split; [reflexivity | auto].
Qed.

Lemma shields_stamp table meta :
  shields (Storage.outer (Database.setTableMeta table meta)).
Proof.
  intros state pending fb. simpl.
  eexists _, _, _. split; [reflexivity|].
  intros k Hk. rewrite view_setItem.
  destruct (String.eqb_spec (storageKey.tableMeta (Table.key table)) k)
    as [<-|_]; auto.
  exfalso. apply Hk. now exists (Table.key table).
Qed.

Lemma shields_database_setItem table item :
  Table.isItemDeleted table item <> Returned true ->
  shields (Database.setItem table item).
Proof.
  intros Hkept. unfold Database.setItem.
  destruct (Table.isItemDeleted table item) as [[|]|e] eqn:Hd;
    [contradiction| |].
  - unfold bind at 1, call at 1.
    apply shields_bind; [apply shields_getItem|]. intros snapshot.
    apply shields_bind; [apply shields_setItem|]. intros _.
    apply shields_bind; [apply shields_setItem|]. intros _.
    apply shields_for_each. intros n _.
    destruct (_ && _)%bool; [apply shields_ret|].
    apply shields_bind; [apply shields_getItem|]. intros stored.
    apply shields_setItem.
  - intros state pending fb. unfold bind, call.
    exists state, pending, fb. auto.
Qed.

Lemma shields_commitFunction now s table :
  undeleting s table = true -> shields (commitFunction now table s).
Proof.
  intros H. unfold undeleting in H.
  apply andb_true_iff in H as [H Hitems].
  apply andb_true_iff in H as [Hforce _].
  apply negb_true_iff in Hforce.
  unfold commitFunction. rewrite Hforce.
  apply shields_bind; [apply shields_ret|]. intros _.
  apply shields_bind; [|intros _; apply shields_stamp].
  apply shields_for_each. intros item Hitem.
  apply shields_database_setItem.
  rewrite forallb_forall in Hitems. specialize (Hitems item Hitem).
  intros E. rewrite E in Hitems. discriminate.
Qed.

(** When the merge of a sync fails and no row that was fetched is
    reported deleted, the rows, snapshots and indexes are as before the
    sync: outside the meta records every key reads as it did. *)
Theorem failed_merge_keeps_the_rows now (tables : Database.t) s e :
  forallb (undeleting s) tables = true ->
  fst (Database.sync now tables s) = Threw e ->
  forall k, ~ is_meta k -> view (snd (Database.sync now tables s)) k = view s k.
Proof.
  intros Hclean Hthrow k Hk.
  assert (Hret : forallb (fun table => returns (fetched table s)) tables = true).
  { rewrite forallb_forall in *. intros table Hin.
    specialize (Hclean table Hin). unfold undeleting in Hclean.
    apply andb_true_iff in Hclean as [Hclean _].
    now apply andb_true_iff in Hclean as [_ Hclean]. }
  destruct (fetch_run now tables tables s s (incl_refl _) (primed_refl _ _) Hret)
    as [s1 [Hfetch Hprimed]].
  assert (Hs1 : view s1 k = view s k).
  { destruct (Hprimed k) as [E|[_ [_ [table [_ E]]]]]; auto.
    exfalso. apply Hk. now exists (Table.key table). }
  assert (Hbody : shields
                    (for_each (map (fun table => commitFunction now table s) tables)
                              (fun fn => fn))).
  { apply shields_for_each. intros fn Hfn.
    apply in_map_iff in Hfn as [table [<- Hin]].
    apply shields_commitFunction.
    rewrite forallb_forall in Hclean. now apply Hclean. }
  destruct (Hbody [] [] s1) as [st [pk [fb [Htrx Hv]]]].
  unfold Database.sync, Database.fetch, bind in *. rewrite Hfetch in *.
  unfold Database.transaction, Storage.transaction, MemoryStorage.transaction,
    MemoryStorage.new in *.
  destruct (for_each _ _ (MemoryStorage.Make [] [] (Some s1))) as [[[]|e'] trx'];
    cbn [fst snd] in *; [discriminate|].
  subst trx'. cbn [MemoryStorage.clear MemoryStorage.fallback].
  now rewrite Hv.
Qed.

Lemma failed_merge_keeps_the_rows_witness :
  forallb (undeleting synced_store) [feed; posts] = true
  /\ fst (Database.sync "2020-02-02T00:00:00.000Z" [feed; posts] synced_store)
     = Threw (Raised "bad row")
  /\ view synced_store (storageKey.row "pages" (JStr "a")) = undefined
  /\ view (snd (Database.sync "2020-02-02T00:00:00.000Z" [feed; posts]
                  synced_store))
          (storageKey.tableMeta "pages")
     = SObj [("lastSync", JStr "2020-02-02T00:00:00.000Z")]
  /\ forall k, ~ is_meta k ->
       view (snd (Database.sync "2020-02-02T00:00:00.000Z" [feed; posts]
                    synced_store)) k
       = view synced_store k.
Proof.
  split; [reflexivity|]. split; [reflexivity|]. split; [reflexivity|].
  split; [reflexivity|].
  exact (failed_merge_keeps_the_rows "2020-02-02T00:00:00.000Z" [feed; posts]
           synced_store (Raised "bad row") eq_refl eq_refl).
Defined.
